(** * Chinese chess: rule engine, position evaluation and move search

    A shallow embedding of the TypeScript sources
    ([Constants], [Position], [PieceModel], [GameModel], [Rules], [AI],
    [AIWorker], and the parts of [Board], [Game] and [SaveLoad] that
    compute on the game) and the properties of the specification checked
    on it, followed by further properties of the rules, the machine's
    choice, the search and the controller.

    Coordinates, piece values and scores are JavaScript numbers that only
    ever hold integers here; they are modelled by [Z].  Screen points are
    exact rationals.  An object reference that may be [null] is an
    [option]. *)

From Stdlib Require Import String ZArith QArith Qround List Bool Lia Permutation
  Sorted FinFun.
Import ListNotations.
Open Scope Z_scope.

(** ** utils/Constants.ts *)

Definition BOARD_WIDTH : Z := 8.
Definition BOARD_HEIGHT : Z := 9.

Definition MIN_CELL_SIZE : Z := 50.
Definition MAX_CELL_SIZE : Z := 90.
Definition DEFAULT_CELL_SIZE : Z := 75.
Definition EDGE_MARGIN : Z := 30.

(** [CELL_SIZE], [CANVAS_WIDTH] and [CANVAS_HEIGHT] are module variables
    that [updateCellSize] assigns; the new cell size is returned here and
    the canvas sizes are functions of it.  The size passed in is what
    [Game.updateCanvasSize] computes with [Math.floor], a whole number. *)
Definition updateCellSize (newSize : Z) : Z :=
  Z.max MIN_CELL_SIZE (Z.min MAX_CELL_SIZE newSize).

Definition CANVAS_WIDTH (cellSize : Z) : Z := BOARD_WIDTH * cellSize + EDGE_MARGIN * 2.
Definition CANVAS_HEIGHT (cellSize : Z) : Z := BOARD_HEIGHT * cellSize + EDGE_MARGIN * 2.

Inductive PieceType : Set :=
  KING | ADVISOR | ELEPHANT | HORSE | CHARIOT | CANNON | SOLDIER.

Inductive PieceColor : Set := RED | BLACK.

Inductive GameState : Set := INIT | PLAYING | OVER.

Inductive GameMode : Set := PVP | PVE.

Inductive AIDifficulty : Set := EASY | MEDIUM | HARD.

Definition PieceType_eqb (a b : PieceType) : bool :=
  match a, b with
  | KING, KING | ADVISOR, ADVISOR | ELEPHANT, ELEPHANT | HORSE, HORSE
  | CHARIOT, CHARIOT | CANNON, CANNON | SOLDIER, SOLDIER => true
  | _, _ => false
  end.

Definition PieceColor_eqb (a b : PieceColor) : bool :=
  match a, b with
  | RED, RED | BLACK, BLACK => true
  | _, _ => false
  end.

(** [color === PieceColor.RED ? PieceColor.BLACK : PieceColor.RED] *)
Definition opponentOf (c : PieceColor) : PieceColor :=
  match c with RED => BLACK | BLACK => RED end.

(** The loop [for (let i = lo; i < hi; i++)] visits [zrange lo hi]. *)
Definition zrange (lo hi : Z) : list Z :=
  map (fun i => lo + Z.of_nat i) (seq 0 (Z.to_nat (hi - lo))).

(** [Array.prototype.findIndex]; [find] itself is [List.find]. *)
Fixpoint findIndex {A : Type} (f : A -> bool) (l : list A) : option nat :=
  match l with
  | [] => None
  | a :: l' => if f a then Some O
               else match findIndex f l' with
                    | Some i => Some (S i)
                    | None => None
                    end
  end.

(** In-place update of the object held at index [i] of an array. *)
Fixpoint updateAt {A : Type} (i : nat) (f : A -> A) (l : list A) : list A :=
  match l, i with
  | [], _ => []
  | a :: l', O => f a :: l'
  | a :: l', S i' => a :: updateAt i' f l'
  end.

(** ** Plain structured data

    The values [toJSON] builds and [fromJSON] reads: JavaScript objects,
    arrays, strings, numbers, booleans and [null].  A property that is
    absent reads as [undefined], here [None]. *)

#[local] Unset Elimination Schemes.
Inductive json : Set :=
| JNull
| JBool (b : bool)
| JNum (n : Z)
| JStr (s : string)
| JArr (items : list json)
| JObj (props : list (string * json)).
#[local] Set Elimination Schemes.

Fixpoint assoc (k : string) (props : list (string * json)) : option json :=
  match props with
  | [] => None
  | (k', v) :: rest => if String.eqb k k' then Some v else assoc k rest
  end.

(** [data.k] *)
Definition prop (k : string) (data : json) : option json :=
  match data with
  | JObj props => assoc k props
  | _ => None
  end.

(** JavaScript truthiness, as used by [if (data.k)]. *)
Definition truthy (v : option json) : bool :=
  match v with
  | None | Some JNull => false
  | Some (JBool b) => b
  | Some (JNum n) => negb (n =? 0)
  | Some (JStr s) => negb (String.eqb s EmptyString)
  | Some (JArr _) | Some (JObj _) => true
  end.

Definition PieceType_toString (t : PieceType) : string :=
  match t with
  | KING => "king" | ADVISOR => "advisor" | ELEPHANT => "elephant"
  | HORSE => "horse" | CHARIOT => "chariot" | CANNON => "cannon"
  | SOLDIER => "soldier"
  end.

Definition PieceColor_toString (c : PieceColor) : string :=
  match c with RED => "red" | BLACK => "black" end.

Definition GameState_toString (s : GameState) : string :=
  match s with INIT => "init" | PLAYING => "playing" | OVER => "over" end.

Definition GameMode_toString (m : GameMode) : string :=
  match m with PVP => "pvp" | PVE => "pve" end.

Definition AIDifficulty_toString (d : AIDifficulty) : string :=
  match d with EASY => "easy" | MEDIUM => "medium" | HARD => "hard" end.

(** Reading a value back at its enum type.  TypeScript does not check the
    value it reads; a value that is no member of the enum has no
    counterpart in the typed model and reads as [None]. *)
Definition ofString {A : Set} (toString : A -> string) (members : list A)
    (v : json) : option A :=
  match v with
  | JStr s => find (fun a => String.eqb (toString a) s) members
  | _ => None
  end.

Definition PieceType_ofJSON : json -> option PieceType :=
  ofString PieceType_toString [KING; ADVISOR; ELEPHANT; HORSE; CHARIOT; CANNON; SOLDIER].

Definition PieceColor_ofJSON : json -> option PieceColor :=
  ofString PieceColor_toString [RED; BLACK].

Definition GameState_ofJSON : json -> option GameState :=
  ofString GameState_toString [INIT; PLAYING; OVER].

Definition GameMode_ofJSON : json -> option GameMode :=
  ofString GameMode_toString [PVP; PVE].

Definition AIDifficulty_ofJSON : json -> option AIDifficulty :=
  ofString AIDifficulty_toString [EASY; MEDIUM; HARD].

Definition asNum (v : json) : option Z :=
  match v with JNum n => Some n | _ => None end.

Definition asBool (v : json) : option bool :=
  match v with JBool b => Some b | _ => None end.

Definition asStr (v : json) : option string :=
  match v with JStr s => Some s | _ => None end.

(** [string | null] and [PieceColor | null] *)
Definition asNullable {A : Type} (read : json -> option A) (v : json)
    : option (option A) :=
  match v with
  | JNull => Some None
  | _ => option_map Some (read v)
  end.

(** A constructor argument with a default: the default is taken when the
    argument is [undefined]. *)
Definition withDefault {A : Type} (read : json -> option A) (default : A)
    (v : option json) : option A :=
  match v with
  | None => Some default
  | Some j => read j
  end.

(** [items.map(read)], failing as soon as one item fails. *)
Fixpoint mapOpt {A B : Type} (read : A -> option B) (items : list A)
    : option (list B) :=
  match items with
  | [] => Some []
  | i :: rest =>
      match read i, mapOpt read rest with
      | Some b, Some bs => Some (b :: bs)
      | _, _ => None
      end
  end.

Definition asArr {A : Type} (read : json -> option A) (v : json)
    : option (list A) :=
  match v with
  | JArr items => mapOpt read items
  | _ => None
  end.

(** ** models/Position.ts *)

Module Position.

Record t : Set := mk { x : Z; y : Z }.

Definition isValid (p : t) : bool :=
  (x p >=? 0) && (x p <=? BOARD_WIDTH) && (y p >=? 0) && (y p <=? BOARD_HEIGHT).

Definition equals (p other : t) : bool :=
  (x p =? x other) && (y p =? y other).

Definition toPlain (p : t) : json :=
  JObj [("x"%string, JNum (x p)); ("y"%string, JNum (y p))].

(** [new Position(data.x, data.y)] on numbers. *)
Definition ofPlain (data : json) : option t :=
  match prop "x" data, prop "y" data with
  | Some (JNum px), Some (JNum py) => Some (mk px py)
  | _, _ => None
  end.

Definition manhattanDistance (p other : t) : Z :=
  Z.abs (x p - x other) + Z.abs (y p - y other).

(** [Math.round] of a real number: the nearest integer, halves going up. *)
Definition round (q : Q) : Z := Qfloor (q + (1 # 2))%Q.

(** The screen point of an intersection, for the cell size in force. *)
Definition toScreen (cellSize : Z) (p : t) : Z * Z :=
  (x p * cellSize + EDGE_MARGIN, y p * cellSize + EDGE_MARGIN).

(** The intersection nearest to a screen point, brought back onto the
    board.  Screen coordinates are taken as exact rationals. *)
Definition fromScreen (cellSize : Z) (screenX screenY : Q) : t :=
  let adjustedX := (screenX - inject_Z EDGE_MARGIN)%Q in
  let adjustedY := (screenY - inject_Z EDGE_MARGIN)%Q in
  let gridX := round (adjustedX / inject_Z cellSize)%Q in
  let gridY := round (adjustedY / inject_Z cellSize)%Q in
  let gridX := Z.max 0 (Z.min BOARD_WIDTH gridX) in
  let gridY := Z.max 0 (Z.min BOARD_HEIGHT gridY) in
  mk gridX gridY.

End Position.

(** ** models/PieceModel.ts *)

Module PieceModel.

Record t : Set := mk {
  type : PieceType;
  color : PieceColor;
  position : Position.t;
  isAlive : bool;
  id : string
}.

Definition moveTo (p : t) (target : Position.t) : t :=
  mk (type p) (color p) target (isAlive p) (id p).

(** The assignment [piece.isAlive = false]. *)
Definition kill (p : t) : t :=
  mk (type p) (color p) (position p) false (id p).

Definition clone (p : t) : t :=
  mk (type p) (color p)
     (Position.mk (Position.x (position p)) (Position.y (position p)))
     (isAlive p) (id p).

Definition canMoveTo (p : t) (target : Position.t) : bool :=
  isAlive p && negb (Position.equals (position p) target).

Definition px (p : t) : Z := Position.x (position p).
Definition py (p : t) : Z := Position.y (position p).

Definition toJSON (p : t) : json :=
  JObj [("id"%string, JStr (id p));
        ("type"%string, JStr (PieceType_toString (type p)));
        ("color"%string, JStr (PieceColor_toString (color p)));
        ("position"%string,
           JObj [("x"%string, JNum (Position.x (position p)));
                 ("y"%string, JNum (Position.y (position p)))]);
        ("isAlive"%string, JBool (isAlive p))].

(** [isAlive] has the default [true].  A datum without [id] would be given
    a fresh random id by the constructor; that case is left out here
    ([None]), as is every datum whose fields have the wrong type. *)
Definition fromJSON (data : json) : option t :=
  match prop "type" data, prop "color" data, prop "position" data, prop "id" data with
  | Some ty, Some co, Some po, Some (JStr i) =>
      match PieceType_ofJSON ty, PieceColor_ofJSON co, Position.ofPlain po,
            withDefault asBool true (prop "isAlive" data) with
      | Some ty', Some co', Some po', Some al => Some (mk ty' co' po' al i)
      | _, _, _, _ => None
      end
  | _, _, _, _ => None
  end.

End PieceModel.

(** ** models/GameModel.ts *)

Module GameModel.

#[local] Unset Elimination Schemes.
Inductive t : Set := mk {
  pieces : list PieceModel.t;
  currentTurn : PieceColor;
  gameState : GameState;
  winner : option PieceColor;
  isInCheck : bool;
  selectedPieceId : option string;
  validMoves : list Position.t;
  history : list t;
  gameMode : GameMode;
  aiDifficulty : AIDifficulty;
  aiPlayerColor : PieceColor
}.
#[local] Set Elimination Schemes.

Definition withPieces (g : t) (ps : list PieceModel.t) : t :=
  mk ps (currentTurn g) (gameState g) (winner g) (isInCheck g)
     (selectedPieceId g) (validMoves g) (history g) (gameMode g)
     (aiDifficulty g) (aiPlayerColor g).

Definition occupies (x y : Z) (piece : PieceModel.t) : bool :=
  PieceModel.isAlive piece
  && (PieceModel.px piece =? x) && (PieceModel.py piece =? y).

Definition getPieceAt (g : t) (x y : Z) : option PieceModel.t :=
  find (occupies x y) (pieces g).

Definition getPiecesByColor (g : t) (c : PieceColor) : list PieceModel.t :=
  filter (fun piece => PieceModel.isAlive piece
                       && PieceColor_eqb (PieceModel.color piece) c)
         (pieces g).

Definition getCurrentTurnPieces (g : t) : list PieceModel.t :=
  getPiecesByColor g (currentTurn g).

Definition switchTurn (g : t) : t :=
  mk (pieces g) (opponentOf (currentTurn g)) (gameState g) (winner g)
     (isInCheck g) (selectedPieceId g) (validMoves g) (history g)
     (gameMode g) (aiDifficulty g) (aiPlayerColor g).

Definition setState (g : t) (state : GameState) : t :=
  mk (pieces g) (currentTurn g) state (winner g) (isInCheck g)
     (selectedPieceId g) (validMoves g) (history g) (gameMode g)
     (aiDifficulty g) (aiPlayerColor g).

Definition setWinner (g : t) (w : PieceColor) : t :=
  mk (pieces g) (currentTurn g) OVER (Some w) (isInCheck g)
     (selectedPieceId g) (validMoves g) (history g) (gameMode g)
     (aiDifficulty g) (aiPlayerColor g).

Definition selectPiece (g : t) (pieceId : option string) : t :=
  mk (pieces g) (currentTurn g) (gameState g) (winner g) (isInCheck g)
     pieceId [] (history g) (gameMode g) (aiDifficulty g) (aiPlayerColor g).

Definition setValidMoves (g : t) (moves : list Position.t) : t :=
  mk (pieces g) (currentTurn g) (gameState g) (winner g) (isInCheck g)
     (selectedPieceId g) moves (history g) (gameMode g)
     (aiDifficulty g) (aiPlayerColor g).

Definition isValidMove (g : t) (x y : Z) : bool :=
  existsb (fun m => (Position.x m =? x) && (Position.y m =? y)) (validMoves g).

Definition setIsInCheck (g : t) (chk : bool) : t :=
  mk (pieces g) (currentTurn g) (gameState g) (winner g) chk
     (selectedPieceId g) (validMoves g) (history g) (gameMode g)
     (aiDifficulty g) (aiPlayerColor g).

Definition withHistory (g : t) (h : list t) : t :=
  mk (pieces g) (currentTurn g) (gameState g) (winner g) (isInCheck g)
     (selectedPieceId g) (validMoves g) h (gameMode g)
     (aiDifficulty g) (aiPlayerColor g).

(** The copy gets cloned pieces and an empty history. *)
Definition clone (g : t) : t :=
  mk (map PieceModel.clone (pieces g)) (currentTurn g) (gameState g)
     (winner g) (isInCheck g) (selectedPieceId g) (validMoves g) []
     (gameMode g) (aiDifficulty g) (aiPlayerColor g).

Fixpoint toJSON (g : t) : json :=
  match g with
  | mk ps turn state win chk sel moves hist mode diff aiColor =>
      JObj [("pieces"%string, JArr (map PieceModel.toJSON ps));
            ("currentTurn"%string, JStr (PieceColor_toString turn));
            ("gameState"%string, JStr (GameState_toString state));
            ("winner"%string,
               match win with
               | Some c => JStr (PieceColor_toString c)
               | None => JNull
               end);
            ("isInCheck"%string, JBool chk);
            ("selectedPieceId"%string,
               match sel with Some i => JStr i | None => JNull end);
            ("validMoves"%string, JArr (map Position.toPlain moves));
            ("history"%string, JArr (map toJSON hist));
            ("gameMode"%string, JStr (GameMode_toString mode));
            ("aiDifficulty"%string, JStr (AIDifficulty_toString diff));
            ("aiPlayerColor"%string, JStr (PieceColor_toString aiColor))]
  end.

(** A property read under [if (data.k)]: the field keeps its initial value
    when [data.k] is falsy. *)
Definition ifPresent {A : Type} (read : json -> option A) (initial : A)
    (v : option json) : option A :=
  if truthy v then
    match v with Some j => read j | None => None end
  else Some initial.

(** [None] stands for a [TypeError] (as [data.pieces.map] on a datum
    without [pieces]) and for a result outside the typed model.  The
    history is read by [data.history.map(GameModel.fromJSON)]; the scan
    below is [ifPresent] on [prop "history"], written out so that the
    recursion is on the items of the array. *)
Fixpoint fromJSON (data : json) : option t :=
  match data with
  | JObj props =>
      let hist :=
        (fix scan (ps : list (string * json)) : option (list t) :=
           match ps with
           | [] => Some []
           | (k, v) :: rest =>
               if String.eqb "history" k then
                 match v with
                 | JArr items =>
                     (fix each (l : list json) : option (list t) :=
                        match l with
                        | [] => Some []
                        | i :: l' =>
                            match fromJSON i, each l' with
                            | Some m, Some ms => Some (m :: ms)
                            | _, _ => None
                            end
                        end) items
                 | other => if truthy (Some other) then None else Some []
                 end
               else scan rest
           end) props in
      match prop "pieces" data with
      | Some piecesData =>
          match asArr PieceModel.fromJSON piecesData,
                withDefault PieceColor_ofJSON RED (prop "currentTurn" data),
                withDefault GameState_ofJSON INIT (prop "gameState" data),
                withDefault (asNullable PieceColor_ofJSON) None (prop "winner" data),
                withDefault asBool false (prop "isInCheck" data),
                withDefault (asNullable asStr) None (prop "selectedPieceId" data),
                withDefault (asArr Position.ofPlain) [] (prop "validMoves" data),
                hist,
                ifPresent GameMode_ofJSON PVP (prop "gameMode" data),
                ifPresent AIDifficulty_ofJSON MEDIUM (prop "aiDifficulty" data),
                ifPresent PieceColor_ofJSON BLACK (prop "aiPlayerColor" data)
          with
          | Some ps, Some turn, Some state, Some win, Some chk, Some sel,
            Some moves, Some h, Some mode, Some diff, Some aiColor =>
              Some (mk ps turn state win chk sel moves h mode diff aiColor)
          | _, _, _, _, _, _, _, _, _, _, _ => None
          end
      | None => None
      end
  | _ => None
  end.

End GameModel.

(** ** game/Rules.ts *)

Module Rules.

Import PieceModel.

Definition occupied (g : GameModel.t) (x y : Z) : bool :=
  match GameModel.getPieceAt g x y with Some _ => true | None => false end.

(** [targetPiece && targetPiece.color === piece.color] *)
Definition ownPieceAt (piece : t) (targetX targetY : Z) (g : GameModel.t) : bool :=
  match GameModel.getPieceAt g targetX targetY with
  | Some targetPiece => PieceColor_eqb (color targetPiece) (color piece)
  | None => false
  end.

Definition isInPalace (x y : Z) (c : PieceColor) : bool :=
  existsb (Z.eqb x) [3; 4; 5]
  && existsb (Z.eqb y) (match c with RED => [7; 8; 9] | BLACK => [0; 1; 2] end).

Definition isPathClear (piece : t) (targetX targetY : Z) (g : GameModel.t) : bool :=
  let startX := px piece in
  let startY := py piece in
  if startY =? targetY then
    forallb (fun x => negb (occupied g x startY))
            (zrange (Z.min startX targetX + 1) (Z.max startX targetX))
  else if startX =? targetX then
    forallb (fun y => negb (occupied g startX y))
            (zrange (Z.min startY targetY + 1) (Z.max startY targetY))
  else true.

(** The value of [mountCount] when the loops are over. *)
Definition mountCount (piece : t) (targetX targetY : Z) (g : GameModel.t) : nat :=
  let startX := px piece in
  let startY := py piece in
  if startY =? targetY then
    length (filter (fun x => occupied g x startY)
                   (zrange (Z.min startX targetX + 1) (Z.max startX targetX)))
  else if startX =? targetX then
    length (filter (fun y => occupied g startX y)
                   (zrange (Z.min startY targetY + 1) (Z.max startY targetY)))
  else O.

Definition hasExactlyOneCannonMount (piece : t) (targetX targetY : Z)
    (g : GameModel.t) : bool :=
  Nat.eqb (mountCount piece targetX targetY g) 1.

Definition isLiveKingOf (c : PieceColor) (piece : t) : bool :=
  isAlive piece && PieceType_eqb (type piece) KING && PieceColor_eqb (color piece) c.

Definition isKingFaceToFace (g : GameModel.t) : bool :=
  match find (isLiveKingOf RED) (GameModel.pieces g),
        find (isLiveKingOf BLACK) (GameModel.pieces g) with
  | Some redKing, Some blackKing =>
      if negb (px redKing =? px blackKing) then false
      else
        let x := px redKing in
        let minY := Z.min (py redKing) (py blackKing) in
        let maxY := Z.max (py redKing) (py blackKing) in
        forallb (fun y => negb (occupied g x y)) (zrange (minY + 1) maxY)
  | _, _ => false
  end.

(** The step of one, seen as [dx] and [dy]. *)
Definition oneStepOrthogonal (dx dy : Z) : bool :=
  ((dx =? 1) && (dy =? 0)) || ((dx =? 0) && (dy =? 1)).

Definition canMoveWithoutCheck (piece : t) (targetX targetY : Z)
    (g : GameModel.t) : bool :=
  if negb (Position.isValid (Position.mk targetX targetY)) then false
  else if ownPieceAt piece targetX targetY g then false
  else
    let dx := Z.abs (targetX - px piece) in
    let dy := Z.abs (targetY - py piece) in
    match type piece with
    | KING =>
        isInPalace targetX targetY (color piece) && oneStepOrthogonal dx dy
    | ADVISOR =>
        isInPalace targetX targetY (color piece) && (dx =? 1) && (dy =? 1)
    | ELEPHANT =>
        if (PieceColor_eqb (color piece) RED && (targetY <? 5))
           || (PieceColor_eqb (color piece) BLACK && (targetY >? 4))
        then false
        else if (dx =? 2) && (dy =? 2) then
          let eyeX := (px piece + targetX) / 2 in
          let eyeY := (py piece + targetY) / 2 in
          negb (occupied g eyeX eyeY)
        else false
    | HORSE =>
        if ((dx =? 1) && (dy =? 2)) || ((dx =? 2) && (dy =? 1)) then
          if dx =? 1 then
            negb (occupied g (px piece) ((py piece + targetY) / 2))
          else
            negb (occupied g ((px piece + targetX) / 2) (py piece))
        else false
    | CHARIOT =>
        if negb (px piece =? targetX) && negb (py piece =? targetY) then false
        else isPathClear piece targetX targetY g
    | CANNON =>
        if negb (px piece =? targetX) && negb (py piece =? targetY) then false
        else if occupied g targetX targetY
             then hasExactlyOneCannonMount piece targetX targetY g
             else isPathClear piece targetX targetY g
    | SOLDIER =>
        if negb (dx + dy =? 1) then false
        else if PieceColor_eqb (color piece) RED && (py piece >? 4)
                && (targetY >=? py piece) then false
        else if PieceColor_eqb (color piece) BLACK && (py piece <? 5)
                && (targetY <=? py piece) then false
        else if PieceColor_eqb (color piece) RED && (targetY >? py piece) then false
        else if PieceColor_eqb (color piece) BLACK && (targetY <? py piece) then false
        else true
    end.

Definition isInCheck (c : PieceColor) (g : GameModel.t) : bool :=
  match find (isLiveKingOf c) (GameModel.pieces g) with
  | None => false
  | Some king =>
      if isKingFaceToFace g then true
      else
        let opponentColor := opponentOf c in
        let opponentPieces := GameModel.getPiecesByColor g opponentColor in
        existsb (fun piece => canMoveWithoutCheck piece (px king) (py king) g)
                opponentPieces
  end.

(** The move as it is played on a copy of the game: the first piece with
    the mover's id is relocated, after the live occupant of the target
    (if any) has been marked dead.  Both are objects of the copied array,
    found by index and updated in place.  [None] when no piece carries
    the id. *)
Definition simulateMove (pieceId : string) (target : Position.t)
    (g : GameModel.t) : option GameModel.t :=
  let gameCopy := GameModel.clone g in
  let ps := GameModel.pieces gameCopy in
  match findIndex (fun p => String.eqb (id p) pieceId) ps with
  | None => None
  | Some i =>
      let ps1 :=
        match findIndex (GameModel.occupies (Position.x target) (Position.y target)) ps with
        | Some j => updateAt j kill ps
        | None => ps
        end in
      Some (GameModel.withPieces gameCopy
              (updateAt i (fun p => moveTo p target) ps1))
  end.

Definition wouldBeInCheckAfterMove (piece : t) (targetX targetY : Z)
    (g : GameModel.t) : bool :=
  match simulateMove (id piece) (Position.mk targetX targetY) g with
  | None => false
  | Some gameCopy => isInCheck (color piece) gameCopy
  end.

Definition canMoveKing (piece : t) (targetX targetY : Z) (g : GameModel.t) : bool :=
  if negb (isInPalace targetX targetY (color piece)) then false
  else
    let dx := Z.abs (targetX - px piece) in
    let dy := Z.abs (targetY - py piece) in
    if oneStepOrthogonal dx dy
    then negb (wouldBeInCheckAfterMove piece targetX targetY g)
    else false.

Definition canMoveAdvisor (piece : t) (targetX targetY : Z) (g : GameModel.t) : bool :=
  if negb (isInPalace targetX targetY (color piece)) then false
  else
    let dx := Z.abs (targetX - px piece) in
    let dy := Z.abs (targetY - py piece) in
    if (dx =? 1) && (dy =? 1)
    then negb (wouldBeInCheckAfterMove piece targetX targetY g)
    else false.

Definition canMoveElephant (piece : t) (targetX targetY : Z) (g : GameModel.t) : bool :=
  if PieceColor_eqb (color piece) RED && (targetY <? 5) then false
  else if PieceColor_eqb (color piece) BLACK && (targetY >? 4) then false
  else
    let dx := Z.abs (targetX - px piece) in
    let dy := Z.abs (targetY - py piece) in
    if (dx =? 2) && (dy =? 2) then
      let eyeX := (px piece + targetX) / 2 in
      let eyeY := (py piece + targetY) / 2 in
      if negb (occupied g eyeX eyeY)
      then negb (wouldBeInCheckAfterMove piece targetX targetY g)
      else false
    else false.

Definition canMoveHorse (piece : t) (targetX targetY : Z) (g : GameModel.t) : bool :=
  let dx := Z.abs (targetX - px piece) in
  let dy := Z.abs (targetY - py piece) in
  if ((dx =? 1) && (dy =? 2)) || ((dx =? 2) && (dy =? 1)) then
    if dx =? 1 then
      let blockX := px piece in
      let blockY := (py piece + targetY) / 2 in
      if negb (occupied g blockX blockY)
      then negb (wouldBeInCheckAfterMove piece targetX targetY g)
      else false
    else
      let blockX := (px piece + targetX) / 2 in
      let blockY := py piece in
      if negb (occupied g blockX blockY)
      then negb (wouldBeInCheckAfterMove piece targetX targetY g)
      else false
  else false.

Definition canMoveChariot (piece : t) (targetX targetY : Z) (g : GameModel.t) : bool :=
  if negb (px piece =? targetX) && negb (py piece =? targetY) then false
  else if negb (isPathClear piece targetX targetY g) then false
  else negb (wouldBeInCheckAfterMove piece targetX targetY g).

Definition canMoveCannon (piece : t) (targetX targetY : Z) (g : GameModel.t) : bool :=
  if negb (px piece =? targetX) && negb (py piece =? targetY) then false
  else
    match GameModel.getPieceAt g targetX targetY with
    | Some _ => hasExactlyOneCannonMount piece targetX targetY g
    | None => isPathClear piece targetX targetY g
    end.

Definition canMoveSoldier (piece : t) (targetX targetY : Z) (g : GameModel.t) : bool :=
  let dx := Z.abs (targetX - px piece) in
  let dy := Z.abs (targetY - py piece) in
  if negb (dx + dy =? 1) then false
  else
    let blocked :=
      if PieceColor_eqb (color piece) RED && (py piece >? 4)
      then targetY >=? py piece
      else if PieceColor_eqb (color piece) BLACK && (py piece <? 5)
      then targetY <=? py piece
      else (PieceColor_eqb (color piece) RED && (targetY >? py piece))
           || (PieceColor_eqb (color piece) BLACK && (targetY <? py piece)) in
    if blocked then false
    else negb (wouldBeInCheckAfterMove piece targetX targetY g).

Definition canMove (piece : t) (targetX targetY : Z) (g : GameModel.t) : bool :=
  if negb (Position.isValid (Position.mk targetX targetY)) then false
  else if ownPieceAt piece targetX targetY g then false
  else
    match type piece with
    | KING => canMoveKing piece targetX targetY g
    | ADVISOR => canMoveAdvisor piece targetX targetY g
    | ELEPHANT => canMoveElephant piece targetX targetY g
    | HORSE => canMoveHorse piece targetX targetY g
    | CHARIOT => canMoveChariot piece targetX targetY g
    | CANNON => canMoveCannon piece targetX targetY g
    | SOLDIER => canMoveSoldier piece targetX targetY g
    end.

(** The two nested loops, files [0..8] outside and ranks [0..9] inside. *)
Definition getValidMoves (piece : t) (g : GameModel.t) : list Position.t :=
  flat_map
    (fun x =>
       flat_map
         (fun y => if canMove piece x y g then [Position.mk x y] else [])
         (zrange 0 10))
    (zrange 0 9).

Definition checkGameOver (g : GameModel.t) : option PieceColor :=
  let redKingAlive := existsb (isLiveKingOf RED) (GameModel.pieces g) in
  let blackKingAlive := existsb (isLiveKingOf BLACK) (GameModel.pieces g) in
  if negb redKingAlive then Some BLACK
  else if negb blackKingAlive then Some RED
  else if isKingFaceToFace g then
    Some (match GameModel.currentTurn g with RED => RED | BLACK => BLACK end)
  else
    let currentPlayer := GameModel.currentTurn g in
    let currentPieces := GameModel.getCurrentTurnPieces g in
    let hasValidMove :=
      existsb (fun piece => (0 <? Z.of_nat (length (getValidMoves piece g))))
              currentPieces in
    if negb hasValidMove
    then Some (opponentOf currentPlayer)
    else None.

End Rules.

(** ** The environment of the search: [Math.random] and [Date.now]

    A computation that may draw random numbers, read the clock or throw
    is a tree of its requests.  [Math.random()] answers a double in
    [[0, 1)]; the answer is represented by its numerator [k], for the
    value [k / 2^53] with [0 <= k < 2^53]. *)

Inductive Prog (A : Type) : Type :=
| Ret (a : A)
| Throw
| MathRandom (k : Z -> Prog A)
| DateNow (k : Z -> Prog A).

Arguments Ret {A} a.
Arguments Throw {A}.
Arguments MathRandom {A} k.
Arguments DateNow {A} k.

Fixpoint bind {A B : Type} (m : Prog A) (f : A -> Prog B) : Prog B :=
  match m with
  | Ret a => f a
  | Throw => Throw
  | MathRandom k => MathRandom (fun r => bind (k r) f)
  | DateNow k => DateNow (fun now => bind (k now) f)
  end.

Notation "x <- m ;; k" := (bind m (fun x => k))
  (at level 61, m at next level, right associativity).

Definition two53 : Z := 9007199254740992.

(** What a run is given: the successive answers of [Math.random] (taken
    modulo [2^53]) and of [Date.now], and how many of each were used. *)
Record World : Type := mkWorld {
  randomDraws : nat -> Z;
  drawn : nat;
  clockReadings : nat -> Z;
  readings : nat
}.

(** The result is [None] when the computation throws. *)
Fixpoint run {A : Type} (m : Prog A) (w : World) : option A * World :=
  match m with
  | Ret a => (Some a, w)
  | Throw => (None, w)
  | MathRandom k =>
      run (k (randomDraws w (drawn w) mod two53))
          (mkWorld (randomDraws w) (S (drawn w)) (clockReadings w) (readings w))
  | DateNow k =>
      run (k (clockReadings w (readings w)))
          (mkWorld (randomDraws w) (drawn w) (clockReadings w) (S (readings w)))
  end.

(** [Math.floor(Math.random() * n)] for the draw [k / 2^53]: the floor of
    the exact product.  (The product of the doubles is rounded before the
    floor is taken, which for a draw just below a multiple of [1 / n] may
    give the next index; it never gives [n].) *)
Definition randomIndex (k : Z) (n : nat) : nat :=
  Z.to_nat (k * Z.of_nat n / two53).

(** ** Scores: numbers with the two infinities *)

Inductive num : Set := NInf | Fin (z : Z) | PInf | NaN.

Definition num_ltb (a b : num) : bool :=
  match a, b with
  | NaN, _ | _, NaN => false
  | NInf, NInf => false
  | NInf, _ => true
  | _, NInf => false
  | PInf, _ => false
  | Fin _, PInf => true
  | Fin x, Fin y => x <? y
  end.

Definition num_leb (a b : num) : bool :=
  match a, b with
  | NaN, _ | _, NaN => false
  | NInf, _ => true
  | _, PInf => true
  | Fin x, Fin y => x <=? y
  | _, _ => false
  end.

Definition num_max (a b : num) : num :=
  match a, b with
  | NaN, _ | _, NaN => NaN
  | _, _ => if num_ltb a b then b else a
  end.

Definition num_min (a b : num) : num :=
  match a, b with
  | NaN, _ | _, NaN => NaN
  | _, _ => if num_ltb b a then b else a
  end.

Definition num_sub (a b : num) : num :=
  match a, b with
  | NaN, _ | _, NaN => NaN
  | Fin x, Fin y => Fin (x - y)
  | PInf, PInf | NInf, NInf => NaN
  | PInf, _ | _, NInf => PInf
  | NInf, _ | _, PInf => NInf
  end.

Definition num_abs (a : num) : num :=
  match a with
  | Fin x => Fin (Z.abs x)
  | NInf | PInf => PInf
  | NaN => NaN
  end.

(** What [sort] makes of the number its comparator returns: [NaN] counts
    as [+0], otherwise only the sign matters. *)
Definition orderOf (v : num) : Z :=
  match v with
  | Fin x => x
  | NInf => -1
  | PInf => 1
  | NaN => 0
  end.

(** ** [Array.prototype.sort]

    The language leaves the algorithm to the engine and asks only that it
    be stable; it is modelled by straight insertion, each element sinking
    from the right end of the part already sorted while the comparator
    puts its left neighbour after it.  The comparator may draw random
    numbers; its result is kept up to its sign. *)

Section Sort.

Context {A : Type} (comparefn : A -> A -> Prog Z).

(** [placed] is the sorted part, its last element first. *)
Fixpoint sink (element : A) (placed : list A) : Prog (list A) :=
  match placed with
  | [] => Ret [element]
  | tmp :: before =>
      order <- comparefn tmp element ;;
      if order >? 0 then
        (below <- sink element before ;; Ret (tmp :: below))
      else Ret (element :: tmp :: before)
  end.

Fixpoint sortFrom (placed : list A) (pending : list A) : Prog (list A) :=
  match pending with
  | [] => Ret (rev placed)
  | element :: pending' =>
      placed' <- sink element placed ;;
      sortFrom placed' pending'
  end.

Definition sort (l : list A) : Prog (list A) := sortFrom [] l.

End Sort.

(** ** A candidate move: a piece of the game and a target *)

Record Move : Set := mkMove { piece : PieceModel.t; target : Position.t }.

Record ScoredMove : Set := mkScored { move : Move; score : num }.

(** ** game/AIWorker.ts *)

Module AIWorker.

Definition getAllValidMoves (g : GameModel.t) : list Move :=
  let aiPieces :=
    filter (fun p => PieceModel.isAlive p
                     && PieceColor_eqb (PieceModel.color p) (GameModel.currentTurn g))
           (GameModel.pieces g) in
  flat_map (fun p => map (fun m => mkMove p m) (Rules.getValidMoves p g)) aiPieces.

Definition getAllValidMovesForCurrentPlayer (g : GameModel.t) : list Move :=
  let currentPlayerPieces :=
    filter (fun p => PieceModel.isAlive p
                     && PieceColor_eqb (PieceModel.color p) (GameModel.currentTurn g))
           (GameModel.pieces g) in
  flat_map (fun p => map (fun m => mkMove p m) (Rules.getValidMoves p g))
           currentPlayerPieces.

(** [validMoves[randomIndex]], which is [undefined] ([None]) on an empty
    array. *)
Definition chooseRandomMove (validMoves : list Move) : Prog (option Move) :=
  MathRandom (fun r => Ret (nth_error validMoves (randomIndex r (length validMoves)))).

Definition wouldBeCheck (m : Move) (g : GameModel.t) : bool :=
  match Rules.simulateMove (PieceModel.id (piece m)) (target m) g with
  | None => false
  | Some gameCopy =>
      let opponentColor := opponentOf (GameModel.currentTurn gameCopy) in
      Rules.isInCheck opponentColor gameCopy
  end.

Definition captures (m : Move) (g : GameModel.t) : bool :=
  Rules.occupied g (Position.x (target m)) (Position.y (target m)).

Definition chooseMediumMove (validMoves : list Move) (g : GameModel.t)
    : Prog (option Move) :=
  let checkMoves := filter (fun m => wouldBeCheck m g) validMoves in
  if (0 <? Z.of_nat (length checkMoves)) then chooseRandomMove checkMoves
  else
    let captureMoves := filter (fun m => captures m g) validMoves in
    if (0 <? Z.of_nat (length captureMoves)) then chooseRandomMove captureMoves
    else chooseRandomMove validMoves.

(** The comparator of [sortMoves]; [Math.random() - 0.5] is returned
    scaled by [2^54], which keeps its sign. *)
Definition compareMoves (g : GameModel.t) (a b : Move) : Prog Z :=
  let aCaptures := if captures a g then 1 else 0 in
  let bCaptures := if captures b g then 1 else 0 in
  if negb (aCaptures =? bCaptures) then Ret (bCaptures - aCaptures)
  else
    let aChecks := if wouldBeCheck a g then 1 else 0 in
    let bChecks := if wouldBeCheck b g then 1 else 0 in
    if negb (aChecks =? bChecks) then Ret (bChecks - aChecks)
    else MathRandom (fun r => Ret (2 * r - two53)).

Definition sortMoves (moves : list Move) (g : GameModel.t) : Prog (list Move) :=
  sort (compareMoves g) moves.

(** Played in place on the game passed in (a copy made by the caller). *)
Definition executeMove (m : Move) (g : GameModel.t) : GameModel.t :=
  let ps := GameModel.pieces g in
  match findIndex (fun p => String.eqb (PieceModel.id p) (PieceModel.id (piece m))) ps with
  | None => g
  | Some i =>
      let mover := nth i ps (piece m) in
      let ps1 :=
        match findIndex (GameModel.occupies (Position.x (target m))
                                            (Position.y (target m))) ps with
        | Some j =>
            if negb (PieceColor_eqb (PieceModel.color (nth j ps mover))
                                    (PieceModel.color mover))
            then updateAt j PieceModel.kill ps
            else ps
        | None => ps
        end in
      GameModel.withPieces g (updateAt i (fun p => PieceModel.moveTo p (target m)) ps1)
  end.

Definition getPieceValue (p : PieceModel.t) : Z :=
  match PieceModel.type p with
  | KING => 1000
  | ADVISOR => 100
  | ELEPHANT => 150
  | HORSE => 300
  | CHARIOT => 500
  | CANNON => 250
  | SOLDIER => 50
  end.

Definition positionValues (t : PieceType) : list (list Z) :=
  match t with
  | KING =>
      [ [0; 0; 0; 0; 0; 0; 0; 0; 0];
        [0; 0; 0; 0; 0; 0; 0; 0; 0];
        [0; 0; 0; 0; 0; 0; 0; 0; 0];
        [0; 0; 0; 0; 0; 0; 0; 0; 0];
        [0; 0; 0; 0; 0; 0; 0; 0; 0];
        [0; 0; 0; 10; 10; 10; 0; 0; 0];
        [0; 0; 0; 10; 20; 10; 0; 0; 0];
        [0; 0; 0; 10; 10; 10; 0; 0; 0];
        [0; 0; 0; 0; 0; 0; 0; 0; 0] ]
  | ADVISOR =>
      [ [0; 0; 0; 0; 0; 0; 0; 0; 0];
        [0; 0; 0; 0; 0; 0; 0; 0; 0];
        [0; 0; 0; 0; 0; 0; 0; 0; 0];
        [0; 0; 0; 0; 0; 0; 0; 0; 0];
        [0; 0; 0; 0; 0; 0; 0; 0; 0];
        [0; 0; 0; 5; 0; 5; 0; 0; 0];
        [0; 0; 0; 0; 15; 0; 0; 0; 0];
        [0; 0; 0; 5; 0; 5; 0; 0; 0];
        [0; 0; 0; 0; 0; 0; 0; 0; 0] ]
  | ELEPHANT =>
      [ [0; 0; 0; 0; 0; 0; 0; 0; 0];
        [0; 0; 0; 0; 0; 0; 0; 0; 0];
        [0; 0; 0; 0; 0; 0; 0; 0; 0];
        [0; 0; 0; 0; 0; 0; 0; 0; 0];
        [0; 0; 0; 0; 0; 0; 0; 0; 0];
        [0; 0; 10; 0; 0; 0; 10; 0; 0];
        [0; 0; 0; 0; 0; 0; 0; 0; 0];
        [0; 20; 0; 0; 0; 0; 0; 20; 0];
        [0; 0; 0; 0; 30; 0; 0; 0; 0] ]
  | HORSE =>
      [ [0; 5; 10; 15; 20; 15; 10; 5; 0];
        [5; 15; 25; 30; 35; 30; 25; 15; 5];
        [10; 25; 35; 40; 45; 40; 35; 25; 10];
        [15; 30; 40; 45; 50; 45; 40; 30; 15];
        [20; 35; 45; 50; 55; 50; 45; 35; 20];
        [15; 30; 40; 45; 50; 45; 40; 30; 15];
        [10; 25; 35; 40; 45; 40; 35; 25; 10];
        [5; 15; 25; 30; 35; 30; 25; 15; 5];
        [0; 5; 10; 15; 20; 15; 10; 5; 0] ]
  | CHARIOT =>
      [ [5; 5; 5; 5; 5; 5; 5; 5; 5];
        [5; 10; 10; 10; 10; 10; 10; 10; 5];
        [5; 10; 15; 15; 15; 15; 15; 10; 5];
        [5; 10; 15; 20; 20; 20; 15; 10; 5];
        [5; 10; 15; 20; 25; 20; 15; 10; 5];
        [5; 10; 15; 20; 20; 20; 15; 10; 5];
        [5; 10; 15; 15; 15; 15; 15; 10; 5];
        [5; 10; 10; 10; 10; 10; 10; 10; 5];
        [5; 5; 5; 5; 5; 5; 5; 5; 5] ]
  | CANNON =>
      [ [2; 2; 2; 2; 2; 2; 2; 2; 2];
        [2; 5; 5; 5; 5; 5; 5; 5; 2];
        [2; 5; 10; 10; 10; 10; 10; 5; 2];
        [2; 5; 10; 15; 15; 15; 10; 5; 2];
        [2; 5; 10; 15; 20; 15; 10; 5; 2];
        [2; 5; 10; 15; 15; 15; 10; 5; 2];
        [2; 5; 10; 10; 10; 10; 10; 5; 2];
        [2; 5; 5; 5; 5; 5; 5; 5; 2];
        [2; 2; 2; 2; 2; 2; 2; 2; 2] ]
  | SOLDIER =>
      [ [0; 0; 0; 0; 0; 0; 0; 0; 0];
        [10; 10; 10; 10; 10; 10; 10; 10; 10];
        [15; 15; 15; 15; 15; 15; 15; 15; 15];
        [20; 20; 20; 20; 20; 20; 20; 20; 20];
        [30; 30; 30; 30; 30; 30; 30; 30; 30];
        [50; 50; 50; 50; 50; 50; 50; 50; 50];
        [70; 70; 70; 70; 70; 70; 70; 70; 70];
        [100; 100; 100; 100; 100; 100; 100; 100; 100];
        [200; 200; 200; 200; 200; 200; 200; 200; 200] ]
  end.

(** [array[i]], [undefined] ([None]) outside the array. *)
Definition index {A : Type} (l : list A) (i : Z) : option A :=
  if i <? 0 then None else nth_error l (Z.to_nat i).

Definition getPositionValue (p : PieceModel.t) : Z :=
  let y := match PieceModel.color p with
           | RED => PieceModel.py p
           | BLACK => 8 - PieceModel.py p
           end in
  match index (positionValues (PieceModel.type p)) y with
  | Some row =>
      match index row (PieceModel.px p) with
      | Some v => v
      | None => 0
      end
  | None => 0
  end.

Definition attacks (g : GameModel.t) (x y : Z) (attacker : PieceModel.t) : bool :=
  existsb (fun m => (Position.x m =? x) && (Position.y m =? y))
          (Rules.getValidMoves attacker g).

(** The halved difference is a whole number: every piece value is a
    multiple of 50. *)
Definition getSafetyValue (p : PieceModel.t) (g : GameModel.t) : Z :=
  let opponentColor := opponentOf (PieceModel.color p) in
  let opponentPieces := GameModel.getPiecesByColor g opponentColor in
  fold_left
    (fun safetyValue opponentPiece =>
       if attacks g (PieceModel.px p) (PieceModel.py p) opponentPiece then
         let attackerValue := getPieceValue opponentPiece in
         let defenderValue := getPieceValue p in
         if attackerValue <? defenderValue
         then safetyValue - (defenderValue - attackerValue) / 2
         else safetyValue
       else safetyValue)
    opponentPieces 0.

Definition evaluateControlArea (g : GameModel.t) (c : PieceColor) : Z :=
  fold_left
    (fun controlScore p =>
       let moves := Rules.getValidMoves p g in
       fold_left
         (fun acc m =>
            if (Position.x m >=? 3) && (Position.x m <=? 5)
               && (Position.y m >=? 3) && (Position.y m <=? 5)
            then acc + 2 else acc)
         moves (controlScore + Z.of_nat (length moves)))
    (GameModel.getPiecesByColor g c) 0.

Definition evaluateKingSafety (g : GameModel.t) (c : PieceColor) : Z :=
  match find (fun p => PieceType_eqb (PieceModel.type p) KING
                       && PieceColor_eqb (PieceModel.color p) c
                       && PieceModel.isAlive p)
             (GameModel.pieces g) with
  | None => -1000
  | Some king =>
      let safetyScore := if Rules.isInCheck c g then -100 else 0 in
      let opponentPieces := GameModel.getPiecesByColor g (opponentOf c) in
      let kx := PieceModel.px king in
      let ky := PieceModel.py king in
      let kingArea := [(kx - 1, ky); (kx + 1, ky); (kx, ky - 1); (kx, ky + 1)] in
      let attackedSquares :=
        fold_left
          (fun n square =>
             let '(sx, sy) := square in
             if (sx >=? 0) && (sx <=? 8) && (sy >=? 0) && (sy <=? 8) then
               fold_left
                 (fun n' p => if attacks g sx sy p then n' + 1 else n')
                 opponentPieces n
             else n)
          kingArea 0 in
      safetyScore - attackedSquares * 20
  end.

Definition evaluatePosition (g : GameModel.t) (aiColor : PieceColor) : Z :=
  let opponentColor := opponentOf aiColor in
  let aiPieces := GameModel.getPiecesByColor g aiColor in
  let opponentPieces := GameModel.getPiecesByColor g opponentColor in
  let score := 0 in
  let score :=
    fold_left
      (fun s p => s + (getPieceValue p + getPositionValue p) + getSafetyValue p g)
      aiPieces score in
  let score :=
    fold_left
      (fun s p => s - (getPieceValue p + getPositionValue p) - getSafetyValue p g)
      opponentPieces score in
  let score := if Rules.isInCheck opponentColor g then score + 500 else score in
  let score := if Rules.isInCheck aiColor g then score - 500 else score in
  let mobility (ps : list PieceModel.t) :=
    fold_left (fun count p => count + Z.of_nat (length (Rules.getValidMoves p g)))
              ps 0 in
  let aiMobility := mobility aiPieces in
  let opponentMobility := mobility opponentPieces in
  let score := score + (aiMobility - opponentMobility) * 10 in
  let aiControl := evaluateControlArea g aiColor in
  let opponentControl := evaluateControlArea g opponentColor in
  let score := score + (aiControl - opponentControl) * 20 in
  let score := score + evaluateKingSafety g aiColor * 300 in
  let score := score - evaluateKingSafety g opponentColor * 300 in
  score.

(** The position reached by a move: copy, play, pass the turn. *)
Definition child (g : GameModel.t) (m : Move) : GameModel.t :=
  GameModel.switchTurn (executeMove m (GameModel.clone g)).

Fixpoint minimax (g : GameModel.t) (depth : nat) (alpha beta : num)
    (isMaximizingPlayer : bool) (aiColor : PieceColor) : Prog num :=
  let validMoves := getAllValidMovesForCurrentPlayer g in
  match depth with
  | O => Ret (Fin (evaluatePosition g aiColor))
  | S depth' =>
      if Nat.eqb (length validMoves) 0 then Ret (Fin (evaluatePosition g aiColor))
      else if isMaximizingPlayer then
        sortedMoves <- sortMoves validMoves g ;;
        (fix loop (ms : list Move) (alpha : num) (maxScore : num) : Prog num :=
           match ms with
           | [] => Ret maxScore
           | m :: ms' =>
               score <- minimax (child g m) depth' alpha beta false aiColor ;;
               let maxScore := num_max maxScore score in
               let alpha := num_max alpha score in
               if num_leb beta alpha then Ret maxScore
               else loop ms' alpha maxScore
           end) sortedMoves alpha NInf
      else
        sortedMoves <- sortMoves validMoves g ;;
        (fix loop (ms : list Move) (beta : num) (minScore : num) : Prog num :=
           match ms with
           | [] => Ret minScore
           | m :: ms' =>
               score <- minimax (child g m) depth' alpha beta true aiColor ;;
               let minScore := num_min minScore score in
               let beta := num_min beta score in
               if num_leb beta alpha then Ret minScore
               else loop ms' beta minScore
           end) sortedMoves beta PInf
  end.

Definition compareScores (a b : ScoredMove) : Prog Z :=
  Ret (orderOf (num_sub (score b) (score a))).

Definition maxDepth : nat := 6.
Definition timeLimit : Z := 1500.

(** The source's [0.05], as the bound on the numerator of a draw:
    [k / 2^53 < 0.05] exactly when [k < pickBelowSource]. *)
Definition pickBelowSource : Z := 450359962737050.

(** [pickBelow] stands for the probability [pickBelow / 2^53] of the random
    pick, [0.05] in the source. *)
Definition selectMoveWithRandomness (pickBelow : Z) (scoredMoves : list ScoredMove)
    : Prog ScoredMove :=
  scoredMoves <- sort compareScores scoredMoves ;;
  let candidates := firstn (Nat.min 5 (length scoredMoves)) scoredMoves in
  MathRandom (fun r =>
    if (r <? pickBelow) && (1 <? Z.of_nat (length candidates)) then
      MathRandom (fun r' =>
        match nth_error candidates (randomIndex r' (length candidates)) with
        | Some randomMove => Ret randomMove
        | None => Throw
        end)
    else
      match scoredMoves with
      | bestScoredMove :: _ => Ret bestScoredMove
      | [] => Throw
      end).

(** One pass of [scoredMoves.forEach] at a given depth. *)
Fixpoint scoreAll (g : GameModel.t) (aiColor : PieceColor) (startTime : Z)
    (depth : nat) (scoredMoves : list ScoredMove) : Prog (list ScoredMove) :=
  match scoredMoves with
  | [] => Ret []
  | scoredMove :: rest =>
      now <- DateNow Ret ;;
      scoredMove' <-
        (if now - startTime >? timeLimit then Ret scoredMove
         else
           s <- minimax (child g (move scoredMove)) (Nat.pred depth)
                        NInf PInf false aiColor ;;
           Ret (mkScored (move scoredMove) s)) ;;
      rest' <- scoreAll g aiColor startTime depth rest ;;
      Ret (scoredMove' :: rest')
  end.

(** The deepening loop over the depths still to come. *)
Fixpoint deepen (g : GameModel.t) (aiColor : PieceColor) (startTime : Z)
    (depths : list nat) (scoredMoves : list ScoredMove) : Prog (list ScoredMove) :=
  match depths with
  | [] => Ret scoredMoves
  | depth :: depths' =>
      now <- DateNow Ret ;;
      if now - startTime >? timeLimit then Ret scoredMoves
      else
        scoredMoves <- scoreAll g aiColor startTime depth scoredMoves ;;
        scoredMoves <- sort compareScores scoredMoves ;;
        match scoredMoves with
        | [] => Throw
        | best :: _ =>
            if num_ltb (Fin 10000) (num_abs (score best)) then Ret scoredMoves
            else deepen g aiColor startTime depths' scoredMoves
        end
  end.

(** The search up to the final selection. *)
Definition searchScores (g : GameModel.t) (validMoves : list Move)
    (aiColor : PieceColor) : Prog (list ScoredMove) :=
  startTime <- DateNow Ret ;;
  sortedMoves <- sortMoves validMoves g ;;
  let scoredMoves := map (fun m => mkScored m NInf) sortedMoves in
  deepen g aiColor startTime (seq 1 maxDepth) scoredMoves.

Definition iterativeDeepening (pickBelow : Z) (g : GameModel.t)
    (validMoves : list Move) (aiColor : PieceColor) : Prog ScoredMove :=
  scoredMoves <- searchScores g validMoves aiColor ;;
  selectMoveWithRandomness pickBelow scoredMoves.

Definition chooseHardMove (pickBelow : Z) (validMoves : list Move)
    (g : GameModel.t) (aiColor : PieceColor) : Prog Move :=
  best <- iterativeDeepening pickBelow g validMoves aiColor ;;
  Ret (move best).

Definition makeMove (pickBelow : Z) (gameModelData : json) (aiColor : PieceColor)
    (difficulty : AIDifficulty) : Prog (option Move) :=
  match GameModel.fromJSON gameModelData with
  | None => Throw
  | Some gameModel =>
      if negb (PieceColor_eqb (GameModel.currentTurn gameModel) aiColor) then Ret None
      else
        let validMoves := getAllValidMoves gameModel in
        if Nat.eqb (length validMoves) 0 then Ret None
        else
          match difficulty with
          | EASY => chooseRandomMove validMoves
          | MEDIUM => chooseMediumMove validMoves gameModel
          | HARD =>
              bestMove <- chooseHardMove pickBelow validMoves gameModel aiColor ;;
              Ret (Some bestMove)
          end
  end.

End AIWorker.

(** ** game/AI.ts

    The main-thread variant.  [makeMove] also waits for a fixed "thinking
    time" before it answers, which has no bearing on the answer and is
    left out. *)

Module AI.

Definition PIECE_VALUE : Z := 100.
Definition CHECK_VALUE : Z := 200.
Definition MOBILITY_VALUE : Z := 10.

Definition getAllValidMoves (g : GameModel.t) : list Move :=
  let aiPieces :=
    filter (fun p => PieceModel.isAlive p
                     && PieceColor_eqb (PieceModel.color p) (GameModel.aiPlayerColor g))
           (GameModel.pieces g) in
  flat_map (fun p => map (fun m => mkMove p m) (Rules.getValidMoves p g)) aiPieces.

Definition chooseRandomMove (validMoves : list Move) : Prog (option Move) :=
  MathRandom (fun r => Ret (nth_error validMoves (randomIndex r (length validMoves)))).

Definition wouldBeCheck (m : Move) (g : GameModel.t) : bool :=
  match Rules.simulateMove (PieceModel.id (piece m)) (target m) g with
  | None => false
  | Some gameCopy =>
      let opponentColor := opponentOf (GameModel.currentTurn gameCopy) in
      Rules.isInCheck opponentColor gameCopy
  end.

Definition chooseMediumMove (validMoves : list Move) (g : GameModel.t)
    : Prog (option Move) :=
  let checkMoves := filter (fun m => wouldBeCheck m g) validMoves in
  if (0 <? Z.of_nat (length checkMoves)) then chooseRandomMove checkMoves
  else
    let captureMoves :=
      filter (fun m => Rules.occupied g (Position.x (target m)) (Position.y (target m)))
             validMoves in
    if (0 <? Z.of_nat (length captureMoves)) then chooseRandomMove captureMoves
    else chooseRandomMove validMoves.

Definition getPieceValue (p : PieceModel.t) : Z :=
  match PieceModel.type p with
  | KING => 1000
  | ADVISOR => 100
  | ELEPHANT => 150
  | HORSE => 300
  | CHARIOT => 500
  | CANNON => 250
  | SOLDIER => 50
  end.

Definition evaluateMove (m : Move) (g : GameModel.t) : Z :=
  match Rules.simulateMove (PieceModel.id (piece m)) (target m) g with
  | None => 0
  | Some gameCopy =>
      let score := 0 in
      let score :=
        match GameModel.getPieceAt (GameModel.clone g)
                (Position.x (target m)) (Position.y (target m)) with
        | Some targetPieceCopy => score + getPieceValue targetPieceCopy * PIECE_VALUE
        | None => score
        end in
      let opponentColor := opponentOf (GameModel.currentTurn gameCopy) in
      let score :=
        if Rules.isInCheck opponentColor gameCopy then score + CHECK_VALUE else score in
      let aiPieces := GameModel.getPiecesByColor gameCopy (GameModel.aiPlayerColor g) in
      let totalValidMoves :=
        fold_left
          (fun count p => count + Z.of_nat (length (Rules.getValidMoves p gameCopy)))
          aiPieces 0 in
      score + totalValidMoves * MOBILITY_VALUE
  end.

(** [bestMove] starts as [validMoves[0]], [undefined] ([None]) on an empty
    array, and [bestScore] as [-Infinity]. *)
Definition chooseHardMove (validMoves : list Move) (g : GameModel.t) : option Move :=
  fst (fold_left
         (fun best m =>
            let score := Fin (evaluateMove m g) in
            if num_ltb (snd best) score then (Some m, score) else best)
         validMoves (nth_error validMoves 0, NInf)).

Definition makeMove (g : GameModel.t) : Prog (option Move) :=
  if negb (PieceColor_eqb (GameModel.currentTurn g) (GameModel.aiPlayerColor g))
  then Ret None
  else
    let validMoves := getAllValidMoves g in
    if Nat.eqb (length validMoves) 0 then Ret None
    else
      match GameModel.aiDifficulty g with
      | EASY => chooseRandomMove validMoves
      | MEDIUM => chooseMediumMove validMoves g
      | HARD => Ret (chooseHardMove validMoves g)
      end.

End AI.

(** ** canvas/Board.ts: from a screen point to the board *)

Module Board.

Definition screenToBoard (cellSize : Z) (screenX screenY : Q) : Position.t :=
  Position.fromScreen cellSize screenX screenY.

Definition isInBoard (cellSize : Z) (screenX screenY : Q) : bool :=
  Position.isValid (screenToBoard cellSize screenX screenY).

End Board.

(** ** game/Game.ts

    The part of the controller that changes the game: selecting a piece,
    moving it, taking moves back.  Drawing, status texts and the start of
    the machine's turn are left out.  A piece handed to [movePiece] is an
    object of [gameModel.pieces]; it is named here by its index. *)

Module Game.

Definition selectPiece (pieceId : string) (g : GameModel.t) : GameModel.t :=
  let g := GameModel.selectPiece g (Some pieceId) in
  match find (fun p => String.eqb (PieceModel.id p) pieceId) (GameModel.pieces g) with
  | Some selectedPiece =>
      let validMoves := Rules.getValidMoves selectedPiece g in
      GameModel.setValidMoves g
        (map (fun pos => Position.mk (Position.x pos) (Position.y pos)) validMoves)
  | None => g
  end.

Definition saveCurrentStateToHistory (g : GameModel.t) : GameModel.t :=
  GameModel.withHistory g (GameModel.history g ++ [GameModel.clone g]).

(** What [movePiece] does at once: the state is saved and an enemy piece
    on the target is taken. *)
Definition movePieceBegin (i : nat) (targetX targetY : Z) (g : GameModel.t)
    : GameModel.t :=
  let g := saveCurrentStateToHistory g in
  let ps := GameModel.pieces g in
  match nth_error ps i with
  | None => g
  | Some mover =>
      match findIndex (GameModel.occupies targetX targetY) ps with
      | Some j =>
          if negb (PieceColor_eqb (PieceModel.color (nth j ps mover))
                                  (PieceModel.color mover))
          then GameModel.withPieces g (updateAt j PieceModel.kill ps)
          else g
      | None => g
      end
  end.

(** What it does when the animation of the move is over. *)
Definition movePieceEnd (i : nat) (targetX targetY : Z) (g : GameModel.t)
    : GameModel.t :=
  let g := GameModel.withPieces g
             (updateAt i (fun p => PieceModel.moveTo p (Position.mk targetX targetY))
                       (GameModel.pieces g)) in
  let g := GameModel.selectPiece g None in
  let opponentColor := opponentOf (GameModel.currentTurn g) in
  let g := GameModel.setIsInCheck g (Rules.isInCheck opponentColor g) in
  match Rules.checkGameOver g with
  | Some winner => GameModel.setWinner g winner
  | None =>
      let g := GameModel.switchTurn g in
      GameModel.setIsInCheck g (Rules.isInCheck (GameModel.currentTurn g) g)
  end.

Definition movePiece (i : nat) (targetX targetY : Z) (g : GameModel.t) : GameModel.t :=
  movePieceEnd i targetX targetY (movePieceBegin i targetX targetY g).

(** A click on the canvas at a point given relative to the canvas.
    [busy] stands for [animation.isAnimating() || isAIMoving].  When the
    click starts a move, the result is the game once the animation of
    that move is over. *)
Definition handleMouseClick (cellSize : Z) (busy : bool) (screenX screenY : Q)
    (g : GameModel.t) : GameModel.t :=
  match GameModel.gameState g with
  | PLAYING =>
      if busy then g
      else if (match GameModel.gameMode g with PVE => true | PVP => false end)
              && PieceColor_eqb (GameModel.currentTurn g) (GameModel.aiPlayerColor g)
      then g
      else
        let boardPos := Board.screenToBoard cellSize screenX screenY in
        let clickedPiece :=
          GameModel.getPieceAt g (Position.x boardPos) (Position.y boardPos) in
        let selectClicked :=
          match clickedPiece with
          | Some clicked =>
              if PieceColor_eqb (PieceModel.color clicked) (GameModel.currentTurn g)
              then selectPiece (PieceModel.id clicked) g
              else g
          | None => g
          end in
        match GameModel.selectedPieceId g with
        | Some selectedPieceId =>
            if String.eqb selectedPieceId EmptyString then selectClicked
            else
              match findIndex (fun p => String.eqb (PieceModel.id p) selectedPieceId)
                              (GameModel.pieces g) with
              | Some i =>
                  if GameModel.isValidMove g (Position.x boardPos) (Position.y boardPos)
                  then movePiece i (Position.x boardPos) (Position.y boardPos) g
                  else
                    match clickedPiece with
                    | Some clicked =>
                        if PieceColor_eqb (PieceModel.color clicked)
                                          (GameModel.currentTurn g)
                        then selectPiece (PieceModel.id clicked) g
                        else GameModel.selectPiece g None
                    | None => GameModel.selectPiece g None
                    end
              | None => g
              end
        | None => selectClicked
        end
  | _ => g
  end.

(** [false] and the game as it was when there is nothing to take back. *)
Definition undo (g : GameModel.t) : bool * GameModel.t :=
  if Nat.eqb (length (GameModel.history g)) 0 then (false, g)
  else
    let undoCount := match GameModel.gameMode g with PVE => 2%nat | PVP => 1%nat end in
    let undoCount := Nat.min undoCount (length (GameModel.history g)) in
    let at_ := (length (GameModel.history g) - undoCount)%nat in
    match nth_error (GameModel.history g) at_ with
    | None => (false, g)
    | Some targetState =>
        (true,
         GameModel.mk (map PieceModel.clone (GameModel.pieces targetState))
                      (GameModel.currentTurn targetState)
                      (GameModel.gameState targetState)
                      (GameModel.winner targetState)
                      (GameModel.isInCheck targetState)
                      (GameModel.selectedPieceId targetState)
                      (GameModel.validMoves targetState)
                      (firstn at_ (GameModel.history g))
                      (GameModel.gameMode g)
                      (GameModel.aiDifficulty g)
                      (GameModel.aiPlayerColor g))
    end.

End Game.

(** ** game/SaveLoad.ts: the key under which a game is stored *)

Module SaveLoad.

Definition BASE_STORAGE_KEY : string := "chinese-chess-save".

Definition getStorageKey (g : GameModel.t) : string :=
  match GameModel.gameMode g with
  | PVE =>
      (BASE_STORAGE_KEY ++ "-" ++ GameMode_toString (GameModel.gameMode g)
       ++ "-" ++ AIDifficulty_toString (GameModel.aiDifficulty g)
       ++ "-" ++ PieceColor_toString (GameModel.aiPlayerColor g))%string
  | PVP => (BASE_STORAGE_KEY ++ "-" ++ GameMode_toString (GameModel.gameMode g))%string
  end.

(** The key of the date that [saveWithDate] stores beside the game. *)
Definition dateKey (g : GameModel.t) : string := (getStorageKey g ++ "-date")%string.

End SaveLoad.

(** * Vocabulary of the properties *)

(** The squares of the board in the order of the scan: file by file, and
    rank by rank within a file. *)
Definition boardSquares : list Position.t :=
  flat_map (fun x => map (Position.mk x) (zrange 0 10)) (zrange 0 9).

Definition fileMajor (a b : Position.t) : Prop :=
  Position.x a < Position.x b
  \/ (Position.x a = Position.x b /\ Position.y a < Position.y b).

(** A live general of side [c]. *)
Definition liveGeneral (c : PieceColor) (p : PieceModel.t) : Prop :=
  PieceModel.isAlive p = true /\ PieceModel.type p = KING /\ PieceModel.color p = c.

(** [k] is the general of side [c]: alive, in the game, and the only one
    (each side has at most one general). *)
Definition generalOf (g : GameModel.t) (c : PieceColor) (k : PieceModel.t) : Prop :=
  In k (GameModel.pieces g) /\ liveGeneral c k
  /\ forall k', In k' (GameModel.pieces g) -> liveGeneral c k' -> k' = k.

Definition hasGeneral (g : GameModel.t) (c : PieceColor) : Prop :=
  exists k, In k (GameModel.pieces g) /\ liveGeneral c k.

Definition noGeneral (g : GameModel.t) (c : PieceColor) : Prop :=
  forall p, In p (GameModel.pieces g) -> ~ liveGeneral c p.

(** Both generals are alive, on one file, and no live piece stands
    strictly between them. *)
Definition generalsFacing (g : GameModel.t) : Prop :=
  exists redKing blackKing,
    generalOf g RED redKing /\ generalOf g BLACK blackKing
    /\ PieceModel.px redKing = PieceModel.px blackKing
    /\ forall p, In p (GameModel.pieces g) -> PieceModel.isAlive p = true ->
         PieceModel.px p = PieceModel.px redKing ->
         ~ (Z.min (PieceModel.py redKing) (PieceModel.py blackKing) < PieceModel.py p
            < Z.max (PieceModel.py redKing) (PieceModel.py blackKing)).

(** [q] lies strictly between [a] and [b] on the rank or file they share. *)
Definition strictlyBetween (a b q : Position.t) : bool :=
  if Position.y a =? Position.y b then
    (Position.y q =? Position.y a)
    && (Z.min (Position.x a) (Position.x b) <? Position.x q)
    && (Position.x q <? Z.max (Position.x a) (Position.x b))
  else if Position.x a =? Position.x b then
    (Position.x q =? Position.x a)
    && (Z.min (Position.y a) (Position.y b) <? Position.y q)
    && (Position.y q <? Z.max (Position.y a) (Position.y b))
  else false.

(** The live pieces strictly between two squares. *)
Definition livePiecesBetween (g : GameModel.t) (a b : Position.t)
    : list PieceModel.t :=
  filter (fun q => PieceModel.isAlive q && strictlyBetween a b (PieceModel.position q))
         (GameModel.pieces g).

Definition Position_eq_dec (a b : Position.t) : {a = b} + {a <> b}.
Proof. decide equality; apply Z.eq_dec. Defined.

(** The squares strictly between two squares that hold a live piece, each
    listed once. *)
Definition occupiedSquaresBetween (g : GameModel.t) (a b : Position.t)
    : list Position.t :=
  nodup Position_eq_dec (map PieceModel.position (livePiecesBetween g a b)).

(** No two live pieces stand on the same square. *)
Definition noOverlap (g : GameModel.t) : Prop :=
  NoDup (map PieceModel.position (filter PieceModel.isAlive (GameModel.pieces g))).

(** A structurally valid board: ids are unique, live pieces stand on the
    board and on distinct squares, and each side has at most one general. *)
Definition wellFormed (g : GameModel.t) : Prop :=
  NoDup (map PieceModel.id (GameModel.pieces g))
  /\ noOverlap g
  /\ Forall (fun p => PieceModel.isAlive p = true ->
                      Position.isValid (PieceModel.position p) = true)
            (GameModel.pieces g)
  /\ forall c k k',
       In k (GameModel.pieces g) -> In k' (GameModel.pieces g) ->
       liveGeneral c k -> liveGeneral c k' -> k = k'.

(** The side to move has a legal move. *)
Definition hasLegalMove (g : GameModel.t) : Prop :=
  exists (p : PieceModel.t) (x y : Z),
    In p (GameModel.pieces g) /\ PieceModel.isAlive p = true
    /\ PieceModel.color p = GameModel.currentTurn g
    /\ Rules.canMove p x y g = true.

(** A legal move of the side to move. *)
Definition legalMove (g : GameModel.t) (m : Move) : Prop :=
  In (piece m) (GameModel.pieces g) /\ PieceModel.isAlive (piece m) = true
  /\ PieceModel.color (piece m) = GameModel.currentTurn g
  /\ Rules.canMove (piece m) (Position.x (target m)) (Position.y (target m)) g = true.

(** The computation [m] never throws, and what it returns satisfies [P],
    whatever the clock reads and whatever is drawn. *)
Inductive Returns {A : Type} (P : A -> Prop) : Prog A -> Prop :=
| Returns_Ret (a : A) : P a -> Returns P (Ret a)
| Returns_MathRandom (k : Z -> Prog A) :
    (forall r, 0 <= r < two53 -> Returns P (k r)) -> Returns P (MathRandom k)
| Returns_DateNow (k : Z -> Prog A) :
    (forall now, Returns P (k now)) -> Returns P (DateNow k).



(** No live piece stands on the square. *)
Definition emptySquare (g : GameModel.t) (x y : Z) : Prop :=
  forall q, In q (GameModel.pieces g) -> PieceModel.isAlive q = true ->
            ~ (PieceModel.px q = x /\ PieceModel.py q = y).

(** A square a piece may land on as far as the two guards common to all
    movement rules go: on the board, and not held by a piece of its own
    side. *)
Definition admissibleTarget (g : GameModel.t) (p : PieceModel.t) (x y : Z) : Prop :=
  (0 <= x <= 8 /\ 0 <= y <= 9)
  /\ forall q, GameModel.getPieceAt g x y = Some q ->
               PieceModel.color q <> PieceModel.color p.

(** The palace of a side. *)
Definition inPalace (c : PieceColor) (x y : Z) : Prop :=
  3 <= x <= 5 /\ match c with RED => 7 <= y <= 9 | BLACK => 0 <= y <= 2 end.

(** A datum without the properties named. *)
Definition withoutProps (keys : list string) (data : json) : json :=
  match data with
  | JObj props =>
      JObj (filter (fun kv => negb (existsb (String.eqb (fst kv)) keys)) props)
  | _ => data
  end.

(** The selection is in order: the piece selected, if any, is a live piece
    of the side to move, and the squares marked are its legal moves; with
    no piece selected no square is marked. *)
Definition selectionInOrder (g : GameModel.t) : Prop :=
  match GameModel.selectedPieceId g with
  | Some selectedPieceId =>
      exists p,
        find (fun q => String.eqb (PieceModel.id q) selectedPieceId) (GameModel.pieces g)
        = Some p
        /\ PieceModel.isAlive p = true
        /\ PieceModel.color p = GameModel.currentTurn g
        /\ GameModel.validMoves g = Rules.getValidMoves p g
  | None => GameModel.validMoves g = []
  end.

(** Each side has at most one live general. *)
Definition oneGeneralPerSide (g : GameModel.t) : Prop :=
  forall c k k',
    In k (GameModel.pieces g) -> In k' (GameModel.pieces g) ->
    liveGeneral c k -> liveGeneral c k' -> k = k'.

(** The best of a first value and the values after it, for the side that
    maximizes or for the side that minimizes. *)
Definition bestOf (isMaximizingPlayer : bool) (v : Z) (vs : list Z) : Z :=
  fold_left (if isMaximizingPlayer then Z.max else Z.min) vs v.

(** The value of a position by plain minimax to a given depth: the static
    evaluation at depth [0] or without a legal move, otherwise the best
    of the values of the positions one move away, all of them examined,
    in the order of [getAllValidMovesForCurrentPlayer]. *)
Fixpoint minimaxValue (g : GameModel.t) (depth : nat) (isMaximizingPlayer : bool)
    (aiColor : PieceColor) : Z :=
  match depth with
  | O => AIWorker.evaluatePosition g aiColor
  | S depth' =>
      match map (fun m => minimaxValue (AIWorker.child g m) depth'
                            (negb isMaximizingPlayer) aiColor)
                (AIWorker.getAllValidMovesForCurrentPlayer g) with
      | [] => AIWorker.evaluatePosition g aiColor
      | v :: vs => bestOf isMaximizingPlayer v vs
      end
  end.

(** What a search with the window [(alpha, beta)] may answer for a
    position of value [v]: the value itself when the answer falls inside
    the window, an upper bound of it when the answer is at most [alpha],
    a lower bound when it is at least [beta]. *)
Definition soundFor (alpha beta : num) (v x : Z) : Prop :=
  (num_leb (Fin x) alpha = true -> v <= x)
  /\ (num_leb beta (Fin x) = true -> x <= v)
  /\ (num_ltb alpha (Fin x) = true -> num_ltb (Fin x) beta = true -> x = v).

(** How many entries of a list score strictly more than a given one. *)
Definition betterCount (s : ScoredMove) (l : list ScoredMove) : nat :=
  length (filter (fun s' => num_ltb (score s) (score s')) l).

(** Ordered by score. *)
Definition scoreAtMost (a b : ScoredMove) : Prop := num_leb (score a) (score b) = true.

(** A score the deepening search may hold for a move: [-Infinity], or the
    plain minimax value, to some depth below [maxDepth], of the position
    the move leads to, with the opponent to move. *)
Definition searchScore (g : GameModel.t) (aiColor : PieceColor) (s : ScoredMove)
    : Prop :=
  score s = NInf
  \/ exists depth,
       (depth < AIWorker.maxDepth)%nat
       /\ score s = Fin (minimaxValue (AIWorker.child g (move s)) depth false aiColor).

(** * Games and worlds of the examples *)

(** A live piece, and a game in play with the given pieces and side to
    move. *)
Definition livePiece (t : PieceType) (c : PieceColor) (x y : Z) (i : string)
    : PieceModel.t :=
  PieceModel.mk t c (Position.mk x y) true i.

Definition gameWith (ps : list PieceModel.t) (turn : PieceColor)
    (difficulty : AIDifficulty) (aiColor : PieceColor) : GameModel.t :=
  GameModel.mk ps turn PLAYING None false None [] [] PVE difficulty aiColor.

Definition gameOf (ps : list PieceModel.t) (turn : PieceColor) : GameModel.t :=
  gameWith ps turn HARD turn.

(** The starting layout of [INITIAL_POSITIONS], red first, as
    [Game.initializePieces] builds it; the ids, random in the source, are
    fixed here. *)
Definition startingLayout : GameModel.t :=
  gameOf
    [livePiece KING RED 4 9 "r0";
     livePiece ADVISOR RED 3 9 "r1"; livePiece ADVISOR RED 5 9 "r2";
     livePiece ELEPHANT RED 2 9 "r3"; livePiece ELEPHANT RED 6 9 "r4";
     livePiece HORSE RED 1 9 "r5"; livePiece HORSE RED 7 9 "r6";
     livePiece CHARIOT RED 0 9 "r7"; livePiece CHARIOT RED 8 9 "r8";
     livePiece CANNON RED 1 7 "r9"; livePiece CANNON RED 7 7 "r10";
     livePiece SOLDIER RED 0 6 "r11"; livePiece SOLDIER RED 2 6 "r12";
     livePiece SOLDIER RED 4 6 "r13"; livePiece SOLDIER RED 6 6 "r14";
     livePiece SOLDIER RED 8 6 "r15";
     livePiece KING BLACK 4 0 "b0";
     livePiece ADVISOR BLACK 3 0 "b1"; livePiece ADVISOR BLACK 5 0 "b2";
     livePiece ELEPHANT BLACK 2 0 "b3"; livePiece ELEPHANT BLACK 6 0 "b4";
     livePiece HORSE BLACK 1 0 "b5"; livePiece HORSE BLACK 7 0 "b6";
     livePiece CHARIOT BLACK 0 0 "b7"; livePiece CHARIOT BLACK 8 0 "b8";
     livePiece CANNON BLACK 1 2 "b9"; livePiece CANNON BLACK 7 2 "b10";
     livePiece SOLDIER BLACK 0 3 "b11"; livePiece SOLDIER BLACK 2 3 "b12";
     livePiece SOLDIER BLACK 4 3 "b13"; livePiece SOLDIER BLACK 6 3 "b14";
     livePiece SOLDIER BLACK 8 3 "b15"]
    RED.

(** The two generals alone, face to face on the middle file. *)
Definition bareGenerals (turn : PieceColor) : GameModel.t :=
  gameOf [livePiece KING RED 4 9 "rk"; livePiece KING BLACK 4 0 "bk"] turn.

(** Black has lost its general. *)
Definition blackGeneralTaken : GameModel.t :=
  gameOf [livePiece KING RED 4 9 "rk";
          PieceModel.mk KING BLACK (Position.mk 4 0) false "bk";
          livePiece CHARIOT RED 4 0 "rc"] BLACK.

(** A red cannon shields its general from a black chariot. *)
Definition shieldingCannon : GameModel.t :=
  gameOf [livePiece KING RED 4 9 "rk"; livePiece KING BLACK 3 0 "bk";
          livePiece CHARIOT BLACK 4 0 "bc"; livePiece CANNON RED 4 5 "rp"] RED.

(** A red cannon on the middle file facing a black chariot, with the
    given pieces in between. *)
Definition cannonFile (between : list PieceModel.t) : GameModel.t :=
  gameOf (livePiece CANNON RED 4 7 "rp" :: livePiece CHARIOT BLACK 4 1 "bc"
          :: livePiece KING RED 3 9 "rk" :: livePiece KING BLACK 5 0 "bk"
          :: between) RED.

(** Red to move, the machine playing black. *)
Definition redToMoveAgainstBlackAI (difficulty : AIDifficulty) : GameModel.t :=
  gameWith [livePiece KING RED 4 9 "rk"; livePiece KING BLACK 3 0 "bk";
            livePiece SOLDIER RED 0 6 "rs"] RED difficulty BLACK.

(** Two red chariots beside the black general, either of which can take
    it; the red soldier keeps the generals from facing each other. *)
Definition chariotsAtTheGeneral : GameModel.t :=
  gameOf [livePiece KING RED 4 9 "rk"; livePiece KING BLACK 4 0 "bk";
          livePiece CHARIOT RED 3 0 "rc1"; livePiece CHARIOT RED 5 0 "rc2";
          livePiece SOLDIER RED 4 4 "rs"] RED.

(** A clock that stands still, with every draw the least, or the
    greatest, that [Math.random] can give. *)
Definition lowDraws : World := mkWorld (fun _ => 0) 0 (fun _ => 0) 0.
Definition highDraws : World := mkWorld (fun _ => two53 - 1) 0 (fun _ => 0) 0.


(** Black to move: its general, alone, is not attacked, and both squares
    it could step to are covered by a red chariot. *)
Definition blackStalemated : GameModel.t :=
  gameOf [livePiece KING RED 5 9 "rk"; livePiece KING BLACK 3 0 "bk";
          livePiece CHARIOT RED 4 5 "rc1"; livePiece CHARIOT RED 0 1 "rc2"] BLACK.

(** * Properties *)

(** ** The rules on the starting layout *)

Example starting_layout_no_check :
  Rules.isInCheck RED startingLayout = false
  /\ Rules.isInCheck BLACK startingLayout = false
  /\ Rules.checkGameOver startingLayout = None.
Proof. repeat split; vm_compute; reflexivity. Qed.

Example starting_layout_soldier_advances_only :
  Rules.canMove (livePiece SOLDIER RED 0 6 "r11") 0 5 startingLayout = true
  /\ Rules.canMove (livePiece SOLDIER RED 0 6 "r11") 0 7 startingLayout = false
  /\ Rules.canMove (livePiece SOLDIER RED 0 6 "r11") 1 6 startingLayout = false.
Proof. repeat split; vm_compute; reflexivity. Qed.

Example starting_layout_moves :
  Rules.getValidMoves (livePiece HORSE RED 1 9 "r5") startingLayout
  = [Position.mk 0 7; Position.mk 2 7]
  /\ Rules.getValidMoves (livePiece ELEPHANT RED 2 9 "r3") startingLayout
     = [Position.mk 0 7; Position.mk 4 7]
  /\ length (AIWorker.getAllValidMoves startingLayout) = 44%nat.
Proof. repeat split; vm_compute; reflexivity. Qed.

(** ** Generic facts about the list and loop helpers *)

Lemma zrange_In (lo hi z : Z) : In z (zrange lo hi) <-> lo <= z < hi.
Proof.
  unfold zrange. rewrite in_map_iff. split.
  - intros [i [<- Hi]]. apply in_seq in Hi. lia.
  - intros Hz. exists (Z.to_nat (z - lo)). split; [lia|].
    apply in_seq. lia.
Qed.

Lemma zrange_NoDup (lo hi : Z) : NoDup (zrange lo hi).
Proof.
  unfold zrange. apply Injective_map_NoDup.
  - intros a b Hab. lia.
  - apply seq_NoDup.
Qed.

Lemma zrange_sorted (lo hi : Z) : StronglySorted Z.lt (zrange lo hi).
Proof.
  unfold zrange. generalize (Z.to_nat (hi - lo)) as n. intros n.
  generalize 0%nat as s. induction n as [|n IH]; intros s; simpl.
  - constructor.
  - constructor; [apply IH|].
    apply Forall_forall. intros z Hz. apply in_map_iff in Hz.
    destruct Hz as [i [<- Hi]]. apply in_seq in Hi. lia.
Qed.

Lemma PieceColor_eqb_eq (a b : PieceColor) : PieceColor_eqb a b = true <-> a = b.
Proof. destruct a, b; simpl; split; congruence. Qed.

Lemma PieceType_eqb_eq (a b : PieceType) : PieceType_eqb a b = true <-> a = b.
Proof. destruct a, b; simpl; split; congruence. Qed.

Lemma PieceColor_eqb_refl (a : PieceColor) : PieceColor_eqb a a = true.
Proof. now destruct a. Qed.

Lemma find_none_iff {A : Type} (f : A -> bool) (l : list A) :
  find f l = None <-> forall a, In a l -> f a = false.
Proof.
  split; [apply find_none|].
  induction l as [|a l IH]; simpl; intros H; [reflexivity|].
  rewrite (H a (or_introl eq_refl)). apply IH. intros b Hb. apply H. now right.
Qed.

Lemma existsb_false_iff {A : Type} (f : A -> bool) (l : list A) :
  existsb f l = false <-> forall a, In a l -> f a = false.
Proof.
  rewrite <- Bool.not_true_iff_false, existsb_exists. split.
  - intros H a Ha. destruct (f a) eqn:E; [|reflexivity].
    exfalso. apply H. now exists a.
  - intros H [a [Ha Hf]]. rewrite (H a Ha) in Hf. discriminate.
Qed.

Lemma clone_piece (p : PieceModel.t) : PieceModel.clone p = p.
Proof. destruct p as [ty co [px py] al i]. reflexivity. Qed.

Lemma clone_pieces (ps : list PieceModel.t) : map PieceModel.clone ps = ps.
Proof.
  induction ps as [|p ps IH]; simpl; [reflexivity|].
  now rewrite clone_piece, IH.
Qed.

(** ** Move generation *)

Lemma canMove_on_board (p : PieceModel.t) (x y : Z) (g : GameModel.t) :
  Rules.canMove p x y g = true -> 0 <= x <= 8 /\ 0 <= y <= 9.
Proof.
  unfold Rules.canMove, Position.isValid, BOARD_WIDTH, BOARD_HEIGHT. simpl.
  destruct (x >=? 0) eqn:E1, (x <=? 8) eqn:E2, (y >=? 0) eqn:E3, (y <=? 9) eqn:E4;
    simpl; try discriminate.
  intros _. lia.
Qed.

Lemma getValidMoves_filter (p : PieceModel.t) (g : GameModel.t) :
  Rules.getValidMoves p g
  = filter (fun s => Rules.canMove p (Position.x s) (Position.y s) g) boardSquares.
Proof.
  unfold Rules.getValidMoves, boardSquares.
  generalize (zrange 0 10) as ranks. generalize (zrange 0 9) as files.
  intros files ranks.
  induction files as [|x xs IHx]; simpl; [reflexivity|].
  rewrite filter_app, IHx. f_equal. clear IHx.
  induction ranks as [|y ys IHy]; simpl; [reflexivity|].
  rewrite IHy. now destruct (Rules.canMove p x y g).
Qed.

Lemma file_then_rest_sorted (x : Z) (ys : list Z) (rest : list Position.t) :
  StronglySorted Z.lt ys ->
  StronglySorted fileMajor rest ->
  Forall (fun s => x < Position.x s) rest ->
  StronglySorted fileMajor (map (Position.mk x) ys ++ rest).
Proof.
  intros Hys Hrest Hlater.
  induction Hys as [|y ys Hys IHy Hally]; simpl; [exact Hrest|].
  constructor; [exact IHy|].
  apply Forall_app. split.
  - apply Forall_forall. intros s Hs. apply in_map_iff in Hs.
    destruct Hs as [y' [<- Hy']]. right. simpl. split; [reflexivity|].
    rewrite Forall_forall in Hally. now apply Hally.
  - apply Forall_forall. intros s Hs. left. simpl.
    rewrite Forall_forall in Hlater. now apply Hlater.
Qed.

Lemma boardSquares_sorted : StronglySorted fileMajor boardSquares.
Proof.
  unfold boardSquares.
  pose proof (zrange_sorted 0 9) as Hx.
  pose proof (zrange_sorted 0 10) as Hy.
  revert Hx Hy.
  generalize (zrange 0 10) as ranks. generalize (zrange 0 9) as files.
  intros files ranks Hx Hy.
  induction Hx as [|x xs Hxs IH Hall]; simpl; [constructor|].
  apply file_then_rest_sorted; [exact Hy|exact IH|].
  apply Forall_forall. intros s Hs. apply in_flat_map in Hs.
  destruct Hs as [x' [Hx' Hs]]. apply in_map_iff in Hs.
  destruct Hs as [y' [<- _]]. simpl.
  rewrite Forall_forall in Hall. now apply Hall.
Qed.

Lemma boardSquares_In (s : Position.t) :
  In s boardSquares <-> 0 <= Position.x s <= 8 /\ 0 <= Position.y s <= 9.
Proof.
  unfold boardSquares. rewrite in_flat_map. split.
  - intros [x [Hx Hs]]. apply in_map_iff in Hs. destruct Hs as [y [<- Hy]].
    apply zrange_In in Hx, Hy. simpl. lia.
  - intros [Hx Hy]. exists (Position.x s). split; [apply zrange_In; lia|].
    apply in_map_iff. exists (Position.y s). split; [now destruct s|].
    apply zrange_In. lia.
Qed.

Lemma StronglySorted_filter {A : Type} (R : A -> A -> Prop) (f : A -> bool)
    (l : list A) :
  StronglySorted R l -> StronglySorted R (filter f l).
Proof.
  induction 1 as [|a l Hl IH Hall]; simpl; [constructor|].
  destruct (f a); [|exact IH].
  constructor; [exact IH|].
  rewrite Forall_forall in *. intros b Hb. apply filter_In in Hb. now apply Hall.
Qed.

Lemma getValidMoves_In (p : PieceModel.t) (g : GameModel.t)
    (x y : Z) :
  In (Position.mk x y) (Rules.getValidMoves p g) <-> Rules.canMove p x y g = true.
Proof.
  rewrite getValidMoves_filter, filter_In.
  cbn [Position.x Position.y]. split.
  - now intros [_ H].
  - intros H. split; [|exact H].
    apply canMove_on_board in H. now apply boardSquares_In.
Qed.

(** C2.  [getValidMoves piece state] holds the position [(x, y)] exactly
    when [canMove piece x y state] is true: for every pair of integers,
    hence for each of the 9 x 10 squares, and every position it holds is
    one of these squares.  The list is in file-major scan order: strictly
    increasing by file, then by rank, which together with its content
    fixes the list. *)
Theorem getValidMoves_complete_and_ordered (p : PieceModel.t) (g : GameModel.t) :
  (forall x y : Z,
      In (Position.mk x y) (Rules.getValidMoves p g)
      <-> Rules.canMove p x y g = true)
  /\ Forall (fun s => 0 <= Position.x s <= 8 /\ 0 <= Position.y s <= 9)
            (Rules.getValidMoves p g)
  /\ StronglySorted fileMajor (Rules.getValidMoves p g).
Proof.
  split; [|split].
  - apply getValidMoves_In.
  - apply Forall_forall. intros s Hs.
    rewrite getValidMoves_filter in Hs. apply filter_In in Hs.
    destruct Hs as [_ Hs]. now apply canMove_on_board in Hs.
  - rewrite getValidMoves_filter. apply StronglySorted_filter, boardSquares_sorted.
Qed.

(** ** Generals: missing, and face to face *)

Lemma isLiveKingOf_spec (c : PieceColor) (p : PieceModel.t) :
  Rules.isLiveKingOf c p = true <-> liveGeneral c p.
Proof.
  unfold Rules.isLiveKingOf, liveGeneral.
  rewrite !andb_true_iff, PieceType_eqb_eq, PieceColor_eqb_eq. tauto.
Qed.

Lemma find_generalOf (g : GameModel.t) (c : PieceColor) (k : PieceModel.t) :
  generalOf g c k -> find (Rules.isLiveKingOf c) (GameModel.pieces g) = Some k.
Proof.
  intros [Hin [Hlive Huniq]].
  destruct (find (Rules.isLiveKingOf c) (GameModel.pieces g)) as [k'|] eqn:E.
  - apply find_some in E. destruct E as [Hin' Hk'].
    f_equal. apply Huniq; [exact Hin'|]. now apply isLiveKingOf_spec.
  - exfalso. apply (find_none _ _ E) in Hin.
    apply isLiveKingOf_spec in Hlive. congruence.
Qed.

Lemma find_noGeneral (g : GameModel.t) (c : PieceColor) :
  noGeneral g c -> find (Rules.isLiveKingOf c) (GameModel.pieces g) = None.
Proof.
  intros H. apply find_none_iff. intros p Hp.
  destruct (Rules.isLiveKingOf c p) eqn:E; [|reflexivity].
  exfalso. apply (H p Hp). now apply isLiveKingOf_spec.
Qed.

Lemma existsb_noGeneral (g : GameModel.t) (c : PieceColor) :
  noGeneral g c -> existsb (Rules.isLiveKingOf c) (GameModel.pieces g) = false.
Proof.
  intros H. apply existsb_false_iff. intros p Hp.
  destruct (Rules.isLiveKingOf c p) eqn:E; [|reflexivity].
  exfalso. apply (H p Hp). now apply isLiveKingOf_spec.
Qed.

Lemma existsb_hasGeneral (g : GameModel.t) (c : PieceColor) :
  hasGeneral g c -> existsb (Rules.isLiveKingOf c) (GameModel.pieces g) = true.
Proof.
  intros [k [Hin Hk]]. apply existsb_exists. exists k. split; [exact Hin|].
  now apply isLiveKingOf_spec.
Qed.

Lemma generalOf_hasGeneral (g : GameModel.t) (c : PieceColor) (k : PieceModel.t) :
  generalOf g c k -> hasGeneral g c.
Proof. intros [Hin [Hk _]]. now exists k. Qed.

Lemma occupied_false_iff (g : GameModel.t) (x y : Z) :
  Rules.occupied g x y = false
  <-> forall p, In p (GameModel.pieces g) -> PieceModel.isAlive p = true ->
        ~ (PieceModel.px p = x /\ PieceModel.py p = y).
Proof.
  unfold Rules.occupied, GameModel.getPieceAt. split.
  - destruct (find _ _) eqn:E; [discriminate|]. intros _ p Hp Halive [Hx Hy].
    apply (find_none _ _ E) in Hp. unfold GameModel.occupies in Hp.
    rewrite Halive, Hx, Hy, !Z.eqb_refl in Hp. discriminate.
  - intros H. destruct (find _ _) as [p|] eqn:E; [|reflexivity].
    apply find_some in E. destruct E as [Hp Hocc].
    unfold GameModel.occupies in Hocc. rewrite !andb_true_iff in Hocc.
    destruct Hocc as [[Halive Hx] Hy]. exfalso.
    apply (H p Hp Halive). lia.
Qed.

Lemma facing_isKingFaceToFace (g : GameModel.t) :
  generalsFacing g -> Rules.isKingFaceToFace g = true.
Proof.
  intros [rk [bk [Hr [Hb [Hfile Hopen]]]]].
  unfold Rules.isKingFaceToFace.
  rewrite (find_generalOf _ _ _ Hr), (find_generalOf _ _ _ Hb).
  rewrite Hfile, Z.eqb_refl. simpl.
  apply forallb_forall. intros y Hy. apply zrange_In in Hy.
  apply negb_true_iff, occupied_false_iff.
  intros p Hp Halive [Hx Hpy].
  apply (Hopen p Hp Halive); [congruence|lia].
Qed.

(** C3.  When both generals are alive, stand on one file and have no live
    piece strictly between them, [checkGameOver] names the side to move
    as the winner. *)
Theorem facing_generals_side_to_move_wins (g : GameModel.t) :
  generalsFacing g -> Rules.checkGameOver g = Some (GameModel.currentTurn g).
Proof.
  intros Hf. unfold Rules.checkGameOver.
  pose proof (facing_isKingFaceToFace g Hf) as Hface.
  destruct Hf as [rk [bk [Hr [Hb _]]]].
  rewrite (existsb_hasGeneral g RED (generalOf_hasGeneral _ _ _ Hr)).
  rewrite (existsb_hasGeneral g BLACK (generalOf_hasGeneral _ _ _ Hb)).
  simpl. rewrite Hface. now destruct (GameModel.currentTurn g).
Qed.

Lemma bareGenerals_facing (turn : PieceColor) : generalsFacing (bareGenerals turn).
Proof.
  exists (livePiece KING RED 4 9 "rk"), (livePiece KING BLACK 4 0 "bk").
  repeat split; simpl; auto.
  - intros k' [<-|[<-|[]]] [_ [_ Hc]]; [reflexivity|discriminate].
  - intros k' [<-|[<-|[]]] [_ [_ Hc]]; [discriminate|reflexivity].
  - intros p [<-|[<-|[]]] _ _; cbn; lia.
Qed.

Lemma facing_generals_side_to_move_wins_witness :
  generalsFacing (bareGenerals BLACK)
  /\ Rules.checkGameOver (bareGenerals BLACK) = Some BLACK.
Proof.
  split; [apply bareGenerals_facing|].
  apply (facing_generals_side_to_move_wins (bareGenerals BLACK)).
  apply bareGenerals_facing.
Defined.

(** C10.  When both generals are alive and face each other on an open
    file, [isInCheck] is true for red and for black alike; whose turn it
    is plays no part. *)
Theorem facing_generals_check_both_sides (g : GameModel.t) :
  generalsFacing g ->
  Rules.isInCheck RED g = true /\ Rules.isInCheck BLACK g = true.
Proof.
  intros Hf. pose proof (facing_isKingFaceToFace g Hf) as Hface.
  destruct Hf as [rk [bk [Hr [Hb _]]]].
  unfold Rules.isInCheck.
  rewrite (find_generalOf _ _ _ Hr), (find_generalOf _ _ _ Hb), Hface.
  now split.
Qed.

Lemma facing_generals_check_both_sides_witness :
  generalsFacing (bareGenerals RED)
  /\ Rules.isInCheck RED (bareGenerals RED) = true
  /\ Rules.isInCheck BLACK (bareGenerals RED) = true.
Proof.
  split; [apply bareGenerals_facing|].
  apply (facing_generals_check_both_sides (bareGenerals RED)).
  apply bareGenerals_facing.
Defined.

(** C4.  When the general of a side is not alive, [isInCheck] for that
    side is false, and [checkGameOver] names the opponent of that side as
    the winner; the latter whenever the missing general is red's, and for
    a missing black general when red's own general is alive (with both
    generals missing there is no single missing general: the answer is
    then black, red's general being looked for first). *)
Theorem missing_general_no_check_opponent_wins (g : GameModel.t) (c : PieceColor) :
  noGeneral g c ->
  Rules.isInCheck c g = false
  /\ (c = RED \/ hasGeneral g RED ->
      Rules.checkGameOver g = Some (opponentOf c)).
Proof.
  intros Hno. split.
  - unfold Rules.isInCheck. now rewrite (find_noGeneral g c Hno).
  - intros Hother. unfold Rules.checkGameOver.
    destruct c.
    + now rewrite (existsb_noGeneral g RED Hno).
    + destruct Hother as [Habs|Hred]; [discriminate|].
      rewrite (existsb_hasGeneral g RED Hred).
      now rewrite (existsb_noGeneral g BLACK Hno).
Qed.

Lemma blackGeneralTaken_noGeneral : noGeneral blackGeneralTaken BLACK.
Proof.
  intros p [<-|[<-|[<-|[]]]] [Ha [Ht Hc]]; discriminate.
Qed.

Lemma missing_general_no_check_opponent_wins_witness :
  noGeneral blackGeneralTaken BLACK
  /\ Rules.isInCheck BLACK blackGeneralTaken = false
  /\ Rules.checkGameOver blackGeneralTaken = Some RED.
Proof.
  split; [apply blackGeneralTaken_noGeneral|].
  destruct (missing_general_no_check_opponent_wins blackGeneralTaken BLACK
              blackGeneralTaken_noGeneral) as [Hcheck Hover].
  split; [exact Hcheck|].
  apply Hover. right. exists (livePiece KING RED 4 9 "rk").
  split; [now left|]. now repeat split.
Defined.

(** ** The self-check veto *)

Lemma shieldingCannon_wellFormed : wellFormed shieldingCannon.
Proof.
  unfold wellFormed, noOverlap. simpl. split; [|split; [|split]].
  - repeat (constructor; [simpl; intuition discriminate|]). constructor.
  - repeat (constructor; [simpl; intuition discriminate|]). constructor.
  - repeat constructor.
  - intros c k k' Hk Hk' [_ [Hty Hc]] [_ [Hty' Hc']].
    destruct Hk as [<-|[<-|[<-|[<-|[]]]]]; try discriminate Hty;
      destruct Hk' as [<-|[<-|[<-|[<-|[]]]]]; try discriminate Hty';
      try reflexivity; simpl in Hc, Hc'; congruence.
Qed.

(** C1, at the input where it fails.  The board is structurally valid.  The red cannon on (4, 5) stands
    between its own general on (4, 9) and a black chariot on (4, 0).
    [canMove] accepts its move to (0, 5), and once the move is played red
    is in check: [canMoveCannon] never asks
    [wouldBeInCheckAfterMove]. *)
Theorem cannon_move_leaves_own_general_in_check :
  let cannon := livePiece CANNON RED 4 5 "rp" in
  wellFormed shieldingCannon
  /\ In cannon (GameModel.pieces shieldingCannon)
  /\ Rules.isInCheck RED shieldingCannon = false
  /\ Rules.canMove cannon 0 5 shieldingCannon = true
  /\ Rules.wouldBeInCheckAfterMove cannon 0 5 shieldingCannon = true
  /\ exists after,
       Rules.simulateMove "rp" (Position.mk 0 5) shieldingCannon = Some after
       /\ GameModel.pieces after
          = [livePiece KING RED 4 9 "rk"; livePiece KING BLACK 3 0 "bk";
             livePiece CHARIOT BLACK 4 0 "bc"; livePiece CANNON RED 0 5 "rp"]
       /\ Rules.isInCheck RED after = true.
Proof.
  cbv zeta. split; [apply shieldingCannon_wellFormed|].
  split; [simpl; tauto|].
  split; [vm_compute; reflexivity|].
  split; [vm_compute; reflexivity|].
  split; [vm_compute; reflexivity|].
  eexists. split; [vm_compute; reflexivity|].
  split; vm_compute; reflexivity.
Qed.

(** The veto does hold for the six other piece types: a move [canMove]
    accepts does not leave the mover's side in check. *)
Lemma findIndex_some {A : Type} (f : A -> bool) (l : list A) (a : A) :
  In a l -> f a = true -> exists i, findIndex f l = Some i.
Proof.
  induction l as [|b l IH]; simpl; [contradiction|].
  intros [->|Hin] Hf.
  - rewrite Hf. now eexists.
  - destruct (f b); [now eexists|].
    destruct (IH Hin Hf) as [i ->]. now eexists.
Qed.

Lemma simulateMove_defined (p : PieceModel.t) (target : Position.t) (g : GameModel.t) :
  In p (GameModel.pieces g) ->
  exists after, Rules.simulateMove (PieceModel.id p) target g = Some after.
Proof.
  intros Hin. unfold Rules.simulateMove. simpl. rewrite clone_pieces.
  destruct (findIndex_some (fun q => String.eqb (PieceModel.id q) (PieceModel.id p))
                           (GameModel.pieces g) p Hin (String.eqb_refl _)) as [i ->].
  now eexists.
Qed.

Lemma self_check_veto_except_cannon (p : PieceModel.t) (x y : Z) (g : GameModel.t) :
  PieceModel.type p <> CANNON ->
  Rules.canMove p x y g = true ->
  Rules.wouldBeInCheckAfterMove p x y g = false
  /\ (forall after,
       Rules.simulateMove (PieceModel.id p) (Position.mk x y) g = Some after ->
       Rules.isInCheck (PieceModel.color p) after = false)
  /\ (In p (GameModel.pieces g) ->
      exists after,
        Rules.simulateMove (PieceModel.id p) (Position.mk x y) g = Some after
        /\ Rules.isInCheck (PieceModel.color p) after = false).
Proof.
  intros Hty Hmove.
  assert (Hveto : Rules.wouldBeInCheckAfterMove p x y g = false).
  { unfold Rules.canMove in Hmove.
    destruct (negb (Position.isValid _)); [discriminate|].
    destruct (Rules.ownPieceAt p x y g); [discriminate|].
    destruct (PieceModel.type p) eqn:Et; try congruence;
      [ unfold Rules.canMoveKing in Hmove
      | unfold Rules.canMoveAdvisor in Hmove
      | unfold Rules.canMoveElephant in Hmove
      | unfold Rules.canMoveHorse in Hmove
      | unfold Rules.canMoveChariot in Hmove
      | unfold Rules.canMoveSoldier in Hmove ];
      cbv zeta in Hmove;
      repeat match type of Hmove with
             | (if ?b then _ else _) = true =>
                 destruct b; try discriminate Hmove
             end;
      now apply negb_true_iff in Hmove. }
  assert (Hafter : forall after,
             Rules.simulateMove (PieceModel.id p) (Position.mk x y) g = Some after ->
             Rules.isInCheck (PieceModel.color p) after = false).
  { intros after Hafter. unfold Rules.wouldBeInCheckAfterMove in Hveto.
    now rewrite Hafter in Hveto. }
  split; [exact Hveto|]. split; [exact Hafter|].
  intros Hin. destruct (simulateMove_defined p (Position.mk x y) g Hin) as [after E].
  exists after. split; [exact E|]. now apply Hafter.
Qed.

(** ** The cannon *)

(** The squares the loops of [isPathClear] and [hasExactlyOneCannonMount]
    visit. *)
Lemma mountCount_squares (c : PieceModel.t) (tx ty : Z) (g : GameModel.t) :
  exists squares : list Position.t,
    NoDup squares
    /\ (forall s, In s squares
                  <-> strictlyBetween (PieceModel.position c) (Position.mk tx ty) s = true)
    /\ Rules.mountCount c tx ty g
       = length (filter (fun s => Rules.occupied g (Position.x s) (Position.y s)) squares)
    /\ Rules.isPathClear c tx ty g
       = forallb (fun s => negb (Rules.occupied g (Position.x s) (Position.y s))) squares.
Proof.
  unfold Rules.mountCount, Rules.isPathClear, strictlyBetween, PieceModel.px, PieceModel.py.
  cbn [Position.x Position.y].
  set (sx := Position.x (PieceModel.position c)).
  set (sy := Position.y (PieceModel.position c)).
  destruct (sy =? ty) eqn:Ey; [|destruct (sx =? tx) eqn:Ex].
  - exists (map (fun x => Position.mk x sy) (zrange (Z.min sx tx + 1) (Z.max sx tx))).
    split; [|split; [|split]].
    + apply Injective_map_NoDup; [|apply zrange_NoDup].
      intros a b Hab. now inversion Hab.
    + intros s. rewrite in_map_iff. split.
      * intros [x [<- Hx]]. apply zrange_In in Hx. cbn.
        rewrite Z.eqb_refl. simpl. apply andb_true_iff. split; apply Z.ltb_lt; lia.
      * rewrite !andb_true_iff. intros [[Hy Hlo] Hhi].
        apply Z.eqb_eq in Hy. apply Z.ltb_lt in Hlo, Hhi.
        exists (Position.x s). split; [destruct s; cbn in *; congruence|].
        apply zrange_In. lia.
    + generalize (zrange (Z.min sx tx + 1) (Z.max sx tx)) as xs.
      induction xs as [|x xs IH]; simpl; [reflexivity|].
      destruct (Rules.occupied g x sy); simpl; now rewrite IH.
    + generalize (zrange (Z.min sx tx + 1) (Z.max sx tx)) as xs.
      induction xs as [|x xs IH]; simpl; [reflexivity|]. now rewrite IH.
  - exists (map (fun y => Position.mk sx y) (zrange (Z.min sy ty + 1) (Z.max sy ty))).
    split; [|split; [|split]].
    + apply Injective_map_NoDup; [|apply zrange_NoDup].
      intros a b Hab. now inversion Hab.
    + intros s. rewrite in_map_iff. split.
      * intros [y [<- Hy]]. apply zrange_In in Hy. cbn.
        rewrite Z.eqb_refl. simpl. apply andb_true_iff. split; apply Z.ltb_lt; lia.
      * rewrite !andb_true_iff. intros [[Hx Hlo] Hhi].
        apply Z.eqb_eq in Hx. apply Z.ltb_lt in Hlo, Hhi.
        exists (Position.y s). split; [destruct s; cbn in *; congruence|].
        apply zrange_In. lia.
    + generalize (zrange (Z.min sy ty + 1) (Z.max sy ty)) as ys.
      induction ys as [|y ys IH]; simpl; [reflexivity|].
      destruct (Rules.occupied g sx y); simpl; now rewrite IH.
    + generalize (zrange (Z.min sy ty + 1) (Z.max sy ty)) as ys.
      induction ys as [|y ys IH]; simpl; [reflexivity|]. now rewrite IH.
  - exists []. repeat split; try constructor; try contradiction; discriminate.
Qed.

Lemma occupied_true_iff (g : GameModel.t) (x y : Z) :
  Rules.occupied g x y = true
  <-> exists p, In p (GameModel.pieces g) /\ PieceModel.isAlive p = true
                /\ PieceModel.position p = Position.mk x y.
Proof.
  unfold Rules.occupied, GameModel.getPieceAt. split.
  - destruct (find _ _) as [p|] eqn:E; [|discriminate]. intros _.
    apply find_some in E. destruct E as [Hp Hocc].
    unfold GameModel.occupies, PieceModel.px, PieceModel.py in Hocc.
    rewrite !andb_true_iff in Hocc. destruct Hocc as [[Ha Hx] Hy].
    apply Z.eqb_eq in Hx, Hy. exists p. repeat split; auto.
    destruct (PieceModel.position p). cbn in *. congruence.
  - intros [p [Hp [Ha Hpos]]].
    destruct (find _ _) eqn:E; [reflexivity|].
    apply (find_none _ _ E) in Hp.
    unfold GameModel.occupies, PieceModel.px, PieceModel.py in Hp.
    rewrite Ha, Hpos in Hp. cbn in Hp. rewrite !Z.eqb_refl in Hp. discriminate.
Qed.

(** The loop counts the occupied squares strictly between the cannon and
    its target. *)
Lemma mountCount_occupiedSquares (c : PieceModel.t) (tx ty : Z) (g : GameModel.t) :
  Rules.mountCount c tx ty g
  = length (occupiedSquaresBetween g (PieceModel.position c) (Position.mk tx ty)).
Proof.
  destruct (mountCount_squares c tx ty g) as [squares [Hnd [Hin [Hcount _]]]].
  rewrite Hcount. apply Permutation_length, NoDup_Permutation.
  - now apply NoDup_filter.
  - apply NoDup_nodup.
  - intros s. unfold occupiedSquaresBetween, livePiecesBetween.
    rewrite nodup_In, filter_In, in_map_iff, Hin, occupied_true_iff. split.
    + intros [Hbetween [p [Hp [Ha Hpos]]]]. exists p. split.
      * rewrite Hpos. now destruct s.
      * apply filter_In. split; [exact Hp|].
        rewrite Ha, Hpos. now destruct s.
    + intros [p [Hpos Hp]]. apply filter_In in Hp. destruct Hp as [Hp Hcond].
      apply andb_true_iff in Hcond. destruct Hcond as [Ha Hbetween].
      subst s. split; [exact Hbetween|].
      exists p. repeat split; auto. now destruct (PieceModel.position p).
Qed.

Lemma nodup_length_NoDup {A : Type} (dec : forall a b : A, {a = b} + {a <> b})
    (l : list A) :
  NoDup l -> length (nodup dec l) = length l.
Proof. intros H. now rewrite nodup_fixed_point. Qed.

Lemma NoDup_map_filter {A B : Type} (f : A -> B) (h : A -> bool) (l : list A) :
  NoDup (map f l) -> NoDup (map f (filter h l)).
Proof.
  induction l as [|a l IH]; simpl; [constructor|].
  intros Hnd. inversion Hnd as [|b bs Hnotin Hnd' E]. subst.
  destruct (h a); simpl; [|now apply IH].
  constructor; [|now apply IH].
  intros Hin. apply Hnotin. apply in_map_iff in Hin.
  destruct Hin as [a' [Ha' Hin]]. apply filter_In in Hin.
  apply in_map_iff. exists a'. tauto.
Qed.

(** When no two live pieces share a square, the occupied squares in
    between are as many as the live pieces in between. *)
Lemma occupiedSquares_livePieces (g : GameModel.t) (a b : Position.t) :
  noOverlap g ->
  length (occupiedSquaresBetween g a b) = length (livePiecesBetween g a b).
Proof.
  intros Hno. unfold occupiedSquaresBetween.
  rewrite nodup_length_NoDup, length_map; [reflexivity|].
  unfold livePiecesBetween, noOverlap in *.
  assert (E : filter (fun q => PieceModel.isAlive q
                               && strictlyBetween a b (PieceModel.position q))
                     (GameModel.pieces g)
              = filter (fun q => strictlyBetween a b (PieceModel.position q))
                       (filter PieceModel.isAlive (GameModel.pieces g))).
  { clear Hno. induction (GameModel.pieces g) as [|q qs IH]; simpl; [reflexivity|].
    destruct (PieceModel.isAlive q); simpl; [|exact IH].
    destruct (strictlyBetween a b (PieceModel.position q)); now rewrite IH. }
  rewrite E. now apply NoDup_map_filter.
Qed.

Lemma isPathClear_mountCount (c : PieceModel.t) (tx ty : Z) (g : GameModel.t) :
  Rules.isPathClear c tx ty g = true <-> Rules.mountCount c tx ty g = 0%nat.
Proof.
  destruct (mountCount_squares c tx ty g) as [squares [_ [_ [Hcount Hclear]]]].
  rewrite Hcount, Hclear. clear.
  induction squares as [|s squares IH]; simpl; [tauto|].
  destruct (Rules.occupied g (Position.x s) (Position.y s)); simpl.
  - split; discriminate.
  - exact IH.
Qed.

(** C5.  Let a cannon and a target on its file or rank be given.  If the
    target holds a live enemy piece, [canMoveCannon] accepts the move
    exactly when one square strictly between the two is occupied, which,
    no two live pieces sharing a square, is to say exactly one live piece
    stands strictly between them; with none or with two or more the
    capture is refused.  (For a target on the board, [canMove] on a cannon
    then is [canMoveCannon].)  If the target is empty, the move is
    accepted exactly when no live piece stands strictly between. *)
Theorem cannon_needs_one_platform_to_capture (g : GameModel.t)
    (cannon : PieceModel.t) (tx ty : Z) :
  PieceModel.px cannon = tx \/ PieceModel.py cannon = ty ->
  (forall enemy,
      GameModel.getPieceAt g tx ty = Some enemy ->
      PieceModel.color enemy <> PieceModel.color cannon ->
      (Rules.canMoveCannon cannon tx ty g = true
       <-> length (occupiedSquaresBetween g (PieceModel.position cannon)
                                           (Position.mk tx ty)) = 1%nat)
      /\ (noOverlap g ->
          (Rules.canMoveCannon cannon tx ty g = true
           <-> length (livePiecesBetween g (PieceModel.position cannon)
                                          (Position.mk tx ty)) = 1%nat))
      /\ (PieceModel.type cannon = CANNON ->
          Position.isValid (Position.mk tx ty) = true ->
          Rules.canMove cannon tx ty g = Rules.canMoveCannon cannon tx ty g))
  /\ (GameModel.getPieceAt g tx ty = None ->
      (Rules.canMoveCannon cannon tx ty g = true
       <-> livePiecesBetween g (PieceModel.position cannon) (Position.mk tx ty) = [])).
Proof.
  intros Hline.
  assert (Hguard : negb (PieceModel.px cannon =? tx) && negb (PieceModel.py cannon =? ty)
                   = false).
  { destruct Hline as [<-|<-]; rewrite Z.eqb_refl; simpl;
      [reflexivity|apply andb_false_r]. }
  split.
  - intros enemy Henemy Hcolor.
    assert (Hcode : Rules.canMoveCannon cannon tx ty g = true
                    <-> Rules.mountCount cannon tx ty g = 1%nat).
    { unfold Rules.canMoveCannon, Rules.hasExactlyOneCannonMount.
      rewrite Hguard, Henemy. apply Nat.eqb_eq. }
    split; [|split].
    + now rewrite Hcode, mountCount_occupiedSquares.
    + intros Hno.
      now rewrite Hcode, mountCount_occupiedSquares, occupiedSquares_livePieces.
    + intros Hty Hvalid. unfold Rules.canMove, Rules.ownPieceAt.
      rewrite Hvalid, Henemy, Hty. simpl.
      destruct (PieceColor_eqb _ _) eqn:E; [|reflexivity].
      now apply PieceColor_eqb_eq in E.
  - intros Hempty. unfold Rules.canMoveCannon. rewrite Hguard, Hempty.
    rewrite isPathClear_mountCount, mountCount_occupiedSquares.
    unfold occupiedSquaresBetween.
    destruct (livePiecesBetween g _ _) as [|q qs] eqn:E; [simpl; tauto|].
    split; [|discriminate].
    intros Hlen. exfalso.
    assert (Hin : In (PieceModel.position q)
                     (nodup Position_eq_dec (map PieceModel.position (q :: qs)))).
    { apply nodup_In. now left. }
    destruct (nodup Position_eq_dec (map PieceModel.position (q :: qs)));
      [contradiction|discriminate].
Qed.

Lemma cannonFile_noOverlap :
  noOverlap (cannonFile [livePiece SOLDIER RED 4 4 "rs"]).
Proof.
  unfold noOverlap. simpl.
  repeat (constructor; [simpl; intuition discriminate|]). constructor.
Qed.

Lemma cannon_needs_one_platform_to_capture_witness :
  let g := cannonFile [livePiece SOLDIER RED 4 4 "rs"] in
  let cannon := livePiece CANNON RED 4 7 "rp" in
  Rules.canMoveCannon cannon 4 1 g = true
  /\ Rules.canMove cannon 4 1 g = true
  /\ Rules.canMoveCannon cannon 4 5 g = true
  /\ Rules.canMoveCannon cannon 4 3 g = false.
Proof.
  intros g cannon.
  destruct (cannon_needs_one_platform_to_capture g cannon 4 1 (or_introl eq_refl))
    as [Hcapture _].
  destruct (Hcapture (livePiece CHARIOT BLACK 4 1 "bc") eq_refl
                     ltac:(discriminate)) as [_ [Hone Hrule]].
  destruct (cannon_needs_one_platform_to_capture g cannon 4 5 (or_introl eq_refl))
    as [_ Hnear].
  destruct (cannon_needs_one_platform_to_capture g cannon 4 3 (or_introl eq_refl))
    as [_ Hfar].
  assert (H1 : Rules.canMoveCannon cannon 4 1 g = true).
  { apply (Hone cannonFile_noOverlap). reflexivity. }
  split; [exact H1|].
  split; [rewrite (Hrule eq_refl eq_refl); exact H1|].
  split; [apply (Hnear eq_refl); reflexivity|].
  apply not_true_is_false. intros E.
  apply (Hfar eq_refl) in E. discriminate E.
Defined.

(** ** The position tables *)

(** C6, where it fails: a black soldier on (0, 0) is given 200, a red
    soldier on (0, 9 - 0) is given 0, rank 9 being beyond the nine rows of
    the table. *)
Lemma position_bonus_not_mirrored_across_midline :
  AIWorker.getPositionValue (livePiece SOLDIER BLACK 0 0 "b") = 200
  /\ AIWorker.getPositionValue (livePiece SOLDIER RED 0 (9 - 0) "r") = 0
  /\ ~ (forall (t : PieceType) (x y : Z),
          0 <= x <= 8 -> 0 <= y <= 9 ->
          AIWorker.getPositionValue (livePiece t BLACK x y "b")
          = AIWorker.getPositionValue (livePiece t RED x (9 - y) "r")).
Proof.
  split; [reflexivity|]. split; [reflexivity|].
  intros H. specialize (H SOLDIER 0 0 ltac:(lia) ltac:(lia)).
  vm_compute in H. discriminate H.
Qed.

(** C6, amended.  The bonus of a black piece on [(x, y)] is the bonus of a
    red piece of the same type on [(x, 8 - y)]: the tables have nine rows,
    read at the rank for red and at 8 minus the rank for black, and the
    bonus is 0 where that leaves the table.  This holds for every type and
    every pair of coordinates, whatever the ids and the liveness. *)
Theorem position_bonus_mirrored_at_eight_minus_rank
    (t : PieceType) (x y : Z) (alive alive' : bool) (i j : string) :
  AIWorker.getPositionValue (PieceModel.mk t BLACK (Position.mk x y) alive i)
  = AIWorker.getPositionValue (PieceModel.mk t RED (Position.mk x (8 - y)) alive' j).
Proof. reflexivity. Qed.

(** ** Serialization *)

Lemma PieceModel_roundtrip (p : PieceModel.t) :
  PieceModel.fromJSON (PieceModel.toJSON p) = Some p.
Proof. destruct p as [[] [] [px py] al i]; reflexivity. Qed.

Lemma mapOpt_roundtrip {A B : Type} (write : A -> B) (read : B -> option A)
    (l : list A) :
  (forall a, read (write a) = Some a) -> mapOpt read (map write l) = Some l.
Proof.
  intros H. induction l as [|a l IH]; simpl; [reflexivity|].
  now rewrite H, IH.
Qed.

Lemma Position_roundtrip (p : Position.t) : Position.ofPlain (Position.toPlain p) = Some p.
Proof. now destruct p. Qed.

(** Induction on a game together with the games of its history. *)
Lemma GameModel_history_ind (P : GameModel.t -> Prop) :
  (forall ps turn state win chk sel moves hist mode diff aiColor,
      Forall P hist ->
      P (GameModel.mk ps turn state win chk sel moves hist mode diff aiColor)) ->
  forall g, P g.
Proof.
  intros step. fix IH 1. intros [ps turn state win chk sel moves hist mode diff aiColor].
  apply step. induction hist as [|h hist IHhist]; constructor.
  - apply IH.
  - exact IHhist.
Qed.

Lemma GameModel_roundtrip (g : GameModel.t) :
  GameModel.fromJSON (GameModel.toJSON g) = Some g.
Proof.
  induction g as [ps turn state win chk sel moves hist mode diff aiColor IHhist]
    using GameModel_history_ind.
  cbn -[PieceModel.fromJSON PieceModel.toJSON Position.ofPlain Position.toPlain].
  rewrite (mapOpt_roundtrip _ _ ps PieceModel_roundtrip).
  rewrite (mapOpt_roundtrip _ _ moves Position_roundtrip).
  assert (Hhist :
    (fix each (l : list json) : option (list GameModel.t) :=
       match l with
       | [] => Some []
       | i :: l' =>
           match GameModel.fromJSON i, each l' with
           | Some m, Some ms => Some (m :: ms)
           | _, _ => None
           end
       end) (map GameModel.toJSON hist) = Some hist).
  { induction IHhist as [|h hist Hh _ IH]; [reflexivity|].
    cbn [map]. rewrite Hh, IH. reflexivity. }
  rewrite Hhist.
  destruct turn, state, win as [[]|], sel, mode, diff, aiColor; reflexivity.
Qed.

(** C9.  Reading back what [toJSON] wrote gives a game with the same
    pieces (id, type, side, position and liveness of each, in the same
    order), the same side to move, the same check flag and the same
    winner; it is the very same game, history included. *)
Theorem game_round_trips_through_json (g : GameModel.t) :
  exists g',
    GameModel.fromJSON (GameModel.toJSON g) = Some g'
    /\ GameModel.pieces g' = GameModel.pieces g
    /\ GameModel.currentTurn g' = GameModel.currentTurn g
    /\ GameModel.isInCheck g' = GameModel.isInCheck g
    /\ GameModel.winner g' = GameModel.winner g
    /\ g' = g.
Proof.
  exists g. rewrite GameModel_roundtrip. repeat split.
Qed.

(** ** Computations with draws and clock readings *)

Lemma run_bind {A B : Type} (m : Prog A) (f : A -> Prog B) (w : World) :
  run (bind m f) w
  = match run m w with
    | (Some a, w') => run (f a) w'
    | (None, w') => (None, w')
    end.
Proof.
  revert w. induction m as [a| |k IH|k IH]; intros w; simpl; auto.
Qed.

Lemma Returns_run {A : Type} (P : A -> Prop) (m : Prog A) :
  Returns P m -> forall w, exists a, fst (run m w) = Some a /\ P a.
Proof.
  induction 1 as [a Ha|k Hk IH|k Hk IH]; intros w; simpl.
  - now exists a.
  - apply IH. apply Z.mod_pos_bound. reflexivity.
  - apply IH.
Qed.

Lemma Returns_bind {A B : Type} (P : A -> Prop) (Q : B -> Prop)
    (m : Prog A) (f : A -> Prog B) :
  Returns P m -> (forall a, P a -> Returns Q (f a)) -> Returns Q (bind m f).
Proof.
  intros Hm Hf. induction Hm as [a Ha|k Hk IH|k Hk IH]; simpl.
  - now apply Hf.
  - constructor. intros r Hr. now apply IH.
  - constructor. intros now. now apply IH.
Qed.

Lemma Returns_weaken {A : Type} (P Q : A -> Prop) (m : Prog A) :
  (forall a, P a -> Q a) -> Returns P m -> Returns Q m.
Proof.
  intros HPQ Hm. induction Hm; constructor; auto.
Qed.

(** ** The sort returns a permutation *)

Section SortFacts.

Context {A : Type} (comparefn : A -> A -> Prog Z).
Hypothesis comparefn_returns : forall a b, Returns (fun _ => True) (comparefn a b).

Lemma sink_permutation (element : A) (placed : list A) :
  Returns (fun l => Permutation (element :: placed) l) (sink comparefn element placed).
Proof.
  induction placed as [|tmp before IH]; simpl.
  - now constructor.
  - apply Returns_bind with (P := fun _ => True); [apply comparefn_returns|].
    intros order _. destruct (order >? 0).
    + apply Returns_bind with (P := fun l => Permutation (element :: before) l);
        [exact IH|].
      intros below Hbelow. constructor.
      rewrite perm_swap. now constructor.
    + now constructor.
Qed.

Lemma sortFrom_permutation (placed pending : list A) :
  Returns (fun l => Permutation (placed ++ pending) l)
          (sortFrom comparefn placed pending).
Proof.
  revert placed. induction pending as [|element pending IH]; intros placed; simpl.
  - constructor. rewrite app_nil_r. apply Permutation_rev.
  - apply Returns_bind with (P := fun l => Permutation (element :: placed) l);
      [apply sink_permutation|].
    intros placed' Hplaced'.
    eapply Returns_weaken; [|apply IH].
    intros l Hl. cbv beta in Hl. rewrite <- Hl.
    rewrite <- Permutation_middle.
    now apply (Permutation_app_tail pending) in Hplaced'.
Qed.

Lemma sort_permutation (l : list A) :
  Returns (fun l' => Permutation l l') (sort comparefn l).
Proof. apply (sortFrom_permutation [] l). Qed.

End SortFacts.

(** ** Choosing a move *)

Lemma In_firstn_aux {A : Type} (n : nat) (l : list A) (a : A) :
  In a (firstn n l) -> In a l.
Proof.
  revert l. induction n as [|n IH]; intros [|b l]; simpl; try tauto.
  intros [->|H]; [now left|right; now apply IH].
Qed.

Lemma randomIndex_lt (r : Z) (n : nat) :
  0 <= r < two53 -> (0 < n)%nat -> (randomIndex r n < n)%nat.
Proof.
  intros Hr Hn. unfold randomIndex.
  assert (Hq : 0 <= r * Z.of_nat n / two53 < Z.of_nat n).
  { split.
    - apply Z.div_pos; [|reflexivity]. apply Z.mul_nonneg_nonneg; lia.
    - apply Z.div_lt_upper_bound; [reflexivity|].
      apply Z.mul_lt_mono_pos_r; lia. }
  lia.
Qed.

Lemma pick_returns (validMoves : list Move) :
  validMoves <> [] ->
  Returns (fun o => exists m, o = Some m /\ In m validMoves)
          (MathRandom (fun r =>
             Ret (nth_error validMoves (randomIndex r (length validMoves))))).
Proof.
  intros Hne. constructor. intros r Hr. constructor.
  assert (Hlen : (0 < length validMoves)%nat).
  { destruct validMoves; [congruence|simpl; lia]. }
  pose proof (randomIndex_lt r (length validMoves) Hr Hlen) as Hi.
  destruct (nth_error validMoves (randomIndex r (length validMoves))) as [m|] eqn:E.
  - exists m. split; [reflexivity|]. eapply nth_error_In, E.
  - apply nth_error_None in E. lia.
Qed.

Lemma filter_pick_returns (h : Move -> bool) (validMoves : list Move) :
  (0 <? Z.of_nat (length (filter h validMoves))) = true ->
  Returns (fun o => exists m, o = Some m /\ In m validMoves)
          (MathRandom (fun r =>
             Ret (nth_error (filter h validMoves)
                            (randomIndex r (length (filter h validMoves)))))).
Proof.
  intros Hpos.
  eapply Returns_weaken; [|apply pick_returns].
  - intros o [m [-> Hm]]. exists m. split; [reflexivity|].
    now apply filter_In in Hm.
  - intros E. rewrite E in Hpos. discriminate.
Qed.

Lemma AIWorker_chooseMediumMove_returns (validMoves : list Move) (g : GameModel.t) :
  validMoves <> [] ->
  Returns (fun o => exists m, o = Some m /\ In m validMoves)
          (AIWorker.chooseMediumMove validMoves g).
Proof.
  intros Hne. unfold AIWorker.chooseMediumMove, AIWorker.chooseRandomMove.
  destruct (0 <? Z.of_nat (length (filter _ validMoves))) eqn:E1;
    [now apply filter_pick_returns|].
  destruct (0 <? Z.of_nat (length (filter (fun m => AIWorker.captures m g) validMoves)))
    eqn:E2; [now apply filter_pick_returns|].
  now apply pick_returns.
Qed.

Lemma AI_chooseMediumMove_returns (validMoves : list Move) (g : GameModel.t) :
  validMoves <> [] ->
  Returns (fun o => exists m, o = Some m /\ In m validMoves)
          (AI.chooseMediumMove validMoves g).
Proof.
  intros Hne. unfold AI.chooseMediumMove, AI.chooseRandomMove.
  destruct (0 <? Z.of_nat (length (filter _ validMoves))) eqn:E1;
    [now apply filter_pick_returns|].
  match goal with
  | |- context [0 <? Z.of_nat (length (filter ?h validMoves))] =>
      destruct (0 <? Z.of_nat (length (filter h validMoves))) eqn:E2;
        [now apply filter_pick_returns|]
  end.
  now apply pick_returns.
Qed.

Lemma AI_chooseHardMove_member (validMoves : list Move) (g : GameModel.t) :
  validMoves <> [] ->
  exists m, AI.chooseHardMove validMoves g = Some m /\ In m validMoves.
Proof.
  intros Hne. unfold AI.chooseHardMove.
  assert (Hinv : forall (ms : list Move) (best : option Move * num),
             (exists m, fst best = Some m /\ In m validMoves) ->
             (forall m, In m ms -> In m validMoves) ->
             exists m,
               fst (fold_left
                      (fun best m =>
                         let score := Fin (AI.evaluateMove m g) in
                         if num_ltb (snd best) score then (Some m, score) else best)
                      ms best) = Some m
               /\ In m validMoves).
  { induction ms as [|m ms IH]; intros best Hbest Hsub; simpl; [exact Hbest|].
    apply IH.
    - destruct (num_ltb _ _); [|exact Hbest].
      exists m. split; [reflexivity|]. apply Hsub. now left.
    - intros m' Hm'. apply Hsub. now right. }
  apply Hinv; [|auto].
  destruct validMoves as [|m ms]; [congruence|].
  exists m. split; [reflexivity|now left].
Qed.

Lemma getAllValidMoves_legal (g : GameModel.t) (m : Move) :
  In m (AIWorker.getAllValidMoves g) <-> legalMove g m.
Proof.
  unfold AIWorker.getAllValidMoves, legalMove.
  rewrite in_flat_map. split.
  - intros [p [Hp Hm]]. apply filter_In in Hp. destruct Hp as [Hp Hcond].
    apply andb_true_iff in Hcond. destruct Hcond as [Ha Hc].
    apply PieceColor_eqb_eq in Hc.
    apply in_map_iff in Hm. destruct Hm as [s [<- Hs]]. simpl.
    destruct s as [x y].
    apply (proj1 (getValidMoves_In p g x y)) in Hs. auto.
  - intros [Hp [Ha [Hc Hmove]]]. exists (piece m). split.
    + apply filter_In. split; [exact Hp|].
      rewrite Ha. simpl. now apply PieceColor_eqb_eq.
    + apply in_map_iff. exists (target m). split; [now destruct m|].
      destruct (target m) as [x y].
      now apply (proj2 (getValidMoves_In (piece m) g x y)).
Qed.

(** ** The hard tier of [AIWorker] never throws on a list of moves that is
    not empty, and answers with one of them *)

Lemma compareMoves_returns (g : GameModel.t) (a b : Move) :
  Returns (fun _ => True) (AIWorker.compareMoves g a b).
Proof.
  unfold AIWorker.compareMoves. cbv zeta.
  destruct (negb (_ =? _)); [now constructor|].
  destruct (negb (_ =? _)); [now constructor|].
  constructor. intros r _. now constructor.
Qed.

Lemma compareScores_returns (a b : ScoredMove) :
  Returns (fun _ => True) (AIWorker.compareScores a b).
Proof. now constructor. Qed.

Lemma sortMoves_permutation (moves : list Move) (g : GameModel.t) :
  Returns (fun l => Permutation moves l) (AIWorker.sortMoves moves g).
Proof. apply sort_permutation, compareMoves_returns. Qed.

Lemma minimax_returns (depth : nat) :
  forall g alpha beta isMaximizingPlayer aiColor,
    Returns (fun _ => True)
            (AIWorker.minimax g depth alpha beta isMaximizingPlayer aiColor).
Proof.
  induction depth as [|depth IH]; intros g alpha beta isMax aiColor; simpl.
  - now constructor.
  - destruct (Nat.eqb _ 0); [now constructor|].
    destruct isMax.
    + apply Returns_bind with (P := fun _ => True).
      * eapply Returns_weaken; [|apply sortMoves_permutation]. auto.
      * intros sortedMoves _. generalize alpha, NInf.
        induction sortedMoves as [|m ms IHms]; intros a best; [now constructor|].
        apply Returns_bind with (P := fun _ => True); [apply IH|].
        intros score _. cbv zeta.
        destruct (num_leb beta (num_max a score)); [now constructor|apply IHms].
    + apply Returns_bind with (P := fun _ => True).
      * eapply Returns_weaken; [|apply sortMoves_permutation]. auto.
      * intros sortedMoves _. generalize beta, PInf.
        induction sortedMoves as [|m ms IHms]; intros b best; [now constructor|].
        apply Returns_bind with (P := fun _ => True); [apply IH|].
        intros score _. cbv zeta.
        destruct (num_leb (num_min b score) alpha); [now constructor|apply IHms].
Qed.

Lemma scoreAll_returns (g : GameModel.t) (aiColor : PieceColor) (startTime : Z)
    (depth : nat) (scoredMoves : list ScoredMove) :
  Returns (fun l => map move l = map move scoredMoves)
          (AIWorker.scoreAll g aiColor startTime depth scoredMoves).
Proof.
  induction scoredMoves as [|sm rest IH]; simpl; [now constructor|].
  constructor. intros now. simpl.
  apply Returns_bind with (P := fun sm' => move sm' = move sm).
  - destruct (now - startTime >? AIWorker.timeLimit); [now constructor|].
    apply Returns_bind with (P := fun _ => True); [apply minimax_returns|].
    intros s _. now constructor.
  - intros sm' Hsm'.
    apply Returns_bind with (P := fun l => map move l = map move rest); [exact IH|].
    intros rest' Hrest'. constructor. simpl. now rewrite Hsm', Hrest'.
Qed.

Lemma deepen_returns (g : GameModel.t) (aiColor : PieceColor) (startTime : Z)
    (depths : list nat) :
  forall scoredMoves,
    scoredMoves <> [] ->
    Returns (fun l => Permutation (map move scoredMoves) (map move l))
            (AIWorker.deepen g aiColor startTime depths scoredMoves).
Proof.
  induction depths as [|depth depths IH]; intros scoredMoves Hne; simpl.
  - now constructor.
  - constructor. intros now. simpl.
    destruct (now - startTime >? AIWorker.timeLimit); [now constructor|].
    apply Returns_bind with (P := fun l => map move l = map move scoredMoves);
      [apply scoreAll_returns|].
    intros scored Hscored.
    apply Returns_bind with (P := fun l => Permutation scored l);
      [apply sort_permutation, compareScores_returns|].
    intros sorted Hsorted.
    assert (Hmoves : Permutation (map move scoredMoves) (map move sorted)).
    { rewrite <- Hscored. now apply Permutation_map. }
    destruct sorted as [|best rest].
    + exfalso. apply Permutation_sym, Permutation_nil in Hmoves.
      destruct scoredMoves; [congruence|discriminate].
    + cbv iota.
      match goal with
      | |- Returns _ (if ?stop then _ else _) => destruct stop; [now constructor|]
      end.
      eapply Returns_weaken; [|apply IH; discriminate].
      intros l Hl. cbv beta in Hl. now rewrite Hmoves.
Qed.

Lemma searchScores_returns (g : GameModel.t) (validMoves : list Move)
    (aiColor : PieceColor) :
  validMoves <> [] ->
  Returns (fun l => Permutation validMoves (map move l))
          (AIWorker.searchScores g validMoves aiColor).
Proof.
  intros Hne. unfold AIWorker.searchScores.
  apply Returns_bind with (P := fun _ => True);
    [constructor; intros now; now constructor|].
  intros startTime _.
  apply Returns_bind with (P := fun l => Permutation validMoves l);
    [apply sortMoves_permutation|].
  intros sortedMoves Hsorted.
  eapply Returns_weaken; [|apply deepen_returns].
  - intros l Hl. cbv beta in Hl. rewrite map_map, map_id in Hl.
    now rewrite Hsorted.
  - intros E. apply map_eq_nil in E. subst.
    apply Permutation_sym, Permutation_nil in Hsorted. congruence.
Qed.

Lemma selectMoveWithRandomness_returns (pickBelow : Z) (scoredMoves : list ScoredMove) :
  scoredMoves <> [] ->
  Returns (fun s => In s scoredMoves)
          (AIWorker.selectMoveWithRandomness pickBelow scoredMoves).
Proof.
  intros Hne. unfold AIWorker.selectMoveWithRandomness.
  apply Returns_bind with (P := fun l => Permutation scoredMoves l);
    [apply sort_permutation, compareScores_returns|].
  intros sorted Hsorted. constructor. intros r Hr.
  destruct ((r <? pickBelow) && _) eqn:Epick.
  - apply andb_true_iff in Epick. destruct Epick as [_ Hmany].
    apply Z.ltb_lt in Hmany.
    constructor. intros r' Hr'.
    set (candidates := firstn (Nat.min 5 (length sorted)) sorted) in *.
    pose proof (randomIndex_lt r' (length candidates) Hr' ltac:(lia)) as Hi.
    destruct (nth_error candidates (randomIndex r' (length candidates))) as [s|] eqn:E.
    + constructor. apply nth_error_In in E.
      apply (Permutation_in _ (Permutation_sym Hsorted)).
      eapply In_firstn_aux, E.
    + apply nth_error_None in E. lia.
  - destruct sorted as [|best rest].
    + exfalso. apply Permutation_sym, Permutation_nil in Hsorted. congruence.
    + constructor. apply (Permutation_in _ (Permutation_sym Hsorted)). now left.
Qed.

Lemma AIWorker_chooseHardMove_returns (pickBelow : Z) (validMoves : list Move)
    (g : GameModel.t) (aiColor : PieceColor) :
  validMoves <> [] ->
  Returns (fun m => In m validMoves)
          (AIWorker.chooseHardMove pickBelow validMoves g aiColor).
Proof.
  intros Hne. unfold AIWorker.chooseHardMove, AIWorker.iterativeDeepening.
  apply Returns_bind with (P := fun s => In (move s) validMoves).
  - apply Returns_bind with (P := fun l => Permutation validMoves (map move l));
      [now apply searchScores_returns|].
    intros scored Hscored.
    eapply Returns_weaken; [|apply selectMoveWithRandomness_returns].
    + intros s Hs. apply (Permutation_in _ (Permutation_sym Hscored)).
      now apply in_map.
    + intros E. subst. apply Permutation_sym, Permutation_nil in Hscored.
      congruence.
  - intros best Hbest. now constructor.
Qed.

Lemma hasLegalMove_moves (g : GameModel.t) :
  hasLegalMove g -> AIWorker.getAllValidMoves g <> [].
Proof.
  intros [p [x [y [Hp [Ha [Hc Hmove]]]]]] E.
  assert (Hin : In (mkMove p (Position.mk x y)) (AIWorker.getAllValidMoves g)).
  { apply getAllValidMoves_legal. now repeat split. }
  rewrite E in Hin. contradiction.
Qed.

Lemma length_eqb_0 {A : Type} (l : list A) : l <> [] -> Nat.eqb (length l) 0 = false.
Proof. destruct l; [congruence|reflexivity]. Qed.

(** C8, where it fails: red is to move and can advance its soldier, the
    machine plays black, and both [AI.makeMove] and [AIWorker.makeMove]
    answer [null]. *)
Lemma chooseMove_none_although_side_to_move_can_move :
  hasLegalMove (redToMoveAgainstBlackAI EASY)
  /\ fst (run (AI.makeMove (redToMoveAgainstBlackAI EASY)) lowDraws) = Some None
  /\ fst (run (AIWorker.makeMove AIWorker.pickBelowSource
                 (GameModel.toJSON (redToMoveAgainstBlackAI EASY)) BLACK EASY)
              lowDraws) = Some None.
Proof.
  split; [|split; vm_compute; reflexivity].
  exists (livePiece SOLDIER RED 0 6 "rs"), 0, 5.
  split; [simpl; tauto|].
  split; [reflexivity|]. split; [reflexivity|]. vm_compute. reflexivity.
Qed.

(** C8, amended.  [chooseMove] answers [null] when the side to move is not
    the machine's side.  When it is the machine's side and that side has a
    legal move, [chooseMove] answers with a pair of a piece and a target,
    at each of the three tiers, whatever is drawn and whatever the clock
    reads; the pair is a legal move of the side to move.  This holds for
    [AIWorker.makeMove], given the game as data, and for [AI.makeMove]. *)
Theorem chooseMove_answers_on_the_machines_turn (g : GameModel.t) :
  hasLegalMove g ->
  (forall data aiColor difficulty pickBelow w,
      GameModel.fromJSON data = Some g ->
      (GameModel.currentTurn g = aiColor ->
       exists m,
         fst (run (AIWorker.makeMove pickBelow data aiColor difficulty) w)
         = Some (Some m)
         /\ legalMove g m)
      /\ (GameModel.currentTurn g <> aiColor ->
          fst (run (AIWorker.makeMove pickBelow data aiColor difficulty) w)
          = Some None))
  /\ (forall w,
        (GameModel.currentTurn g = GameModel.aiPlayerColor g ->
         exists m, fst (run (AI.makeMove g) w) = Some (Some m) /\ legalMove g m)
        /\ (GameModel.currentTurn g <> GameModel.aiPlayerColor g ->
            fst (run (AI.makeMove g) w) = Some None)).
Proof.
  intros Hlegal. pose proof (hasLegalMove_moves g Hlegal) as Hne.
  split.
  - intros data aiColor difficulty pickBelow w Hdata.
    unfold AIWorker.makeMove. rewrite Hdata. split.
    + intros Hturn. rewrite Hturn, PieceColor_eqb_refl. cbn [negb].
      rewrite <- Hturn. rewrite (length_eqb_0 _ Hne).
      assert (Hret : Returns
                (fun o => exists m, o = Some m /\ In m (AIWorker.getAllValidMoves g))
                (match difficulty with
                 | EASY => AIWorker.chooseRandomMove (AIWorker.getAllValidMoves g)
                 | MEDIUM => AIWorker.chooseMediumMove (AIWorker.getAllValidMoves g) g
                 | HARD =>
                     bestMove <- AIWorker.chooseHardMove pickBelow
                                   (AIWorker.getAllValidMoves g) g
                                   (GameModel.currentTurn g) ;;
                     Ret (Some bestMove)
                 end)).
      { destruct difficulty.
        - now apply pick_returns.
        - now apply AIWorker_chooseMediumMove_returns.
        - eapply Returns_bind; [now apply AIWorker_chooseHardMove_returns|].
          intros m Hm. constructor. now exists m. }
      destruct (Returns_run _ _ Hret w) as [o [Hrun [m [-> Hm]]]].
      exists m. split; [exact Hrun|]. now apply getAllValidMoves_legal.
    + intros Hturn.
      destruct (PieceColor_eqb (GameModel.currentTurn g) aiColor) eqn:E;
        [apply PieceColor_eqb_eq in E; contradiction|reflexivity].
  - intros w. unfold AI.makeMove. split.
    + intros Hturn. rewrite Hturn, PieceColor_eqb_refl. cbn [negb].
      assert (Hsame : AI.getAllValidMoves g = AIWorker.getAllValidMoves g).
      { unfold AI.getAllValidMoves, AIWorker.getAllValidMoves. now rewrite Hturn. }
      rewrite Hsame, (length_eqb_0 _ Hne).
      assert (Hret : Returns
                (fun o => exists m, o = Some m /\ In m (AIWorker.getAllValidMoves g))
                (match GameModel.aiDifficulty g with
                 | EASY => AI.chooseRandomMove (AIWorker.getAllValidMoves g)
                 | MEDIUM => AI.chooseMediumMove (AIWorker.getAllValidMoves g) g
                 | HARD => Ret (AI.chooseHardMove (AIWorker.getAllValidMoves g) g)
                 end)).
      { destruct (GameModel.aiDifficulty g).
        - now apply pick_returns.
        - now apply AI_chooseMediumMove_returns.
        - constructor. now apply AI_chooseHardMove_member. }
      destruct (Returns_run _ _ Hret w) as [o [Hrun [m [-> Hm]]]].
      exists m. split; [exact Hrun|]. now apply getAllValidMoves_legal.
    + intros Hturn.
      destruct (PieceColor_eqb (GameModel.currentTurn g) (GameModel.aiPlayerColor g))
        eqn:E; [apply PieceColor_eqb_eq in E; contradiction|reflexivity].
Qed.

Lemma chooseMove_answers_on_the_machines_turn_witness :
  exists m,
    fst (run (AIWorker.makeMove AIWorker.pickBelowSource
                (GameModel.toJSON chariotsAtTheGeneral) RED HARD) lowDraws)
    = Some (Some m)
    /\ legalMove chariotsAtTheGeneral m.
Proof.
  assert (Hlegal : hasLegalMove chariotsAtTheGeneral).
  { exists (livePiece SOLDIER RED 4 4 "rs"), 4, 3.
    split; [simpl; tauto|].
    split; [reflexivity|]. split; [reflexivity|]. vm_compute. reflexivity. }
  destruct (chooseMove_answers_on_the_machines_turn chariotsAtTheGeneral Hlegal)
    as [Hworker _].
  apply (Hworker (GameModel.toJSON chariotsAtTheGeneral) RED HARD
                 AIWorker.pickBelowSource lowDraws
                 (GameModel_roundtrip chariotsAtTheGeneral)).
  reflexivity.
Defined.

(** ** What the hard search depends on *)




(** Sorting by score makes no request to the world. *)
Lemma sort_compareScores_pure (l : list ScoredMove) :
  exists l', forall w, run (sort AIWorker.compareScores l) w = (Some l', w).
Proof.
  unfold sort.
  assert (Hsink : forall element placed,
             exists l', forall w,
               run (sink AIWorker.compareScores element placed) w = (Some l', w)).
  { intros element placed. induction placed as [|tmp before [below IH]]; simpl.
    - now eexists.
    - destruct (orderOf _ >? 0).
      + exists (tmp :: below). intros w. now rewrite run_bind, IH.
      + now eexists. }
  generalize (@nil ScoredMove) as placed. induction l as [|element l IH]; intros placed.
  - now eexists.
  - simpl. destruct (Hsink element placed) as [placed' Hplaced'].
    destruct (IH placed') as [l' Hl']. exists l'. intros w.
    now rewrite run_bind, Hplaced', Hl'.
Qed.




(** * Further properties of the rules, the machine and the controller *)

(** ** The two sets of movement rules *)

Lemma soldier_rules_agree (c : PieceColor) (py ty : Z) :
  (if PieceColor_eqb c RED && (py >? 4) && (ty >=? py) then false
   else if PieceColor_eqb c BLACK && (py <? 5) && (ty <=? py) then false
   else if PieceColor_eqb c RED && (ty >? py) then false
   else if PieceColor_eqb c BLACK && (ty <? py) then false
   else true)
  = negb (if PieceColor_eqb c RED && (py >? 4) then ty >=? py
          else if PieceColor_eqb c BLACK && (py <? 5) then ty <=? py
          else (PieceColor_eqb c RED && (ty >? py))
               || (PieceColor_eqb c BLACK && (ty <? py))).
Proof.
  rewrite !Z.gtb_ltb, !Z.geb_leb.
  destruct c; simpl;
    destruct (Z.ltb_spec 4 py), (Z.leb_spec py ty), (Z.ltb_spec py ty),
             (Z.ltb_spec py 5), (Z.leb_spec ty py), (Z.ltb_spec ty py);
    simpl; try reflexivity; lia.
Qed.

Lemma canMove_split (p : PieceModel.t) (x y : Z) (g : GameModel.t) :
  Rules.canMove p x y g
  = Rules.canMoveWithoutCheck p x y g
    && (PieceType_eqb (PieceModel.type p) CANNON
        || negb (Rules.wouldBeInCheckAfterMove p x y g)).
Proof.
  unfold Rules.canMove, Rules.canMoveWithoutCheck.
  destruct (negb (Position.isValid _)); [reflexivity|].
  destruct (Rules.ownPieceAt p x y g); [reflexivity|].
  cbv zeta.
  destruct (PieceModel.type p); cbn [PieceType_eqb orb].
  - unfold Rules.canMoveKing. cbv zeta.
    destruct (Rules.isInPalace _ _ _), (Rules.oneStepOrthogonal _ _); reflexivity.
  - unfold Rules.canMoveAdvisor. cbv zeta.
    destruct (Rules.isInPalace _ _ _), (_ =? 1), (_ =? 1); reflexivity.
  - unfold Rules.canMoveElephant. cbv zeta.
    destruct (PieceColor_eqb _ RED && _), (PieceColor_eqb _ BLACK && _);
      try reflexivity.
    destruct ((_ =? 2) && (_ =? 2)); [|reflexivity].
    destruct (negb (Rules.occupied _ _ _)); reflexivity.
  - unfold Rules.canMoveHorse. cbv zeta.
    destruct (_ || _); [|reflexivity].
    destruct (_ =? 1); destruct (negb (Rules.occupied _ _ _)); reflexivity.
  - unfold Rules.canMoveChariot.
    destruct (negb (_ =? _) && _); [reflexivity|].
    destruct (Rules.isPathClear _ _ _ _); reflexivity.
  - unfold Rules.canMoveCannon, Rules.occupied.
    destruct (negb (_ =? _) && _); [reflexivity|].
    rewrite andb_true_r. now destruct (GameModel.getPieceAt g x y).
  - unfold Rules.canMoveSoldier. cbv zeta.
    destruct (negb (_ =? 1)); [reflexivity|].
    rewrite soldier_rules_agree.
    match goal with
    | |- (if ?blocked then _ else _) = _ => destruct blocked; reflexivity
    end.
Qed.

(** X1.  [canMove] accepts a move exactly when [canMoveWithoutCheck], the
    copy of the movement rules that [isInCheck] uses, accepts it and,
    unless the piece is a cannon, the move does not leave the mover's side
    in check. *)
Theorem canMove_is_pseudo_legal_and_safe (p : PieceModel.t) (x y : Z)
    (g : GameModel.t) :
  Rules.canMove p x y g
  = Rules.canMoveWithoutCheck p x y g
    && (PieceType_eqb (PieceModel.type p) CANNON
        || negb (Rules.wouldBeInCheckAfterMove p x y g)).
Proof. apply canMove_split. Qed.

(** ** The movement rules, piece by piece *)

Lemma admissibleTarget_guards (g : GameModel.t) (p : PieceModel.t) (x y : Z) :
  admissibleTarget g p x y
  <-> Position.isValid (Position.mk x y) = true /\ Rules.ownPieceAt p x y g = false.
Proof.
  unfold admissibleTarget, Position.isValid, Rules.ownPieceAt, BOARD_WIDTH, BOARD_HEIGHT.
  cbn [Position.x Position.y].
  rewrite !andb_true_iff, !Z.geb_le, !Z.leb_le.
  destruct (GameModel.getPieceAt g x y) as [q|].
  - split.
    + intros [Hb Hq]. split; [lia|].
      apply not_true_is_false. intros E. apply PieceColor_eqb_eq in E.
      now apply (Hq q).
    + intros [Hb Hq]. split; [lia|]. intros q' [= <-] E.
      rewrite E, PieceColor_eqb_refl in Hq. discriminate.
  - split.
    + intros [Hb _]. split; [lia|reflexivity].
    + intros [Hb _]. split; [lia|]. discriminate.
Qed.

Lemma canMoveWithoutCheck_guards (p : PieceModel.t) (x y : Z) (g : GameModel.t)
    (rule : bool) :
  (Position.isValid (Position.mk x y) = true -> Rules.ownPieceAt p x y g = false ->
   Rules.canMoveWithoutCheck p x y g = rule) ->
  forall R : Prop, (rule = true <-> R) ->
  (Rules.canMoveWithoutCheck p x y g = true <-> admissibleTarget g p x y /\ R).
Proof.
  intros Hbody R HR. rewrite admissibleTarget_guards. split.
  - intros H.
    assert (E1 : Position.isValid (Position.mk x y) = true).
    { unfold Rules.canMoveWithoutCheck in H.
      destruct (Position.isValid (Position.mk x y)); [reflexivity|discriminate H]. }
    assert (E2 : Rules.ownPieceAt p x y g = false).
    { unfold Rules.canMoveWithoutCheck in H. rewrite E1 in H.
      destruct (Rules.ownPieceAt p x y g); [discriminate H|reflexivity]. }
    split; [now split|]. apply HR. now rewrite <- (Hbody E1 E2).
  - intros [[E1 E2] HRule]. rewrite (Hbody E1 E2). now apply HR.
Qed.

Lemma isInPalace_spec (x y : Z) (c : PieceColor) :
  Rules.isInPalace x y c = true <-> inPalace c x y.
Proof.
  unfold Rules.isInPalace, inPalace. destruct c; simpl;
    rewrite !andb_true_iff, !orb_true_iff, !Z.eqb_eq; lia.
Qed.

Lemma occupied_false_emptySquare (g : GameModel.t) (x y : Z) :
  Rules.occupied g x y = false <-> emptySquare g x y.
Proof. apply occupied_false_iff. Qed.

(** X2.  The general and the advisor.  [canMoveWithoutCheck] accepts a
    move of a general exactly when the target is admissible, lies in the
    palace of its side and is one step away along a rank or file; a move
    of an advisor, when the target is admissible, lies in the palace and
    is one step away diagonally.  So no move [canMove] accepts takes
    either of them out of the palace. *)
Theorem general_and_advisor_keep_to_the_palace (p : PieceModel.t) (x y : Z)
    (g : GameModel.t) :
  let dx := Z.abs (x - PieceModel.px p) in
  let dy := Z.abs (y - PieceModel.py p) in
  (PieceModel.type p = KING ->
   (Rules.canMoveWithoutCheck p x y g = true
    <-> admissibleTarget g p x y
        /\ inPalace (PieceModel.color p) x y /\ dx + dy = 1))
  /\ (PieceModel.type p = ADVISOR ->
      (Rules.canMoveWithoutCheck p x y g = true
       <-> admissibleTarget g p x y
           /\ inPalace (PieceModel.color p) x y /\ dx = 1 /\ dy = 1))
  /\ (PieceModel.type p = KING \/ PieceModel.type p = ADVISOR ->
      Rules.canMove p x y g = true -> inPalace (PieceModel.color p) x y).
Proof.
  intros dx dy.
  assert (Hking : PieceModel.type p = KING ->
            (Rules.canMoveWithoutCheck p x y g = true
             <-> admissibleTarget g p x y
                 /\ inPalace (PieceModel.color p) x y /\ dx + dy = 1)).
  { intros Hty.
    apply canMoveWithoutCheck_guards
      with (rule := Rules.isInPalace x y (PieceModel.color p)
                    && Rules.oneStepOrthogonal dx dy).
    - intros E1 E2. unfold Rules.canMoveWithoutCheck. now rewrite E1, E2, Hty.
    - rewrite andb_true_iff, isInPalace_spec. unfold Rules.oneStepOrthogonal.
      rewrite orb_true_iff, !andb_true_iff, !Z.eqb_eq.
      subst dx dy. split; intros [Hp Hstep]; (split; [exact Hp|lia]). }
  assert (Hadvisor : PieceModel.type p = ADVISOR ->
            (Rules.canMoveWithoutCheck p x y g = true
             <-> admissibleTarget g p x y
                 /\ inPalace (PieceModel.color p) x y /\ dx = 1 /\ dy = 1)).
  { intros Hty.
    apply canMoveWithoutCheck_guards
      with (rule := Rules.isInPalace x y (PieceModel.color p) && (dx =? 1) && (dy =? 1)).
    - intros E1 E2. unfold Rules.canMoveWithoutCheck. now rewrite E1, E2, Hty.
    - rewrite !andb_true_iff, isInPalace_spec, !Z.eqb_eq. tauto. }
  split; [exact Hking|]. split; [exact Hadvisor|].
  intros Hty Hmove. rewrite canMove_split in Hmove.
  apply andb_true_iff in Hmove. destruct Hmove as [Hpseudo _].
  destruct Hty as [Hty|Hty];
    [apply (Hking Hty) in Hpseudo|apply (Hadvisor Hty) in Hpseudo]; tauto.
Qed.

Lemma general_and_advisor_keep_to_the_palace_witness :
  Rules.canMove (livePiece KING RED 4 9 "r0") 4 8 startingLayout = true
  /\ inPalace RED 4 8
  /\ Rules.canMoveWithoutCheck (livePiece ADVISOR RED 3 9 "r1") 4 8 startingLayout = true.
Proof.
  destruct (general_and_advisor_keep_to_the_palace
              (livePiece KING RED 4 9 "r0") 4 8 startingLayout) as [_ [_ Hin]].
  destruct (general_and_advisor_keep_to_the_palace
              (livePiece ADVISOR RED 3 9 "r1") 4 8 startingLayout) as [_ [Hadv _]].
  assert (Hmove : Rules.canMove (livePiece KING RED 4 9 "r0") 4 8 startingLayout = true)
    by (vm_compute; reflexivity).
  split; [exact Hmove|]. split; [exact (Hin (or_introl eq_refl) Hmove)|].
  apply (Hadv eq_refl). split; [|split; [|split]].
  - split; [split; lia|]. intros q Hq. vm_compute in Hq. discriminate Hq.
  - unfold inPalace. simpl. lia.
  - reflexivity.
  - reflexivity.
Defined.

(** X3.  The elephant.  [canMoveWithoutCheck] accepts a move of an elephant
    exactly when the target is admissible, lies on the elephant's own side
    of the river (ranks 5 to 9 for red, 0 to 4 for black), is two files
    and two ranks away, and the square half way (the eye) is empty.  So
    no move [canMove] accepts takes an elephant across the river. *)
Theorem elephant_keeps_to_its_side (p : PieceModel.t) (x y : Z) (g : GameModel.t) :
  PieceModel.type p = ELEPHANT ->
  let ownSide := match PieceModel.color p with RED => 5 <= y | BLACK => y <= 4 end in
  (Rules.canMoveWithoutCheck p x y g = true
   <-> admissibleTarget g p x y /\ ownSide
       /\ Z.abs (x - PieceModel.px p) = 2 /\ Z.abs (y - PieceModel.py p) = 2
       /\ emptySquare g ((PieceModel.px p + x) / 2) ((PieceModel.py p + y) / 2))
  /\ (Rules.canMove p x y g = true -> ownSide).
Proof.
  intros Hty ownSide.
  assert (Hrule : Rules.canMoveWithoutCheck p x y g = true
                  <-> admissibleTarget g p x y /\ ownSide
                      /\ Z.abs (x - PieceModel.px p) = 2 /\ Z.abs (y - PieceModel.py p) = 2
                      /\ emptySquare g ((PieceModel.px p + x) / 2)
                                       ((PieceModel.py p + y) / 2)).
  { apply canMoveWithoutCheck_guards
      with (rule :=
              if (PieceColor_eqb (PieceModel.color p) RED && (y <? 5))
                 || (PieceColor_eqb (PieceModel.color p) BLACK && (y >? 4))
              then false
              else if (Z.abs (x - PieceModel.px p) =? 2) && (Z.abs (y - PieceModel.py p) =? 2)
              then negb (Rules.occupied g ((PieceModel.px p + x) / 2)
                                          ((PieceModel.py p + y) / 2))
              else false).
    - intros E1 E2. unfold Rules.canMoveWithoutCheck. now rewrite E1, E2, Hty.
    - rewrite <- occupied_false_emptySquare. subst ownSide.
      rewrite Z.gtb_ltb.
      destruct (PieceModel.color p); simpl;
        destruct (Z.ltb_spec y 5), (Z.ltb_spec 4 y),
                 (Z.eqb_spec (Z.abs (x - PieceModel.px p)) 2),
                 (Z.eqb_spec (Z.abs (y - PieceModel.py p)) 2);
        simpl; try rewrite negb_true_iff;
        try (split; [discriminate|intros; exfalso; lia]);
        (split; [intros; repeat split; auto; lia|tauto]). }
  split; [exact Hrule|].
  intros Hmove. rewrite canMove_split in Hmove.
  apply andb_true_iff in Hmove. destruct Hmove as [Hpseudo _].
  apply Hrule in Hpseudo. tauto.
Qed.

Lemma elephant_keeps_to_its_side_witness :
  Rules.canMove (livePiece ELEPHANT RED 2 9 "r3") 4 7 startingLayout = true
  /\ 5 <= 7.
Proof.
  assert (Hmove : Rules.canMove (livePiece ELEPHANT RED 2 9 "r3") 4 7 startingLayout
                  = true) by (vm_compute; reflexivity).
  split; [exact Hmove|].
  exact (proj2 (elephant_keeps_to_its_side (livePiece ELEPHANT RED 2 9 "r3") 4 7
                  startingLayout eq_refl) Hmove).
Defined.

(** X4.  The horse.  [canMoveWithoutCheck] accepts a move of a horse exactly
    when the target is admissible and either one file and two ranks away
    with the square next to the horse on its file (the leg) empty, or two
    files and one rank away with the square next to it on its rank
    empty. *)
Theorem horse_moves_in_an_L_with_a_free_leg (p : PieceModel.t) (x y : Z)
    (g : GameModel.t) :
  PieceModel.type p = HORSE ->
  let dx := Z.abs (x - PieceModel.px p) in
  let dy := Z.abs (y - PieceModel.py p) in
  Rules.canMoveWithoutCheck p x y g = true
  <-> admissibleTarget g p x y
      /\ ((dx = 1 /\ dy = 2
           /\ emptySquare g (PieceModel.px p) ((PieceModel.py p + y) / 2)
           /\ Z.abs ((PieceModel.py p + y) / 2 - PieceModel.py p) = 1)
          \/ (dx = 2 /\ dy = 1
              /\ emptySquare g ((PieceModel.px p + x) / 2) (PieceModel.py p)
              /\ Z.abs ((PieceModel.px p + x) / 2 - PieceModel.px p) = 1)).
Proof.
  intros Hty dx dy.
  apply canMoveWithoutCheck_guards
    with (rule :=
            if ((dx =? 1) && (dy =? 2)) || ((dx =? 2) && (dy =? 1)) then
              if dx =? 1
              then negb (Rules.occupied g (PieceModel.px p) ((PieceModel.py p + y) / 2))
              else negb (Rules.occupied g ((PieceModel.px p + x) / 2) (PieceModel.py p))
            else false).
  - intros E1 E2. unfold Rules.canMoveWithoutCheck. now rewrite E1, E2, Hty.
  - rewrite <- !occupied_false_emptySquare.
    assert (Hmidy : dy = 2 -> Z.abs ((PieceModel.py p + y) / 2 - PieceModel.py p) = 1).
    { subst dy. intros H.
      assert (y = PieceModel.py p + 2 \/ y = PieceModel.py p - 2) as [->| ->] by lia.
      - replace (PieceModel.py p + (PieceModel.py p + 2))
          with ((PieceModel.py p + 1) * 2) by lia.
        rewrite Z.div_mul by lia. lia.
      - replace (PieceModel.py p + (PieceModel.py p - 2))
          with ((PieceModel.py p - 1) * 2) by lia.
        rewrite Z.div_mul by lia. lia. }
    assert (Hmidx : dx = 2 -> Z.abs ((PieceModel.px p + x) / 2 - PieceModel.px p) = 1).
    { subst dx. intros H.
      assert (x = PieceModel.px p + 2 \/ x = PieceModel.px p - 2) as [->| ->] by lia.
      - replace (PieceModel.px p + (PieceModel.px p + 2))
          with ((PieceModel.px p + 1) * 2) by lia.
        rewrite Z.div_mul by lia. lia.
      - replace (PieceModel.px p + (PieceModel.px p - 2))
          with ((PieceModel.px p - 1) * 2) by lia.
        rewrite Z.div_mul by lia. lia. }
    destruct (Z.eqb_spec dx 1), (Z.eqb_spec dy 2), (Z.eqb_spec dx 2), (Z.eqb_spec dy 1);
      simpl; try rewrite !negb_true_iff;
      try (exfalso; lia);
      try (split; [discriminate|intros [[? [? _]]|[? [? _]]]; exfalso; lia]).
    + split.
      * intros H. left. auto.
      * intros [[_ [_ [H _]]]|[Hdx _]]; [exact H|exfalso; lia].
    + split.
      * intros H. right. auto.
      * intros [[Hdx _]|[_ [_ [H _]]]]; [exfalso; lia|exact H].
Qed.

Lemma horse_moves_in_an_L_with_a_free_leg_witness :
  Rules.canMoveWithoutCheck (livePiece HORSE RED 1 9 "r5") 2 7 startingLayout = true
  /\ emptySquare startingLayout 1 ((9 + 7) / 2).
Proof.
  assert (Hmove : Rules.canMoveWithoutCheck (livePiece HORSE RED 1 9 "r5") 2 7
                    startingLayout = true) by (vm_compute; reflexivity).
  split; [exact Hmove|].
  apply (horse_moves_in_an_L_with_a_free_leg (livePiece HORSE RED 1 9 "r5") 2 7
           startingLayout eq_refl) in Hmove.
  destruct Hmove as [_ [[_ [_ [Hleg _]]]|[Hdx _]]]; [exact Hleg|].
  vm_compute in Hdx. discriminate Hdx.
Defined.

Lemma isPathClear_livePiecesBetween (c : PieceModel.t) (tx ty : Z) (g : GameModel.t) :
  Rules.isPathClear c tx ty g = true
  <-> livePiecesBetween g (PieceModel.position c) (Position.mk tx ty) = [].
Proof.
  rewrite isPathClear_mountCount, mountCount_occupiedSquares.
  unfold occupiedSquaresBetween.
  destruct (livePiecesBetween g _ _) as [|q qs] eqn:E; [simpl; tauto|].
  split; [|discriminate].
  intros Hlen. exfalso.
  assert (Hin : In (PieceModel.position q)
                   (nodup Position_eq_dec (map PieceModel.position (q :: qs)))).
  { apply nodup_In. now left. }
  destruct (nodup Position_eq_dec (map PieceModel.position (q :: qs)));
    [contradiction|discriminate].
Qed.

(** X5.  The chariot.  [canMoveWithoutCheck] accepts a move of a chariot
    exactly when the target is admissible, lies on the chariot's file or
    rank, and no live piece stands strictly between the two. *)
Theorem chariot_moves_along_a_clear_line (p : PieceModel.t) (x y : Z)
    (g : GameModel.t) :
  PieceModel.type p = CHARIOT ->
  Rules.canMoveWithoutCheck p x y g = true
  <-> admissibleTarget g p x y
      /\ (PieceModel.px p = x \/ PieceModel.py p = y)
      /\ livePiecesBetween g (PieceModel.position p) (Position.mk x y) = [].
Proof.
  intros Hty.
  apply canMoveWithoutCheck_guards
    with (rule :=
            if negb (PieceModel.px p =? x) && negb (PieceModel.py p =? y) then false
            else Rules.isPathClear p x y g).
  - intros E1 E2. unfold Rules.canMoveWithoutCheck. now rewrite E1, E2, Hty.
  - rewrite <- isPathClear_livePiecesBetween.
    destruct (Z.eqb_spec (PieceModel.px p) x), (Z.eqb_spec (PieceModel.py p) y); simpl;
      try tauto.
    split; [discriminate|]. intros [[?|?] _]; contradiction.
Qed.

Lemma chariot_moves_along_a_clear_line_witness :
  Rules.canMoveWithoutCheck (livePiece CHARIOT RED 0 9 "r7") 0 7 startingLayout = true.
Proof.
  apply (chariot_moves_along_a_clear_line (livePiece CHARIOT RED 0 9 "r7") 0 7
           startingLayout eq_refl).
  split; [|split].
  - split; [split; lia|]. intros q Hq. vm_compute in Hq. discriminate Hq.
  - now left.
  - reflexivity.
Defined.

(** X6.  The soldier.  [canMoveWithoutCheck] accepts a move of a soldier
    exactly when the target is admissible, one step away along a rank or
    file, and not backwards (a red soldier never moves to a higher rank,
    a black one never to a lower rank); while the soldier is still on its
    own side of the river (rank above 4 for red, below 5 for black) the
    step must be forwards. *)
Theorem soldier_never_retreats (p : PieceModel.t) (x y : Z) (g : GameModel.t) :
  PieceModel.type p = SOLDIER ->
  let py := PieceModel.py p in
  let forwardOrSideways :=
    match PieceModel.color p with
    | RED => y <= py /\ (4 < py -> y < py)
    | BLACK => py <= y /\ (py < 5 -> py < y)
    end in
  (Rules.canMoveWithoutCheck p x y g = true
   <-> admissibleTarget g p x y
       /\ Z.abs (x - PieceModel.px p) + Z.abs (y - py) = 1
       /\ forwardOrSideways)
  /\ (Rules.canMove p x y g = true -> forwardOrSideways).
Proof.
  intros Hty py forwardOrSideways.
  assert (Hrule : Rules.canMoveWithoutCheck p x y g = true
                  <-> admissibleTarget g p x y
                      /\ Z.abs (x - PieceModel.px p) + Z.abs (y - py) = 1
                      /\ forwardOrSideways).
  { apply canMoveWithoutCheck_guards
      with (rule :=
              if negb (Z.abs (x - PieceModel.px p) + Z.abs (y - py) =? 1) then false
              else if PieceColor_eqb (PieceModel.color p) RED && (py >? 4) && (y >=? py)
              then false
              else if PieceColor_eqb (PieceModel.color p) BLACK && (py <? 5) && (y <=? py)
              then false
              else if PieceColor_eqb (PieceModel.color p) RED && (y >? py) then false
              else if PieceColor_eqb (PieceModel.color p) BLACK && (y <? py) then false
              else true).
    - intros E1 E2. unfold Rules.canMoveWithoutCheck. now rewrite E1, E2, Hty.
    - subst forwardOrSideways. rewrite !Z.gtb_ltb, !Z.geb_leb.
      destruct (Z.eqb_spec (Z.abs (x - PieceModel.px p) + Z.abs (y - py)) 1);
        destruct (PieceModel.color p); simpl;
        destruct (Z.ltb_spec 4 py), (Z.leb_spec py y), (Z.ltb_spec py y),
                 (Z.ltb_spec py 5), (Z.leb_spec y py), (Z.ltb_spec y py);
        simpl; try (exfalso; lia);
        try (split; [discriminate|intros; exfalso; lia]);
        (split; [intros _; lia|reflexivity]). }
  split; [exact Hrule|].
  intros Hmove. rewrite canMove_split in Hmove.
  apply andb_true_iff in Hmove. destruct Hmove as [Hpseudo _].
  apply Hrule in Hpseudo. tauto.
Qed.

Lemma soldier_never_retreats_witness :
  Rules.canMove (livePiece SOLDIER RED 0 6 "r11") 0 5 startingLayout = true
  /\ (5 <= 6 /\ (4 < 6 -> 5 < 6)).
Proof.
  assert (Hmove : Rules.canMove (livePiece SOLDIER RED 0 6 "r11") 0 5 startingLayout
                  = true) by (vm_compute; reflexivity).
  split; [exact Hmove|].
  exact (proj2 (soldier_never_retreats (livePiece SOLDIER RED 0 6 "r11") 0 5
                  startingLayout eq_refl) Hmove).
Defined.

(** ** Facing generals and the end of the game *)

(** X7.  When each side has at most one live general, [isKingFaceToFace]
    answers true exactly when both generals are alive, stand on one file
    and have no live piece strictly between them. *)
Theorem isKingFaceToFace_iff_generals_face (g : GameModel.t) :
  oneGeneralPerSide g ->
  (Rules.isKingFaceToFace g = true <-> generalsFacing g).
Proof.
  intros Hone. split; [|apply facing_isKingFaceToFace].
  unfold Rules.isKingFaceToFace.
  destruct (find (Rules.isLiveKingOf RED) (GameModel.pieces g)) as [rk|] eqn:Er;
    [|discriminate].
  destruct (find (Rules.isLiveKingOf BLACK) (GameModel.pieces g)) as [bk|] eqn:Eb;
    [|discriminate].
  apply find_some in Er, Eb. destruct Er as [Hrin Hr], Eb as [Hbin Hb].
  apply isLiveKingOf_spec in Hr, Hb.
  destruct (Z.eqb_spec (PieceModel.px rk) (PieceModel.px bk)) as [Hfile|]; simpl;
    [|discriminate].
  intros Hopen. exists rk, bk.
  split; [|split; [|split]].
  - split; [exact Hrin|]. split; [exact Hr|].
    intros k' Hin' Hk'. now apply (Hone RED).
  - split; [exact Hbin|]. split; [exact Hb|].
    intros k' Hin' Hk'. now apply (Hone BLACK).
  - exact Hfile.
  - intros q Hq Halive Hx Hbetween.
    rewrite forallb_forall in Hopen.
    specialize (Hopen (PieceModel.py q)).
    rewrite negb_true_iff, occupied_false_iff in Hopen.
    apply (Hopen ltac:(apply zrange_In; lia) q Hq Halive). now split.
Qed.

Lemma isKingFaceToFace_iff_generals_face_witness :
  Rules.isKingFaceToFace (bareGenerals RED) = true <-> generalsFacing (bareGenerals RED).
Proof.
  apply (isKingFaceToFace_iff_generals_face (bareGenerals RED)).
  intros c k k' Hk Hk' [_ [_ Hc]] [_ [_ Hc']].
  destruct Hk as [<-|[<-|[]]], Hk' as [<-|[<-|[]]];
    try reflexivity; simpl in Hc, Hc'; congruence.
Defined.

Lemma hasValidMove_spec (g : GameModel.t) :
  existsb (fun p => 0 <? Z.of_nat (length (Rules.getValidMoves p g)))
          (GameModel.getCurrentTurnPieces g) = true
  <-> hasLegalMove g.
Proof.
  unfold hasLegalMove, GameModel.getCurrentTurnPieces, GameModel.getPiecesByColor.
  rewrite existsb_exists. split.
  - intros [p [Hp Hmoves]]. apply filter_In in Hp. destruct Hp as [Hp Hcond].
    apply andb_true_iff in Hcond. destruct Hcond as [Ha Hc].
    apply PieceColor_eqb_eq in Hc.
    destruct (Rules.getValidMoves p g) as [|[x y] rest] eqn:E; [discriminate|].
    exists p, x, y. repeat split; auto.
    apply getValidMoves_In. rewrite E. now left.
  - intros [p [x [y [Hp [Ha [Hc Hmove]]]]]]. exists p. split.
    + apply filter_In. split; [exact Hp|]. rewrite Ha. simpl.
      now apply PieceColor_eqb_eq.
    + apply getValidMoves_In in Hmove.
      destruct (Rules.getValidMoves p g); [contradiction|reflexivity].
Qed.

Lemma existsb_hasGeneral_iff (g : GameModel.t) (c : PieceColor) :
  existsb (Rules.isLiveKingOf c) (GameModel.pieces g) = true <-> hasGeneral g c.
Proof.
  split; [|apply existsb_hasGeneral].
  intros H. apply existsb_exists in H. destruct H as [k [Hin Hk]].
  exists k. split; [exact Hin|]. now apply isLiveKingOf_spec.
Qed.

(** X8.  The four outcomes of [checkGameOver].  Black wins when red has no
    live general; otherwise red wins when black has none; otherwise the
    side to move wins when the generals face each other; otherwise the
    opponent of the side to move wins when that side has no legal move
    (stalemate or mate); otherwise the game goes on.  So the game goes on
    exactly when both generals are alive, do not face each other, and the
    side to move has a legal move. *)
Theorem checkGameOver_outcomes (g : GameModel.t) :
  (Rules.checkGameOver g = None
   <-> hasGeneral g RED /\ hasGeneral g BLACK
       /\ Rules.isKingFaceToFace g = false /\ hasLegalMove g)
  /\ (hasGeneral g RED -> hasGeneral g BLACK ->
      Rules.isKingFaceToFace g = false -> ~ hasLegalMove g ->
      Rules.checkGameOver g = Some (opponentOf (GameModel.currentTurn g)))
  /\ (hasGeneral g RED -> hasGeneral g BLACK ->
      Rules.isKingFaceToFace g = true ->
      Rules.checkGameOver g = Some (GameModel.currentTurn g))
  /\ (hasGeneral g RED -> ~ hasGeneral g BLACK -> Rules.checkGameOver g = Some RED)
  /\ (~ hasGeneral g RED -> Rules.checkGameOver g = Some BLACK).
Proof.
  unfold Rules.checkGameOver. cbv zeta.
  rewrite <- !existsb_hasGeneral_iff, <- hasValidMove_spec.
  destruct (existsb (Rules.isLiveKingOf RED) (GameModel.pieces g));
    destruct (existsb (Rules.isLiveKingOf BLACK) (GameModel.pieces g));
    destruct (Rules.isKingFaceToFace g);
    destruct (existsb _ (GameModel.getCurrentTurnPieces g));
    destruct (GameModel.currentTurn g);
    simpl; repeat split; try tauto; try discriminate; try congruence;
    intros; try congruence; intuition discriminate.
Qed.

Lemma checkGameOver_outcomes_witness :
  Rules.checkGameOver blackGeneralTaken = Some RED
  /\ Rules.checkGameOver blackStalemated = Some RED.
Proof.
  split.
  - destruct (checkGameOver_outcomes blackGeneralTaken) as [_ [_ [_ [Hred _]]]].
    apply Hred.
    + exists (livePiece KING RED 4 9 "rk"). split; [now left|]. now repeat split.
    + intros [k [Hk Hlive]]. exact (blackGeneralTaken_noGeneral k Hk Hlive).
  - destruct (checkGameOver_outcomes blackStalemated) as [_ [Hstale _]].
    apply Hstale.
    + exists (livePiece KING RED 5 9 "rk"). split; [now left|]. now repeat split.
    + exists (livePiece KING BLACK 3 0 "bk"). split; [right; now left|].
      now repeat split.
    + reflexivity.
    + rewrite <- hasValidMove_spec. vm_compute. discriminate.
Defined.

(** ** The rules look at the pieces only *)

Lemma existsb_pointwise {A : Type} (f h : A -> bool) (l : list A) :
  (forall a, f a = h a) -> existsb f l = existsb h l.
Proof.
  intros H. induction l as [|a l IH]; simpl; [reflexivity|]. now rewrite H, IH.
Qed.

Lemma canMoveWithoutCheck_pieces (g1 g2 : GameModel.t) (p : PieceModel.t) (x y : Z) :
  GameModel.pieces g1 = GameModel.pieces g2 ->
  Rules.canMoveWithoutCheck p x y g1 = Rules.canMoveWithoutCheck p x y g2.
Proof.
  intros H.
  unfold Rules.canMoveWithoutCheck, Rules.ownPieceAt, Rules.hasExactlyOneCannonMount,
    Rules.mountCount, Rules.isPathClear, Rules.occupied, GameModel.getPieceAt.
  now rewrite H.
Qed.

Lemma isKingFaceToFace_pieces (g1 g2 : GameModel.t) :
  GameModel.pieces g1 = GameModel.pieces g2 ->
  Rules.isKingFaceToFace g1 = Rules.isKingFaceToFace g2.
Proof.
  intros H. unfold Rules.isKingFaceToFace, Rules.occupied, GameModel.getPieceAt.
  now rewrite H.
Qed.

Lemma isInCheck_pieces (g1 g2 : GameModel.t) (c : PieceColor) :
  GameModel.pieces g1 = GameModel.pieces g2 ->
  Rules.isInCheck c g1 = Rules.isInCheck c g2.
Proof.
  intros H. unfold Rules.isInCheck, GameModel.getPiecesByColor.
  rewrite (isKingFaceToFace_pieces g1 g2 H), H.
  destruct (find _ _); [|reflexivity].
  destruct (Rules.isKingFaceToFace g2); [reflexivity|].
  apply existsb_pointwise. intros q. now apply canMoveWithoutCheck_pieces.
Qed.

Lemma wouldBeInCheckAfterMove_pieces (g1 g2 : GameModel.t) (p : PieceModel.t)
    (x y : Z) :
  GameModel.pieces g1 = GameModel.pieces g2 ->
  Rules.wouldBeInCheckAfterMove p x y g1 = Rules.wouldBeInCheckAfterMove p x y g2.
Proof.
  intros H. unfold Rules.wouldBeInCheckAfterMove, Rules.simulateMove.
  cbn [GameModel.pieces GameModel.clone]. rewrite H.
  destruct (findIndex _ _); [|reflexivity].
  now apply isInCheck_pieces.
Qed.

Lemma canMove_pieces (g1 g2 : GameModel.t) (p : PieceModel.t) (x y : Z) :
  GameModel.pieces g1 = GameModel.pieces g2 ->
  Rules.canMove p x y g1 = Rules.canMove p x y g2.
Proof.
  intros H. rewrite !canMove_split.
  now rewrite (canMoveWithoutCheck_pieces g1 g2 p x y H),
              (wouldBeInCheckAfterMove_pieces g1 g2 p x y H).
Qed.

Lemma getValidMoves_pieces (g1 g2 : GameModel.t) (p : PieceModel.t) :
  GameModel.pieces g1 = GameModel.pieces g2 ->
  Rules.getValidMoves p g1 = Rules.getValidMoves p g2.
Proof.
  intros H. rewrite !getValidMoves_filter. apply filter_ext. intros s.
  now apply canMove_pieces.
Qed.

(** X9.  The rules read nothing of a game but its pieces, and
    [checkGameOver] the side to move besides: two games with the same
    pieces get the same answers from [isInCheck], [canMove] and
    [getValidMoves], whatever their selection, cached moves, state,
    winner, check flag, history and mode; with the same side to move they
    get the same answer from [checkGameOver]. *)
Theorem rules_read_pieces_and_turn_only (g1 g2 : GameModel.t) :
  GameModel.pieces g1 = GameModel.pieces g2 ->
  (forall c, Rules.isInCheck c g1 = Rules.isInCheck c g2)
  /\ (forall p x y, Rules.canMove p x y g1 = Rules.canMove p x y g2)
  /\ (forall p, Rules.getValidMoves p g1 = Rules.getValidMoves p g2)
  /\ (GameModel.currentTurn g1 = GameModel.currentTurn g2 ->
      Rules.checkGameOver g1 = Rules.checkGameOver g2).
Proof.
  intros H.
  pose proof (fun p x y => canMove_pieces g1 g2 p x y H) as Hmove.
  pose proof (fun p => getValidMoves_pieces g1 g2 p H) as Hmoves.
  split; [intros c; now apply isInCheck_pieces|].
  split; [exact Hmove|]. split; [exact Hmoves|].
  intros Hturn. unfold Rules.checkGameOver, GameModel.getCurrentTurnPieces,
                  GameModel.getPiecesByColor.
  rewrite (isKingFaceToFace_pieces g1 g2 H), H, Hturn.
  repeat (match goal with
          | |- (if ?b then _ else _) = (if ?b then _ else _) => destruct b; [reflexivity|]
          end).
  assert (E : existsb (fun piece => 0 <? Z.of_nat (length (Rules.getValidMoves piece g1)))
                (filter (fun piece => PieceModel.isAlive piece
                                      && PieceColor_eqb (PieceModel.color piece)
                                                        (GameModel.currentTurn g2))
                        (GameModel.pieces g2))
              = existsb (fun piece => 0 <? Z.of_nat (length (Rules.getValidMoves piece g2)))
                  (filter (fun piece => PieceModel.isAlive piece
                                        && PieceColor_eqb (PieceModel.color piece)
                                                          (GameModel.currentTurn g2))
                          (GameModel.pieces g2))).
  { apply existsb_pointwise. intros q. now rewrite Hmoves. }
  now rewrite E.
Qed.

Lemma rules_read_pieces_and_turn_only_witness :
  Rules.getValidMoves (livePiece HORSE RED 1 9 "r5")
    (Game.selectPiece "r5" (GameModel.clone startingLayout))
  = Rules.getValidMoves (livePiece HORSE RED 1 9 "r5") startingLayout.
Proof.
  apply (rules_read_pieces_and_turn_only
           (Game.selectPiece "r5" (GameModel.clone startingLayout)) startingLayout).
  reflexivity.
Defined.

(** ** A move played on a copy *)

Lemma nth_error_updateAt {A : Type} (f : A -> A) (l : list A) (i k : nat) :
  nth_error (updateAt i f l) k
  = if Nat.eqb k i then option_map f (nth_error l k) else nth_error l k.
Proof.
  revert i k. induction l as [|a l IH]; intros i k.
  - destruct k, i; simpl; try reflexivity; now destruct (Nat.eqb _ _).
  - destruct i, k; simpl; try reflexivity. apply IH.
Qed.

Lemma findIndex_Some {A : Type} (f : A -> bool) (l : list A) (j : nat) :
  findIndex f l = Some j ->
  exists a, nth_error l j = Some a /\ f a = true
            /\ forall k b, (k < j)%nat -> nth_error l k = Some b -> f b = false.
Proof.
  revert j. induction l as [|a l IH]; intros j; simpl; [discriminate|].
  destruct (f a) eqn:Ea.
  - intros [= <-]. exists a. repeat split; auto. intros k b Hk. lia.
  - destruct (findIndex f l) as [j'|]; [|discriminate].
    intros [= <-]. destruct (IH j' eq_refl) as [b [Hb [Hfb Hmin]]].
    exists b. repeat split; auto.
    intros k c Hk Hc. destruct k; simpl in Hc.
    + now injection Hc as <-.
    + apply (Hmin k c); [lia|exact Hc].
Qed.

Lemma findIndex_None {A : Type} (f : A -> bool) (l : list A) :
  findIndex f l = None -> forall a, In a l -> f a = false.
Proof.
  induction l as [|a l IH]; simpl; [contradiction|].
  destruct (f a) eqn:Ea; [discriminate|].
  destruct (findIndex f l); [discriminate|].
  intros _ b [<-|Hb]; [exact Ea|now apply IH].
Qed.

Lemma find_findIndex {A : Type} (f : A -> bool) (l : list A) :
  find f l = match findIndex f l with Some j => nth_error l j | None => None end.
Proof.
  induction l as [|a l IH]; simpl; [reflexivity|].
  destruct (f a); [reflexivity|]. rewrite IH. now destruct (findIndex f l).
Qed.

Lemma Forall2_updateAt {A : Type} (R : A -> A -> Prop) (f : A -> A) (i : nat)
    (l l' : list A) :
  (forall a b, R a b -> R a (f b)) ->
  Forall2 R l l' -> Forall2 R l (updateAt i f l').
Proof.
  intros Hf H. revert i. induction H as [|a b l l' Hab Hl IH]; intros i.
  - destruct i; constructor.
  - destruct i; simpl; constructor; auto.
Qed.

Lemma Forall2_same {A : Type} (R : A -> A -> Prop) (l : list A) :
  (forall a, R a a) -> Forall2 R l l.
Proof. intros H. induction l; constructor; auto. Qed.

Lemma live_count_updateAt_kill (i : nat) (l : list PieceModel.t) :
  (length (filter PieceModel.isAlive l)
   <= S (length (filter PieceModel.isAlive (updateAt i PieceModel.kill l))))%nat.
Proof.
  revert i. induction l as [|a l IH]; intros i; [destruct i; simpl; lia|].
  destruct i; simpl.
  - destruct (PieceModel.isAlive a); simpl; lia.
  - specialize (IH i). destruct (PieceModel.isAlive a); simpl; lia.
Qed.

Lemma live_count_updateAt_moveTo (i : nat) (t : Position.t) (l : list PieceModel.t) :
  length (filter PieceModel.isAlive (updateAt i (fun p => PieceModel.moveTo p t) l))
  = length (filter PieceModel.isAlive l).
Proof.
  revert i. induction l as [|a l IH]; intros i; [destruct i; reflexivity|].
  destruct i; simpl.
  - destruct (PieceModel.isAlive a); reflexivity.
  - destruct (PieceModel.isAlive a); simpl; now rewrite (IH i).
Qed.

(** What [simulateMove] leaves of the game it was given. *)
Lemma simulateMove_pieces (pid : string) (t : Position.t) (g g' : GameModel.t) :
  Rules.simulateMove pid t g = Some g' ->
  exists i,
    findIndex (fun p => String.eqb (PieceModel.id p) pid) (GameModel.pieces g) = Some i
    /\ GameModel.currentTurn g' = GameModel.currentTurn g
    /\ GameModel.pieces g'
       = updateAt i (fun p => PieceModel.moveTo p t)
           (match findIndex (GameModel.occupies (Position.x t) (Position.y t))
                            (GameModel.pieces g) with
            | Some j => updateAt j PieceModel.kill (GameModel.pieces g)
            | None => GameModel.pieces g
            end).
Proof.
  unfold Rules.simulateMove. cbn [GameModel.pieces GameModel.clone].
  rewrite clone_pieces.
  destruct (findIndex _ (GameModel.pieces g)) as [i|]; [|discriminate].
  intros [= <-]. exists i. repeat split.
Qed.

(** X10.  A simulated move keeps the cast.  The game [simulateMove] returns
    has the same side to move and, place by place, the same pieces: each
    with its id, type and side, at its old square or at the target, and
    alive only if it was alive.  At most one live piece is lost. *)
Theorem simulateMove_keeps_the_cast (pid : string) (t : Position.t)
    (g g' : GameModel.t) :
  Rules.simulateMove pid t g = Some g' ->
  GameModel.currentTurn g' = GameModel.currentTurn g
  /\ Forall2 (fun p p' =>
                PieceModel.id p' = PieceModel.id p
                /\ PieceModel.type p' = PieceModel.type p
                /\ PieceModel.color p' = PieceModel.color p
                /\ (PieceModel.isAlive p' = true -> PieceModel.isAlive p = true)
                /\ (PieceModel.position p' = PieceModel.position p
                    \/ PieceModel.position p' = t))
             (GameModel.pieces g) (GameModel.pieces g')
  /\ (length (filter PieceModel.isAlive (GameModel.pieces g))
      <= S (length (filter PieceModel.isAlive (GameModel.pieces g'))))%nat.
Proof.
  intros H. destruct (simulateMove_pieces pid t g g' H) as [i [_ [Hturn Hps]]].
  split; [exact Hturn|]. rewrite Hps. split.
  - apply Forall2_updateAt.
    { intros a b [Hid [Hty [Hc [Ha Hpos]]]]. simpl. repeat split; auto. }
    destruct (findIndex (GameModel.occupies _ _) _).
    + apply Forall2_updateAt.
      { intros a b [Hid [Hty [Hc [Ha Hpos]]]]. simpl. repeat split; auto.
        discriminate. }
      apply Forall2_same. intros a. repeat split; auto.
    + apply Forall2_same. intros a. repeat split; auto.
  - rewrite live_count_updateAt_moveTo.
    destruct (findIndex (GameModel.occupies _ _) _); [|lia].
    apply live_count_updateAt_kill.
Qed.

Lemma simulateMove_keeps_the_cast_witness :
  exists g',
    Rules.simulateMove "r7" (Position.mk 0 7) startingLayout = Some g'
    /\ GameModel.currentTurn g' = RED
    /\ length (GameModel.pieces g') = 32%nat.
Proof.
  eexists. split; [reflexivity|].
  destruct (simulateMove_keeps_the_cast "r7" (Position.mk 0 7) startingLayout _ eq_refl)
    as [Hturn [Hcast _]].
  split; [exact Hturn|].
  apply Forall2_length in Hcast. rewrite <- Hcast. reflexivity.
Defined.

Lemma noOverlap_index (l : list PieceModel.t) :
  NoDup (map PieceModel.position (filter PieceModel.isAlive l))
  <-> (forall i j p q,
          nth_error l i = Some p -> nth_error l j = Some q ->
          PieceModel.isAlive p = true -> PieceModel.isAlive q = true ->
          PieceModel.position p = PieceModel.position q -> i = j).
Proof.
  induction l as [|a l IH].
  - split; [|constructor]. intros _ i j p q Hp. destruct i; discriminate.
  - assert (Hclash : forall q, In q l -> PieceModel.isAlive q = true ->
                               In (PieceModel.position q)
                                  (map PieceModel.position (filter PieceModel.isAlive l))).
    { intros q Hq Ha. apply in_map. now apply filter_In. }
    split.
    + intros Hnd i j p q Hp Hq Hap Haq Hpos.
      assert (Htail : NoDup (map PieceModel.position (filter PieceModel.isAlive l))).
      { simpl in Hnd. destruct (PieceModel.isAlive a); [|exact Hnd].
        now inversion Hnd. }
      destruct i, j; simpl in Hp, Hq.
      * reflexivity.
      * exfalso. injection Hp as <-. simpl in Hnd. rewrite Hap in Hnd.
        inversion Hnd as [|x xs Hnotin _]. subst. apply Hnotin.
        rewrite Hpos. apply Hclash; [eapply nth_error_In, Hq|exact Haq].
      * exfalso. injection Hq as <-. simpl in Hnd. rewrite Haq in Hnd.
        inversion Hnd as [|x xs Hnotin _]. subst. apply Hnotin.
        rewrite <- Hpos. apply Hclash; [eapply nth_error_In, Hp|exact Hap].
      * f_equal. now apply (proj1 IH Htail i j p q).
    + intros H.
      assert (Htail : NoDup (map PieceModel.position (filter PieceModel.isAlive l))).
      { apply IH. intros i j p q Hp Hq Hap Haq Hpos.
        assert (S i = S j) by (now apply (H (S i) (S j) p q)). lia. }
      simpl. destruct (PieceModel.isAlive a) eqn:Ea; [|exact Htail].
      simpl. constructor; [|exact Htail].
      intros Hin. apply in_map_iff in Hin. destruct Hin as [q [Hpos Hq]].
      apply filter_In in Hq. destruct Hq as [Hq Haq].
      apply In_nth_error in Hq. destruct Hq as [k Hk].
      assert (O = S k) by (now apply (H O (S k) a q)). discriminate.
Qed.

(** A piece that is alive after a simulated move stood alive at the same
    place of the list before, was not the piece taken, and stands on the
    target if it is the mover and where it stood otherwise. *)
Lemma simulateMove_live_piece (pid : string) (t : Position.t) (g g' : GameModel.t)
    (i : nat) :
  Rules.simulateMove pid t g = Some g' ->
  findIndex (fun p => String.eqb (PieceModel.id p) pid) (GameModel.pieces g) = Some i ->
  forall k q',
    nth_error (GameModel.pieces g') k = Some q' -> PieceModel.isAlive q' = true ->
    exists q,
      nth_error (GameModel.pieces g) k = Some q /\ PieceModel.isAlive q = true
      /\ findIndex (GameModel.occupies (Position.x t) (Position.y t)) (GameModel.pieces g)
         <> Some k
      /\ q' = (if Nat.eqb k i then PieceModel.moveTo q t else q).
Proof.
  intros H Hi k q' Hk Ha.
  destruct (simulateMove_pieces pid t g g' H) as [i' [Hi' [_ Hps]]].
  rewrite Hi in Hi'. injection Hi' as <-.
  rewrite Hps, nth_error_updateAt in Hk.
  destruct (findIndex (GameModel.occupies _ _) (GameModel.pieces g)) as [j|].
  - rewrite nth_error_updateAt in Hk.
    destruct (Nat.eqb_spec k j) as [->|Hkj].
    + exfalso. destruct (nth_error (GameModel.pieces g) j) as [q|];
        destruct (Nat.eqb j i); simpl in Hk; try discriminate;
        injection Hk as <-; simpl in Ha; discriminate.
    + destruct (nth_error (GameModel.pieces g) k) as [q|];
        [|destruct (Nat.eqb k i); discriminate].
      exists q. destruct (Nat.eqb k i); simpl in Hk; injection Hk as <-;
        simpl in Ha; repeat split; auto; congruence.
  - destruct (nth_error (GameModel.pieces g) k) as [q|];
      [|destruct (Nat.eqb k i); discriminate].
    exists q. destruct (Nat.eqb k i); simpl in Hk; injection Hk as <-;
      simpl in Ha; repeat split; auto; discriminate.
Qed.

Lemma occupant_is_first (g : GameModel.t) (t : Position.t) (k : nat) (q : PieceModel.t) :
  noOverlap g ->
  nth_error (GameModel.pieces g) k = Some q -> PieceModel.isAlive q = true ->
  PieceModel.position q = t ->
  findIndex (GameModel.occupies (Position.x t) (Position.y t)) (GameModel.pieces g)
  = Some k.
Proof.
  intros Hno Hk Ha Hpos.
  assert (Hocc : GameModel.occupies (Position.x t) (Position.y t) q = true).
  { unfold GameModel.occupies, PieceModel.px, PieceModel.py.
    now rewrite Ha, Hpos, !Z.eqb_refl. }
  destruct (findIndex _ (GameModel.pieces g)) as [j|] eqn:Ej.
  - destruct (findIndex_Some _ _ _ Ej) as [a [Hj [Hocca _]]].
    unfold GameModel.occupies, PieceModel.px, PieceModel.py in Hocca.
    rewrite !andb_true_iff, !Z.eqb_eq in Hocca. destruct Hocca as [[Haa Hx] Hy].
    f_equal. apply (proj1 (noOverlap_index _) Hno j k a q Hj Hk Haa Ha).
    rewrite Hpos. destruct (PieceModel.position a), t. cbn in *. congruence.
  - apply nth_error_In in Hk. rewrite (findIndex_None _ _ Ej q Hk) in Hocc.
    discriminate.
Qed.

(** X11.  When no two live pieces share a square, none do after a
    simulated move. *)
Theorem simulateMove_keeps_pieces_apart (pid : string) (t : Position.t)
    (g g' : GameModel.t) :
  noOverlap g -> Rules.simulateMove pid t g = Some g' -> noOverlap g'.
Proof.
  intros Hno H. destruct (simulateMove_pieces pid t g g' H) as [i [Hi _]].
  apply noOverlap_index. intros k1 k2 q1 q2 Hk1 Hk2 Ha1 Ha2 Hpos.
  destruct (simulateMove_live_piece pid t g g' i H Hi k1 q1 Hk1 Ha1)
    as [p1 [Hp1 [Hl1 [Hj1 E1]]]].
  destruct (simulateMove_live_piece pid t g g' i H Hi k2 q2 Hk2 Ha2)
    as [p2 [Hp2 [Hl2 [Hj2 E2]]]].
  destruct (Nat.eqb_spec k1 i) as [->|N1], (Nat.eqb_spec k2 i) as [->|N2];
    subst q1 q2; simpl in Hpos.
  - reflexivity.
  - exfalso. apply Hj2. now apply (occupant_is_first g t k2 p2).
  - exfalso. apply Hj1. now apply (occupant_is_first g t k1 p1).
  - now apply (proj1 (noOverlap_index _) Hno k1 k2 p1 p2).
Qed.

Lemma simulateMove_keeps_pieces_apart_witness :
  exists g',
    Rules.simulateMove "rp" (Position.mk 4 1)
      (cannonFile [livePiece SOLDIER RED 4 4 "rs"]) = Some g'
    /\ noOverlap g'.
Proof.
  eexists. split; [reflexivity|].
  apply (simulateMove_keeps_pieces_apart "rp" (Position.mk 4 1)
           (cannonFile [livePiece SOLDIER RED 4 4 "rs"]) _ cannonFile_noOverlap).
  reflexivity.
Defined.

Lemma findIndex_of_id (ps : list PieceModel.t) (p : PieceModel.t) :
  NoDup (map PieceModel.id ps) -> In p ps ->
  exists i,
    findIndex (fun q => String.eqb (PieceModel.id q) (PieceModel.id p)) ps = Some i
    /\ nth_error ps i = Some p.
Proof.
  intros Hnd Hin.
  destruct (findIndex_some (fun q => String.eqb (PieceModel.id q) (PieceModel.id p))
                           ps p Hin (String.eqb_refl _)) as [i Hi].
  exists i. split; [exact Hi|].
  destruct (findIndex_Some _ _ _ Hi) as [a [Ha [Hid _]]].
  apply String.eqb_eq in Hid.
  apply In_nth_error in Hin. destruct Hin as [k Hk].
  assert (E : i = k).
  { apply (proj1 (NoDup_nth_error _) Hnd).
    - rewrite length_map. apply nth_error_Some. congruence.
    - rewrite !nth_error_map, Ha, Hk. simpl. now rewrite Hid. }
  subst k. congruence.
Qed.

(** X12.  Where the mover ends up.  In a game whose ids are unique and
    whose live pieces stand on distinct squares, simulating the move of a
    live piece to another square gives a game in which the target holds
    that piece, relocated, and the square it left is empty. *)
Theorem simulateMove_puts_the_mover_on_the_target (g : GameModel.t)
    (p : PieceModel.t) (t : Position.t) :
  NoDup (map PieceModel.id (GameModel.pieces g)) ->
  noOverlap g ->
  In p (GameModel.pieces g) -> PieceModel.isAlive p = true ->
  PieceModel.position p <> t ->
  exists g',
    Rules.simulateMove (PieceModel.id p) t g = Some g'
    /\ GameModel.getPieceAt g' (Position.x t) (Position.y t)
       = Some (PieceModel.moveTo p t)
    /\ emptySquare g' (PieceModel.px p) (PieceModel.py p).
Proof.
  intros Hids Hno Hin Halive Hpos.
  destruct (simulateMove_defined p t g Hin) as [g' Hg']. exists g'.
  split; [exact Hg'|].
  destruct (findIndex_of_id _ p Hids Hin) as [i [Hi Hnth]].
  assert (Hmover : nth_error (GameModel.pieces g') i = Some (PieceModel.moveTo p t)).
  { destruct (simulateMove_pieces _ t g g' Hg') as [i' [Hi' [_ Hps]]].
    rewrite Hi in Hi'. injection Hi' as <-.
    rewrite Hps, nth_error_updateAt, Nat.eqb_refl.
    destruct (findIndex (GameModel.occupies _ _) (GameModel.pieces g)) as [j|] eqn:Ej;
      [|now rewrite Hnth].
    rewrite nth_error_updateAt.
    destruct (Nat.eqb_spec i j) as [->|_]; [|now rewrite Hnth].
    exfalso. destruct (findIndex_Some _ _ _ Ej) as [a [Ha [Hocc _]]].
    rewrite Hnth in Ha. injection Ha as <-.
    unfold GameModel.occupies, PieceModel.px, PieceModel.py in Hocc.
    rewrite !andb_true_iff, !Z.eqb_eq in Hocc. apply Hpos.
    destruct (PieceModel.position p), t. cbn in *. f_equal; tauto. }
  split.
  - unfold GameModel.getPieceAt.
    destruct (find _ (GameModel.pieces g')) as [q'|] eqn:Ef.
    + apply find_some in Ef. destruct Ef as [Hq' Hocc].
      unfold GameModel.occupies, PieceModel.px, PieceModel.py in Hocc.
      rewrite !andb_true_iff, !Z.eqb_eq in Hocc. destruct Hocc as [[Ha' Hx] Hy].
      apply In_nth_error in Hq'. destruct Hq' as [k Hk].
      destruct (simulateMove_live_piece _ t g g' i Hg' Hi k q' Hk Ha')
        as [q [Hq [Hlq [Hj E]]]].
      destruct (Nat.eqb_spec k i) as [->|Hki].
      * rewrite Hmover in Hk. congruence.
      * exfalso. subst q'. apply Hj. apply (occupant_is_first g t k q Hno Hq Hlq).
        destruct (PieceModel.position q), t. cbn in *. congruence.
    + exfalso. apply nth_error_In in Hmover.
      apply (find_none _ _ Ef) in Hmover.
      unfold GameModel.occupies, PieceModel.px, PieceModel.py in Hmover.
      simpl in Hmover. rewrite Halive, !Z.eqb_refl in Hmover. discriminate.
  - intros q' Hq' Ha' [Hx Hy].
    apply In_nth_error in Hq'. destruct Hq' as [k Hk].
    destruct (simulateMove_live_piece _ t g g' i Hg' Hi k q' Hk Ha')
      as [q [Hq [Hlq [_ E]]]].
    assert (Hsame : PieceModel.position q' = PieceModel.position p).
    { unfold PieceModel.px, PieceModel.py in Hx, Hy.
      destruct (PieceModel.position q'), (PieceModel.position p). cbn in *. congruence. }
    destruct (Nat.eqb_spec k i) as [->|Hki]; subst q'.
    + simpl in Hsame. congruence.
    + apply Hki. now apply (proj1 (noOverlap_index _) Hno k i q p).
Qed.

Lemma simulateMove_puts_the_mover_on_the_target_witness :
  exists g',
    Rules.simulateMove "rp" (Position.mk 4 1)
      (cannonFile [livePiece SOLDIER RED 4 4 "rs"]) = Some g'
    /\ GameModel.getPieceAt g' 4 1 = Some (livePiece CANNON RED 4 1 "rp")
    /\ emptySquare g' 4 7.
Proof.
  apply (simulateMove_puts_the_mover_on_the_target
           (cannonFile [livePiece SOLDIER RED 4 4 "rs"])
           (livePiece CANNON RED 4 7 "rp") (Position.mk 4 1)).
  - simpl. repeat (constructor; [simpl; intuition discriminate|]). constructor.
  - apply cannonFile_noOverlap.
  - now left.
  - reflexivity.
  - discriminate.
Defined.

(** X13.  The search plays a move as the legality test does.  For a piece
    of a game with unique ids and a target that holds no live piece of
    its side (so for every legal move), [AIWorker.executeMove] on a copy
    of the game gives the very game [Rules.simulateMove] gives. *)
Theorem executeMove_agrees_with_simulateMove (g : GameModel.t) (m : Move) :
  NoDup (map PieceModel.id (GameModel.pieces g)) ->
  In (piece m) (GameModel.pieces g) ->
  (forall q, GameModel.getPieceAt g (Position.x (target m)) (Position.y (target m))
             = Some q ->
             PieceModel.color q <> PieceModel.color (piece m)) ->
  Rules.simulateMove (PieceModel.id (piece m)) (target m) g
  = Some (AIWorker.executeMove m (GameModel.clone g)).
Proof.
  intros Hids Hin Hfree.
  destruct (findIndex_of_id _ (piece m) Hids Hin) as [i [Hi Hnth]].
  unfold Rules.simulateMove, AIWorker.executeMove.
  cbn [GameModel.pieces GameModel.clone]. rewrite clone_pieces, Hi.
  f_equal. f_equal. f_equal.
  rewrite (nth_error_nth _ _ _ Hnth).
  unfold GameModel.getPieceAt in Hfree. rewrite find_findIndex in Hfree.
  destruct (findIndex (GameModel.occupies _ _) (GameModel.pieces g)) as [j|] eqn:Ej;
    [|reflexivity].
  destruct (findIndex_Some _ _ _ Ej) as [q [Hq _]].
  rewrite (nth_error_nth _ _ _ Hq).
  destruct (PieceColor_eqb (PieceModel.color q) (PieceModel.color (piece m))) eqn:E;
    [|reflexivity].
  apply PieceColor_eqb_eq in E. exfalso. now apply (Hfree q).
Qed.

Lemma executeMove_agrees_with_simulateMove_witness :
  Rules.simulateMove "r7" (Position.mk 0 7) startingLayout
  = Some (AIWorker.executeMove (mkMove (livePiece CHARIOT RED 0 9 "r7") (Position.mk 0 7))
            (GameModel.clone startingLayout)).
Proof.
  apply (executeMove_agrees_with_simulateMove startingLayout
           (mkMove (livePiece CHARIOT RED 0 9 "r7") (Position.mk 0 7))).
  - simpl. repeat (constructor; [simpl; intuition discriminate|]). constructor.
  - simpl. tauto.
  - intros q Hq. vm_compute in Hq. discriminate Hq.
Defined.

(** ** The machine's answer *)

Lemma moves_hasLegalMove (g : GameModel.t) :
  AIWorker.getAllValidMoves g <> [] -> hasLegalMove g.
Proof.
  intros Hne. destruct (AIWorker.getAllValidMoves g) as [|m ms] eqn:E; [congruence|].
  assert (Hm : legalMove g m) by (apply getAllValidMoves_legal; rewrite E; now left).
  destruct Hm as [Hin [Ha [Hc Hmove]]].
  now exists (piece m), (Position.x (target m)), (Position.y (target m)).
Qed.

Lemma AI_getAllValidMoves_own_turn (g : GameModel.t) :
  GameModel.currentTurn g = GameModel.aiPlayerColor g ->
  AI.getAllValidMoves g = AIWorker.getAllValidMoves g.
Proof.
  intros Hturn. unfold AI.getAllValidMoves, AIWorker.getAllValidMoves.
  now rewrite Hturn.
Qed.

Lemma AIWorker_tier_returns (pickBelow : Z) (difficulty : AIDifficulty)
    (g : GameModel.t) (aiColor : PieceColor) (validMoves : list Move) :
  validMoves <> [] ->
  Returns (fun o => exists m, o = Some m /\ In m validMoves)
    (match difficulty with
     | EASY => AIWorker.chooseRandomMove validMoves
     | MEDIUM => AIWorker.chooseMediumMove validMoves g
     | HARD =>
         bestMove <- AIWorker.chooseHardMove pickBelow validMoves g aiColor ;;
         Ret (Some bestMove)
     end).
Proof.
  intros Hne. destruct difficulty.
  - now apply pick_returns.
  - now apply AIWorker_chooseMediumMove_returns.
  - eapply Returns_bind; [now apply AIWorker_chooseHardMove_returns|].
    intros m Hm. constructor. now exists m.
Qed.

Lemma AI_tier_returns (g : GameModel.t) (validMoves : list Move) :
  validMoves <> [] ->
  Returns (fun o => exists m, o = Some m /\ In m validMoves)
    (match GameModel.aiDifficulty g with
     | EASY => AI.chooseRandomMove validMoves
     | MEDIUM => AI.chooseMediumMove validMoves g
     | HARD => Ret (AI.chooseHardMove validMoves g)
     end).
Proof.
  intros Hne. destruct (GameModel.aiDifficulty g).
  - now apply pick_returns.
  - now apply AI_chooseMediumMove_returns.
  - constructor. now apply AI_chooseHardMove_member.
Qed.

Lemma checkGameOver_None_hasLegalMove (g : GameModel.t) :
  Rules.checkGameOver g = None -> hasLegalMove g.
Proof.
  unfold Rules.checkGameOver. cbv zeta. rewrite <- hasValidMove_spec.
  destruct (negb (existsb (Rules.isLiveKingOf RED) (GameModel.pieces g)));
    [discriminate|].
  destruct (negb (existsb (Rules.isLiveKingOf BLACK) (GameModel.pieces g)));
    [discriminate|].
  destruct (Rules.isKingFaceToFace g); [discriminate|].
  destruct (existsb _ (GameModel.getCurrentTurnPieces g)); [reflexivity|discriminate].
Qed.

(** X14.  On the machine's own turn [makeMove] answers [null] exactly when
    the side to move has no legal move, at every tier and whatever is drawn
    or read from the clock; and then [checkGameOver] has a winner, so the
    game is over.  This holds for [AIWorker.makeMove], given the game as
    data, and for [AI.makeMove]. *)
Theorem makeMove_null_on_own_turn_iff_no_legal_move (g : GameModel.t) :
  (forall data aiColor difficulty pickBelow w,
      GameModel.fromJSON data = Some g ->
      GameModel.currentTurn g = aiColor ->
      (fst (run (AIWorker.makeMove pickBelow data aiColor difficulty) w) = Some None
       <-> ~ hasLegalMove g)
      /\ (fst (run (AIWorker.makeMove pickBelow data aiColor difficulty) w) = Some None
          -> Rules.checkGameOver g <> None))
  /\ (forall w,
        GameModel.currentTurn g = GameModel.aiPlayerColor g ->
        (fst (run (AI.makeMove g) w) = Some None <-> ~ hasLegalMove g)
        /\ (fst (run (AI.makeMove g) w) = Some None -> Rules.checkGameOver g <> None)).
Proof.
  assert (Hworker : forall data aiColor difficulty pickBelow w,
             GameModel.fromJSON data = Some g ->
             GameModel.currentTurn g = aiColor ->
             (fst (run (AIWorker.makeMove pickBelow data aiColor difficulty) w)
              = Some None <-> ~ hasLegalMove g)).
  { intros data aiColor difficulty pickBelow w Hdata Hturn.
    unfold AIWorker.makeMove. rewrite Hdata, Hturn, PieceColor_eqb_refl. cbn [negb].
    destruct (AIWorker.getAllValidMoves g) as [|m0 ms] eqn:E.
    - simpl. split; [|reflexivity]. intros _ Hlegal.
      now apply hasLegalMove_moves in Hlegal.
    - rewrite length_eqb_0 by discriminate.
      destruct (Returns_run _ _
                  (AIWorker_tier_returns pickBelow difficulty g aiColor (m0 :: ms)
                     ltac:(discriminate)) w) as [o [Hrun [m [-> _]]]].
      rewrite Hrun. split; [discriminate|].
      intros Hno. exfalso. apply Hno, moves_hasLegalMove. rewrite E. discriminate. }
  assert (Hmain : forall w,
             GameModel.currentTurn g = GameModel.aiPlayerColor g ->
             (fst (run (AI.makeMove g) w) = Some None <-> ~ hasLegalMove g)).
  { intros w Hturn. unfold AI.makeMove.
    rewrite Hturn, PieceColor_eqb_refl. cbn [negb].
    rewrite (AI_getAllValidMoves_own_turn g Hturn).
    destruct (AIWorker.getAllValidMoves g) as [|m0 ms] eqn:E.
    - simpl. split; [|reflexivity]. intros _ Hlegal.
      now apply hasLegalMove_moves in Hlegal.
    - rewrite length_eqb_0 by discriminate.
      destruct (Returns_run _ _ (AI_tier_returns g (m0 :: ms) ltac:(discriminate)) w)
        as [o [Hrun [m [-> _]]]].
      rewrite Hrun. split; [discriminate|].
      intros Hno. exfalso. apply Hno, moves_hasLegalMove. rewrite E. discriminate. }
  split.
  - intros data aiColor difficulty pickBelow w Hdata Hturn.
    split; [now apply Hworker|].
    intros Hnull Hover. apply (Hworker _ _ _ _ _ Hdata Hturn) in Hnull.
    now apply Hnull, checkGameOver_None_hasLegalMove.
  - intros w Hturn. split; [now apply Hmain|].
    intros Hnull Hover. apply (Hmain _ Hturn) in Hnull.
    now apply Hnull, checkGameOver_None_hasLegalMove.
Qed.

Lemma makeMove_null_on_own_turn_iff_no_legal_move_witness :
  (fst (run (AIWorker.makeMove AIWorker.pickBelowSource
               (GameModel.toJSON blackStalemated) BLACK HARD) lowDraws) = Some None
   <-> ~ hasLegalMove blackStalemated)
  /\ (fst (run (AIWorker.makeMove AIWorker.pickBelowSource
                  (GameModel.toJSON blackStalemated) BLACK HARD) lowDraws) = Some None
      -> Rules.checkGameOver blackStalemated <> None).
Proof.
  destruct (makeMove_null_on_own_turn_iff_no_legal_move blackStalemated) as [Hworker _].
  apply (Hworker (GameModel.toJSON blackStalemated) BLACK HARD
                 AIWorker.pickBelowSource lowDraws).
  - apply GameModel_roundtrip.
  - reflexivity.
Defined.

(** X15.  Below the hard tier the two variants of the machine are one: on
    every game whose difficulty is easy or medium, [AIWorker.makeMove],
    given the game as data with the game's own machine colour and
    difficulty, and [AI.makeMove] run alike, with the same answer and the
    same draws. *)
Theorem worker_and_main_thread_agree_below_hard (g : GameModel.t) (pickBelow : Z)
    (w : World) :
  GameModel.aiDifficulty g <> HARD ->
  run (AIWorker.makeMove pickBelow (GameModel.toJSON g)
         (GameModel.aiPlayerColor g) (GameModel.aiDifficulty g)) w
  = run (AI.makeMove g) w.
Proof.
  intros Hnot. unfold AIWorker.makeMove, AI.makeMove.
  rewrite GameModel_roundtrip.
  destruct (PieceColor_eqb (GameModel.currentTurn g) (GameModel.aiPlayerColor g))
    eqn:Eturn; cbn [negb]; [|reflexivity].
  apply PieceColor_eqb_eq in Eturn.
  rewrite (AI_getAllValidMoves_own_turn g Eturn).
  destruct (Nat.eqb (length (AIWorker.getAllValidMoves g)) 0); [reflexivity|].
  destruct (GameModel.aiDifficulty g); [reflexivity|reflexivity|congruence].
Qed.

Lemma worker_and_main_thread_agree_below_hard_witness :
  run (AIWorker.makeMove AIWorker.pickBelowSource
         (GameModel.toJSON (gameWith (GameModel.pieces startingLayout) RED MEDIUM RED))
         RED MEDIUM) highDraws
  = run (AI.makeMove (gameWith (GameModel.pieces startingLayout) RED MEDIUM RED))
        highDraws.
Proof.
  apply (worker_and_main_thread_agree_below_hard
           (gameWith (GameModel.pieces startingLayout) RED MEDIUM RED)
           AIWorker.pickBelowSource highDraws).
  discriminate.
Defined.

Lemma pick_among (h : Move -> bool) (validMoves : list Move) :
  (0 <? Z.of_nat (length (filter h validMoves))) = true ->
  Returns (fun o => exists m, o = Some m /\ In m validMoves /\ h m = true)
          (AIWorker.chooseRandomMove (filter h validMoves)).
Proof.
  intros Hpos. unfold AIWorker.chooseRandomMove.
  eapply Returns_weaken; [|apply pick_returns].
  - intros o [m [-> Hm]]. exists m. split; [reflexivity|].
    now apply filter_In in Hm.
  - intros E. rewrite E in Hpos. discriminate.
Qed.

Lemma filter_empty_none {A : Type} (h : A -> bool) (l : list A) :
  (0 <? Z.of_nat (length (filter h l))) = false -> forall a, In a l -> h a = false.
Proof.
  intros Hlen a Ha. destruct (h a) eqn:E; [|reflexivity].
  assert (Hin : In a (filter h l)) by (apply filter_In; now split).
  destruct (filter h l); [contradiction|discriminate].
Qed.

(** X16.  The medium tier answers with one of the moves it is given, and
    prefers a check to a capture to anything else: if some move gives
    check the answer gives check, and if none does but some move lands on
    an occupied square then so does the answer.  The main-thread variant
    is the same computation. *)
Theorem medium_tier_prefers_check_then_capture (validMoves : list Move)
    (g : GameModel.t) (w : World) :
  validMoves <> [] ->
  (exists m,
      fst (run (AIWorker.chooseMediumMove validMoves g) w) = Some (Some m)
      /\ In m validMoves
      /\ ((exists m', In m' validMoves /\ AIWorker.wouldBeCheck m' g = true) ->
          AIWorker.wouldBeCheck m g = true)
      /\ ((forall m', In m' validMoves -> AIWorker.wouldBeCheck m' g = false) ->
          (exists m', In m' validMoves /\ AIWorker.captures m' g = true) ->
          AIWorker.captures m g = true))
  /\ AI.chooseMediumMove validMoves g = AIWorker.chooseMediumMove validMoves g.
Proof.
  intros Hne. split; [|reflexivity].
  assert (Hret : Returns
            (fun o => exists m,
                 o = Some m /\ In m validMoves
                 /\ ((exists m', In m' validMoves /\ AIWorker.wouldBeCheck m' g = true) ->
                     AIWorker.wouldBeCheck m g = true)
                 /\ ((forall m', In m' validMoves ->
                                 AIWorker.wouldBeCheck m' g = false) ->
                     (exists m', In m' validMoves /\ AIWorker.captures m' g = true) ->
                     AIWorker.captures m g = true))
            (AIWorker.chooseMediumMove validMoves g)).
  { unfold AIWorker.chooseMediumMove. cbv zeta.
    destruct (0 <? Z.of_nat (length (filter (fun m => AIWorker.wouldBeCheck m g)
                                            validMoves))) eqn:Echeck.
    - eapply Returns_weaken; [|apply pick_among, Echeck].
      intros o [m [-> [Hin Hm]]]. exists m. cbv beta in Hm.
      repeat split; auto.
      intros Hnone. rewrite (Hnone m Hin) in Hm. discriminate.
    - pose proof (filter_empty_none _ _ Echeck) as Hnocheck. cbv beta in Hnocheck.
      destruct (0 <? Z.of_nat (length (filter (fun m => AIWorker.captures m g)
                                              validMoves))) eqn:Ecapture.
      + eapply Returns_weaken; [|apply pick_among, Ecapture].
        intros o [m [-> [Hin Hm]]]. exists m. cbv beta in Hm.
        repeat split; auto.
        intros [m' [Hin' Hm']]. rewrite (Hnocheck m' Hin') in Hm'. discriminate.
      + pose proof (filter_empty_none _ _ Ecapture) as Hnocapture.
        cbv beta in Hnocapture.
        eapply Returns_weaken; [|apply pick_returns, Hne].
        intros o [m [-> Hin]]. exists m.
        repeat split; auto.
        * intros [m' [Hin' Hm']]. rewrite (Hnocheck m' Hin') in Hm'. discriminate.
        * intros _ [m' [Hin' Hm']]. rewrite (Hnocapture m' Hin') in Hm'.
          discriminate. }
  destruct (Returns_run _ _ Hret w) as [o [Hrun [m [-> Hm]]]].
  now exists m.
Qed.

Lemma medium_tier_prefers_check_then_capture_witness :
  (exists m,
      fst (run (AIWorker.chooseMediumMove
                  (AIWorker.getAllValidMoves chariotsAtTheGeneral)
                  chariotsAtTheGeneral) highDraws) = Some (Some m)
      /\ In m (AIWorker.getAllValidMoves chariotsAtTheGeneral)
      /\ ((exists m', In m' (AIWorker.getAllValidMoves chariotsAtTheGeneral)
                      /\ AIWorker.wouldBeCheck m' chariotsAtTheGeneral = true) ->
          AIWorker.wouldBeCheck m chariotsAtTheGeneral = true)
      /\ ((forall m', In m' (AIWorker.getAllValidMoves chariotsAtTheGeneral) ->
                      AIWorker.wouldBeCheck m' chariotsAtTheGeneral = false) ->
          (exists m', In m' (AIWorker.getAllValidMoves chariotsAtTheGeneral)
                      /\ AIWorker.captures m' chariotsAtTheGeneral = true) ->
          AIWorker.captures m chariotsAtTheGeneral = true))
  /\ AI.chooseMediumMove (AIWorker.getAllValidMoves chariotsAtTheGeneral)
       chariotsAtTheGeneral
     = AIWorker.chooseMediumMove (AIWorker.getAllValidMoves chariotsAtTheGeneral)
         chariotsAtTheGeneral.
Proof.
  apply (medium_tier_prefers_check_then_capture
           (AIWorker.getAllValidMoves chariotsAtTheGeneral) chariotsAtTheGeneral
           highDraws).
  vm_compute. discriminate.
Defined.

Lemma chooseHardMove_scan (g : GameModel.t) (ms : list Move) :
  forall (before after : list Move) (b : Move),
    (forall m', In m' before -> AI.evaluateMove m' g < AI.evaluateMove b g) ->
    (forall m', In m' after -> AI.evaluateMove m' g <= AI.evaluateMove b g) ->
    exists m before' after',
      fst (fold_left
             (fun best m =>
                let score := Fin (AI.evaluateMove m g) in
                if num_ltb (snd best) score then (Some m, score) else best)
             ms (Some b, Fin (AI.evaluateMove b g))) = Some m
      /\ before ++ b :: after ++ ms = before' ++ m :: after'
      /\ (forall m', In m' before' -> AI.evaluateMove m' g < AI.evaluateMove m g)
      /\ (forall m', In m' after' -> AI.evaluateMove m' g <= AI.evaluateMove m g).
Proof.
  induction ms as [|m ms IH]; intros before after b Hbefore Hafter.
  - exists b, before, after. rewrite app_nil_r. simpl. auto.
  - cbn [fold_left]. cbv zeta. cbn [snd num_ltb].
    destruct (Z.ltb_spec (AI.evaluateMove b g) (AI.evaluateMove m g)) as [Hlt|Hge].
    + destruct (IH (before ++ b :: after) [] m) as [m1 [b1 [a1 [H1 [H2 [H3 H4]]]]]].
      * intros m' Hm'. apply in_app_or in Hm'.
        destruct Hm' as [Hm'|[<-|Hm']]; [specialize (Hbefore _ Hm')| |
                                         specialize (Hafter _ Hm')]; lia.
      * intros m' [].
      * exists m1, b1, a1. repeat split; auto.
        rewrite <- H2. simpl. now rewrite <- app_assoc.
    + destruct (IH before (after ++ [m]) b) as [m1 [b1 [a1 [H1 [H2 [H3 H4]]]]]].
      * exact Hbefore.
      * intros m' Hm'. apply in_app_or in Hm'.
        destruct Hm' as [Hm'|[<-|[]]]; [now apply Hafter|exact Hge].
      * exists m1, b1, a1. repeat split; auto.
        rewrite <- H2. now rewrite <- app_assoc.
Qed.

(** X17.  The hard tier of the main-thread variant answers with the first
    of the moves of greatest [evaluateMove]: every move before it in the
    list scores strictly less, and none scores more. *)
Theorem main_thread_hard_tier_first_best (validMoves : list Move) (g : GameModel.t) :
  validMoves <> [] ->
  exists m before after,
    AI.chooseHardMove validMoves g = Some m
    /\ validMoves = before ++ m :: after
    /\ (forall m', In m' before -> AI.evaluateMove m' g < AI.evaluateMove m g)
    /\ (forall m', In m' after -> AI.evaluateMove m' g <= AI.evaluateMove m g).
Proof.
  intros Hne. destruct validMoves as [|m0 ms]; [congruence|].
  unfold AI.chooseHardMove. cbn [fold_left nth_error]. cbv zeta. cbn [snd num_ltb].
  destruct (chooseHardMove_scan g ms [] [] m0) as [m [b [a [H1 [H2 [H3 H4]]]]]];
    [intros m' []|intros m' []|].
  exists m, b, a. repeat split; auto.
Qed.

Lemma main_thread_hard_tier_first_best_witness :
  exists m before after,
    AI.chooseHardMove (AIWorker.getAllValidMoves chariotsAtTheGeneral)
      chariotsAtTheGeneral = Some m
    /\ AIWorker.getAllValidMoves chariotsAtTheGeneral = before ++ m :: after
    /\ (forall m', In m' before ->
          AI.evaluateMove m' chariotsAtTheGeneral < AI.evaluateMove m chariotsAtTheGeneral)
    /\ (forall m', In m' after ->
          AI.evaluateMove m' chariotsAtTheGeneral
          <= AI.evaluateMove m chariotsAtTheGeneral).
Proof.
  apply (main_thread_hard_tier_first_best
           (AIWorker.getAllValidMoves chariotsAtTheGeneral) chariotsAtTheGeneral).
  vm_compute. discriminate.
Defined.

(** ** The terms of the static evaluation *)

Lemma index_outside {A : Type} (l : list A) (i : Z) :
  i < 0 \/ Z.of_nat (length l) <= i -> AIWorker.index l i = None.
Proof.
  intros H. unfold AIWorker.index.
  destruct (Z.ltb_spec i 0) as [|Hi]; [reflexivity|].
  apply nth_error_None. lia.
Qed.

Lemma index_inside {A : Type} (l : list A) (i : Z) (n : nat) :
  i = Z.of_nat n -> AIWorker.index l i = nth_error l n.
Proof.
  intros ->. unfold AIWorker.index.
  destruct (Z.ltb_spec (Z.of_nat n) 0) as [|Hi]; [lia|].
  now rewrite Nat2Z.id.
Qed.

Lemma small_cases (i : Z) :
  i < 0 \/ 9 <= i
  \/ i = 0 \/ i = 1 \/ i = 2 \/ i = 3 \/ i = 4 \/ i = 5 \/ i = 6 \/ i = 7 \/ i = 8.
Proof. lia. Qed.

Lemma positionValues_rows (t : PieceType) (row : Z) (r : list Z) :
  AIWorker.index (AIWorker.positionValues t) row = Some r -> length r = 9%nat.
Proof.
  destruct (small_cases row) as [Hr|[Hr|Hr]].
  - rewrite index_outside by (left; exact Hr). discriminate.
  - rewrite index_outside by (right; destruct t; simpl; lia). discriminate.
  - destruct t; repeat (destruct Hr as [->|Hr]); try subst row;
      (vm_compute; intros [= <-]; reflexivity).
Qed.

(** The entry of a position table, [0] outside the table. *)
Lemma table_entry_symmetric_bounded (t : PieceType) (row col : Z) :
  let entry (c : Z) :=
    match AIWorker.index (AIWorker.positionValues t) row with
    | Some r => match AIWorker.index r c with Some v => v | None => 0 end
    | None => 0
    end in
  entry col = entry (8 - col) /\ 0 <= entry col <= 200.
Proof.
  cbv zeta.
  destruct (small_cases col) as [Hc|[Hc|Hc]].
  - destruct (AIWorker.index (AIWorker.positionValues t) row) as [r|] eqn:E; [|lia].
    apply positionValues_rows in E.
    rewrite (index_outside r col), (index_outside r (8 - col)) by lia. lia.
  - destruct (AIWorker.index (AIWorker.positionValues t) row) as [r|] eqn:E; [|lia].
    apply positionValues_rows in E.
    rewrite (index_outside r col), (index_outside r (8 - col)) by lia. lia.
  - destruct (small_cases row) as [Hr|[Hr|Hr]].
    + rewrite index_outside by (left; exact Hr). lia.
    + rewrite index_outside by (right; destruct t; simpl; lia). lia.
    + destruct t; repeat (destruct Hr as [->|Hr]); try subst row;
        repeat (destruct Hc as [->|Hc]); try subst col;
        (vm_compute; split; [reflexivity|split; discriminate]).
Qed.

(** X18.  The position bonus is symmetric between the left and the right
    half of the board: a piece on file [x] and the same piece on file
    [8 - x] of the same rank get the same bonus.  The bonus lies between
    [0] and [200], wherever the piece stands. *)
Theorem position_bonus_left_right_symmetric_and_bounded (t : PieceType)
    (c : PieceColor) (x y : Z) (alive : bool) (i : string) :
  AIWorker.getPositionValue (PieceModel.mk t c (Position.mk x y) alive i)
  = AIWorker.getPositionValue (PieceModel.mk t c (Position.mk (8 - x) y) alive i)
  /\ 0 <= AIWorker.getPositionValue (PieceModel.mk t c (Position.mk x y) alive i) <= 200.
Proof.
  unfold AIWorker.getPositionValue, PieceModel.px, PieceModel.py.
  cbn [PieceModel.type PieceModel.color PieceModel.position Position.x Position.y].
  destruct c.
  - apply (table_entry_symmetric_bounded t y x).
  - apply (table_entry_symmetric_bounded t (8 - y) x).
Qed.

Lemma fold_left_invariant {A B : Type} (P : A -> Prop) (f : A -> B -> A)
    (l : list B) (a : A) :
  P a -> (forall a b, P a -> P (f a b)) -> P (fold_left f l a).
Proof.
  intros Ha Hstep. revert a Ha.
  induction l as [|b l IH]; intros a Ha; simpl; auto.
Qed.

Lemma getPieceValue_range (p : PieceModel.t) :
  50 <= AIWorker.getPieceValue p <= 1000.
Proof. unfold AIWorker.getPieceValue. destruct (PieceModel.type p); lia. Qed.

(** X19.  The two safety terms of the static evaluation are never
    positive: [getSafetyValue] only subtracts, and [evaluateKingSafety]
    is [-1000] without a live general of the side and otherwise at most
    [0] and at least [-100] less [80] for every live piece of the other
    side ([20] for each attack on one of the four squares next to the
    general). *)
Theorem safety_terms_never_positive (p : PieceModel.t) (g : GameModel.t)
    (c : PieceColor) :
  AIWorker.getSafetyValue p g <= 0
  /\ AIWorker.evaluateKingSafety g c <= 0
  /\ (AIWorker.evaluateKingSafety g c = -1000 \/ -100 - 20 * 4 * Z.of_nat
        (length (GameModel.getPiecesByColor g (opponentOf c)))
      <= AIWorker.evaluateKingSafety g c).
Proof.
  split; [|].
  - unfold AIWorker.getSafetyValue. cbv zeta.
    apply fold_left_invariant with (P := fun v => v <= 0); [lia|].
    intros v q Hv. destruct (AIWorker.attacks _ _ _ _); [|exact Hv].
    destruct (Z.ltb_spec (AIWorker.getPieceValue q) (AIWorker.getPieceValue p));
      [|exact Hv].
    assert (0 <= (AIWorker.getPieceValue p - AIWorker.getPieceValue q) / 2)
      by (apply Z.div_pos; lia).
    lia.
  - unfold AIWorker.evaluateKingSafety.
    destruct (find _ (GameModel.pieces g)) as [king|]; [|lia].
    cbv zeta.
    set (opp := GameModel.getPiecesByColor g (opponentOf c)).
    assert (Hinner : forall sx sy n,
               n <= fold_left
                      (fun n' q => if AIWorker.attacks g sx sy q then n' + 1 else n')
                      opp n
               <= n + Z.of_nat (length opp)).
    { intros sx sy. induction opp as [|q opp' IH]; intros n; simpl; [lia|].
      destruct (AIWorker.attacks g sx sy q);
        [specialize (IH (n + 1))|specialize (IH n)]; lia. }
    assert (Hsquare : forall sx sy n,
               n <= (if (sx >=? 0) && (sx <=? 8) && (sy >=? 0) && (sy <=? 8)
                     then fold_left
                            (fun n' q => if AIWorker.attacks g sx sy q then n' + 1 else n')
                            opp n
                     else n)
               <= n + Z.of_nat (length opp)).
    { intros sx sy n. destruct (_ && _); [apply Hinner|lia]. }
    assert (Harea : forall (area : list (Z * Z)) n,
               n <= fold_left
                      (fun n square =>
                         let '(sx, sy) := square in
                         if (sx >=? 0) && (sx <=? 8) && (sy >=? 0) && (sy <=? 8) then
                           fold_left
                             (fun n' q => if AIWorker.attacks g sx sy q then n' + 1 else n')
                             opp n
                         else n)
                      area n
               <= n + Z.of_nat (length area) * Z.of_nat (length opp)).
    { induction area as [|[sx sy] area IH]; intros n; [simpl; lia|].
      cbn [fold_left].
      pose proof (Hsquare sx sy n) as Hn.
      match type of Hn with _ <= ?n1 <= _ => specialize (IH n1) end.
      cbn [length]. lia. }
    match goal with
    | |- context [fold_left ?f ?area 0] => pose proof (Harea area 0) as Hn
    end.
    cbn [length] in Hn.
    destruct (Rules.isInCheck c g); lia.
Qed.

(** ** Reading data that lacks properties *)

(** X20.  What [fromJSON] makes of missing properties.  A datum without
    [pieces] gives no game (the source throws on [data.pieces.map]).  A
    game written by [toJSON] and stripped of [gameMode], [aiDifficulty]
    and [aiPlayerColor] reads back as saved, history included, with the
    defaults two players, medium, machine black; a datum with nothing but
    the pieces reads as the initial state, red to move.  A piece written
    without [isAlive] reads as alive. *)
Theorem fromJSON_missing_properties (g : GameModel.t) (p : PieceModel.t) :
  (forall data, prop "pieces" data = None -> GameModel.fromJSON data = None)
  /\ GameModel.fromJSON
       (withoutProps ["gameMode"; "aiDifficulty"; "aiPlayerColor"]%string
                     (GameModel.toJSON g))
     = Some (GameModel.mk (GameModel.pieces g) (GameModel.currentTurn g)
               (GameModel.gameState g) (GameModel.winner g) (GameModel.isInCheck g)
               (GameModel.selectedPieceId g) (GameModel.validMoves g)
               (GameModel.history g) PVP MEDIUM BLACK)
  /\ GameModel.fromJSON
       (JObj [("pieces"%string, JArr (map PieceModel.toJSON (GameModel.pieces g)))])
     = Some (GameModel.mk (GameModel.pieces g) RED INIT None false None [] []
               PVP MEDIUM BLACK)
  /\ PieceModel.fromJSON (withoutProps ["isAlive"%string] (PieceModel.toJSON p))
     = Some (PieceModel.mk (PieceModel.type p) (PieceModel.color p)
               (PieceModel.position p) true (PieceModel.id p)).
Proof.
  split; [|split; [|split]].
  - intros [| | | | |props] Hnone; try reflexivity.
    cbn [GameModel.fromJSON]. cbv zeta. now rewrite Hnone.
  - destruct g as [ps turn state win chk sel moves hist mode diff aiColor].
    cbn -[PieceModel.fromJSON PieceModel.toJSON Position.ofPlain Position.toPlain].
    rewrite (mapOpt_roundtrip _ _ ps PieceModel_roundtrip).
    rewrite (mapOpt_roundtrip _ _ moves Position_roundtrip).
    assert (Hhist :
      (fix each (l : list json) : option (list GameModel.t) :=
         match l with
         | [] => Some []
         | i :: l' =>
             match GameModel.fromJSON i, each l' with
             | Some m, Some ms => Some (m :: ms)
             | _, _ => None
             end
         end) (map GameModel.toJSON hist) = Some hist).
    { induction hist as [|h hist IH]; [reflexivity|].
      cbn [map]. rewrite GameModel_roundtrip, IH. reflexivity. }
    rewrite Hhist.
    destruct turn, state, win as [[]|], sel; reflexivity.
  - cbn -[PieceModel.fromJSON PieceModel.toJSON].
    now rewrite (mapOpt_roundtrip _ _ (GameModel.pieces g) PieceModel_roundtrip).
  - destruct p as [[] [] [px py] al i]; reflexivity.
Qed.

Lemma fromJSON_missing_properties_witness :
  prop "pieces" (JObj [("currentTurn"%string, JStr "red")]) = None
  /\ GameModel.fromJSON (JObj [("currentTurn"%string, JStr "red")]) = None.
Proof.
  split; [reflexivity|].
  destruct (fromJSON_missing_properties startingLayout (livePiece KING RED 4 9 "r0"))
    as [Hmissing _].
  apply Hmissing. reflexivity.
Defined.

(** ** Screen coordinates *)

Lemma round_of_quotient (a c k : Z) :
  0 < c -> 2 * k * c <= 2 * a + c < 2 * (k + 1) * c ->
  Position.round (inject_Z a / inject_Z c)%Q = k.
Proof.
  intros Hc Hk. destruct c as [|cp|cp]; try lia.
  unfold Position.round, Qfloor, Qplus, Qdiv, Qmult, Qinv, inject_Z.
  cbn [Qnum Qden].
  rewrite !Z.mul_1_r, Pos.mul_1_l, Pos2Z.inj_mul.
  symmetry. apply Z.div_unique with (r := a * 2 + Z.pos cp - Z.pos cp * 2 * k); lia.
Qed.

Lemma Qminus_inject_Z (a b : Z) : (inject_Z a - inject_Z b == inject_Z (a - b))%Q.
Proof. unfold Qminus. now rewrite <- inject_Z_opp, <- inject_Z_plus. Qed.

Lemma round_comp (p q : Q) : (p == q)%Q -> Position.round p = Position.round q.
Proof. intros H. unfold Position.round. now rewrite H. Qed.

(** X21.  [fromScreen] always answers with an intersection of the board,
    so that [isInBoard] accepts every point; and it inverts [toScreen]
    with room to spare: a pixel that lies within less than half a cell,
    in both directions, of the screen point of an intersection is taken
    to that intersection (so a click right on the point is).  The cell
    size is positive; [updateCellSize] only ever sets one between
    [MIN_CELL_SIZE] and [MAX_CELL_SIZE]. *)
Theorem fromScreen_snaps_to_the_nearest_intersection (cellSize : Z) :
  0 < cellSize ->
  (forall screenX screenY : Q,
      Position.isValid (Position.fromScreen cellSize screenX screenY) = true
      /\ Board.isInBoard cellSize screenX screenY = true)
  /\ (forall (p : Position.t) (screenX screenY : Z),
        Position.isValid p = true ->
        2 * Z.abs (screenX - fst (Position.toScreen cellSize p)) < cellSize ->
        2 * Z.abs (screenY - snd (Position.toScreen cellSize p)) < cellSize ->
        Position.fromScreen cellSize (inject_Z screenX) (inject_Z screenY) = p)
  /\ (forall newSize : Z,
        MIN_CELL_SIZE <= updateCellSize newSize <= MAX_CELL_SIZE
        /\ 0 < updateCellSize newSize).
Proof.
  intros Hc. split; [|split].
  - intros sx sy.
    unfold Board.isInBoard, Board.screenToBoard, Position.fromScreen, Position.isValid.
    cbv zeta. cbn [Position.x Position.y]. unfold BOARD_WIDTH, BOARD_HEIGHT.
    repeat rewrite andb_true_iff. lia.
  - intros [x y] sx sy Hvalid Hx Hy.
    unfold Position.isValid, BOARD_WIDTH, BOARD_HEIGHT in Hvalid.
    cbn [Position.x Position.y] in Hvalid.
    repeat rewrite andb_true_iff in Hvalid.
    unfold Position.toScreen, EDGE_MARGIN in Hx, Hy.
    cbn [Position.x Position.y fst snd] in Hx, Hy.
    unfold Position.fromScreen. cbv zeta. unfold EDGE_MARGIN.
    rewrite (round_comp ((inject_Z sx - inject_Z 30) / inject_Z cellSize)%Q
                        (inject_Z (sx - 30) / inject_Z cellSize)%Q)
      by (apply Qdiv_comp; [apply Qminus_inject_Z|reflexivity]).
    rewrite (round_comp ((inject_Z sy - inject_Z 30) / inject_Z cellSize)%Q
                        (inject_Z (sy - 30) / inject_Z cellSize)%Q)
      by (apply Qdiv_comp; [apply Qminus_inject_Z|reflexivity]).
    rewrite (round_of_quotient (sx - 30) cellSize x) by nia.
    rewrite (round_of_quotient (sy - 30) cellSize y) by nia.
    unfold BOARD_WIDTH, BOARD_HEIGHT. f_equal; lia.
  - intros n. unfold updateCellSize, MIN_CELL_SIZE, MAX_CELL_SIZE. lia.
Qed.

Lemma fromScreen_snaps_to_the_nearest_intersection_witness :
  Position.fromScreen DEFAULT_CELL_SIZE (inject_Z 300) (inject_Z 140)
  = Position.mk 4 1.
Proof.
  destruct (fromScreen_snaps_to_the_nearest_intersection DEFAULT_CELL_SIZE)
    as [_ [Hsnap _]]; [reflexivity|].
  apply (Hsnap (Position.mk 4 1) 300 140); reflexivity.
Defined.

(** ** Moves of the controller: playing, taking back, selecting *)

Lemma movePieceBegin_frame (i : nat) (tx ty : Z) (g : GameModel.t) :
  GameModel.history (Game.movePieceBegin i tx ty g)
  = GameModel.history g ++ [GameModel.clone g]
  /\ GameModel.gameMode (Game.movePieceBegin i tx ty g) = GameModel.gameMode g
  /\ GameModel.aiDifficulty (Game.movePieceBegin i tx ty g) = GameModel.aiDifficulty g
  /\ GameModel.aiPlayerColor (Game.movePieceBegin i tx ty g) = GameModel.aiPlayerColor g
  /\ GameModel.currentTurn (Game.movePieceBegin i tx ty g) = GameModel.currentTurn g.
Proof.
  unfold Game.movePieceBegin. cbv zeta.
  destruct (nth_error _ i) as [mover|]; [|now repeat split].
  destruct (findIndex _ _) as [j|]; [|now repeat split].
  destruct (negb _); now repeat split.
Qed.

Lemma movePieceEnd_frame (i : nat) (tx ty : Z) (g : GameModel.t) :
  GameModel.history (Game.movePieceEnd i tx ty g) = GameModel.history g
  /\ GameModel.gameMode (Game.movePieceEnd i tx ty g) = GameModel.gameMode g
  /\ GameModel.aiDifficulty (Game.movePieceEnd i tx ty g) = GameModel.aiDifficulty g
  /\ GameModel.aiPlayerColor (Game.movePieceEnd i tx ty g) = GameModel.aiPlayerColor g.
Proof.
  unfold Game.movePieceEnd. cbv zeta.
  destruct (Rules.checkGameOver _); now repeat split.
Qed.

Lemma movePiece_frame (i : nat) (tx ty : Z) (g : GameModel.t) :
  GameModel.history (Game.movePiece i tx ty g)
  = GameModel.history g ++ [GameModel.clone g]
  /\ GameModel.gameMode (Game.movePiece i tx ty g) = GameModel.gameMode g
  /\ GameModel.aiDifficulty (Game.movePiece i tx ty g) = GameModel.aiDifficulty g
  /\ GameModel.aiPlayerColor (Game.movePiece i tx ty g) = GameModel.aiPlayerColor g.
Proof.
  unfold Game.movePiece.
  destruct (movePieceEnd_frame i tx ty (Game.movePieceBegin i tx ty g))
    as [-> [-> [-> ->]]].
  destruct (movePieceBegin_frame i tx ty g) as [-> [-> [-> [-> _]]]].
  now repeat split.
Qed.

Lemma undo_to (g target : GameModel.t) (before after : list GameModel.t) :
  GameModel.history g = before ++ target :: after ->
  length after
  = Nat.pred (Nat.min (match GameModel.gameMode g with PVE => 2%nat | PVP => 1%nat end)
                      (length (GameModel.history g))) ->
  Game.undo g
  = (true,
     GameModel.mk (GameModel.pieces target) (GameModel.currentTurn target)
       (GameModel.gameState target) (GameModel.winner target)
       (GameModel.isInCheck target) (GameModel.selectedPieceId target)
       (GameModel.validMoves target) before (GameModel.gameMode g)
       (GameModel.aiDifficulty g) (GameModel.aiPlayerColor g)).
Proof.
  intros Hhist Hlen. unfold Game.undo. cbv zeta.
  set (count := Nat.min _ (length (GameModel.history g))) in *.
  assert (Hcount : (1 <= count)%nat).
  { subst count. rewrite Hhist, length_app. cbn [length].
    destruct (GameModel.gameMode g); lia. }
  assert (Hat : (length (GameModel.history g) - count = length before)%nat).
  { rewrite Hhist, length_app. cbn [length]. lia. }
  rewrite Hat.
  destruct (Nat.eqb_spec (length (GameModel.history g)) 0) as [E|_];
    [rewrite Hhist, length_app in E; cbn [length] in E; lia|].
  rewrite Hhist, nth_error_app2, Nat.sub_diag by lia. cbn [nth_error].
  rewrite clone_pieces, firstn_app, Nat.sub_diag, firstn_all, firstn_O, app_nil_r.
  reflexivity.
Qed.

(** X22.  Taking back restores the game exactly.  Between two players,
    [undo] after a move gives back the game as it was before the move:
    pieces, side to move, state, winner, check flag, selection and
    history.  Against the machine [undo] takes back two moves, and so
    gives back the game as it was before the last two; when only one move
    has been played it takes back that one.  With nothing to take back it
    answers [false] and changes nothing. *)
Theorem undo_restores_the_game (g : GameModel.t) (i i' : nat) (x y x' y' : Z) :
  (GameModel.gameMode g = PVP ->
   Game.undo (Game.movePiece i x y g) = (true, g))
  /\ (GameModel.gameMode g = PVE ->
      Game.undo (Game.movePiece i' x' y' (Game.movePiece i x y g)) = (true, g))
  /\ (GameModel.gameMode g = PVE -> GameModel.history g = [] ->
      Game.undo (Game.movePiece i x y g) = (true, g))
  /\ (GameModel.history g = [] -> Game.undo g = (false, g)).
Proof.
  split; [|split; [|split]].
  - intros Hmode.
    destruct (movePiece_frame i x y g) as [Hh [Hm [Hd Hc]]].
    rewrite (undo_to _ (GameModel.clone g) (GameModel.history g) [] Hh).
    + rewrite Hm, Hd, Hc. unfold GameModel.clone. cbn. rewrite clone_pieces.
      now destruct g.
    + rewrite Hm, Hmode, Hh, length_app. cbn [length].
      rewrite Nat.min_l by lia. reflexivity.
  - intros Hmode.
    destruct (movePiece_frame i x y g) as [Hh [Hm [Hd Hc]]].
    destruct (movePiece_frame i' x' y' (Game.movePiece i x y g)) as [Hh' [Hm' [Hd' Hc']]].
    rewrite Hh, <- app_assoc in Hh'. cbn [app] in Hh'.
    rewrite (undo_to _ (GameModel.clone g) (GameModel.history g)
               [GameModel.clone (Game.movePiece i x y g)] Hh').
    + rewrite Hm', Hd', Hc', Hm, Hd, Hc. unfold GameModel.clone at 1 2 3 4 5 6 7.
      cbn. rewrite clone_pieces. now destruct g.
    + rewrite Hm', Hm, Hmode, Hh', length_app. cbn [length].
      rewrite Nat.min_l by lia. reflexivity.
  - intros Hmode Hempty.
    destruct (movePiece_frame i x y g) as [Hh [Hm [Hd Hc]]].
    rewrite (undo_to _ (GameModel.clone g) (GameModel.history g) [] Hh).
    + rewrite Hm, Hd, Hc. unfold GameModel.clone. cbn. rewrite clone_pieces.
      now destruct g.
    + rewrite Hm, Hmode, Hh, Hempty. reflexivity.
  - intros Hempty. unfold Game.undo. now rewrite Hempty.
Qed.

Lemma undo_restores_the_game_witness :
  Game.undo (Game.movePiece 29 4 4 (Game.movePiece 13 4 5 startingLayout))
  = (true, startingLayout).
Proof.
  destruct (undo_restores_the_game startingLayout 13 29 4 5 4 4) as [_ [Hpve _]].
  apply Hpve. reflexivity.
Defined.

Lemma map_id_updateAt (f : PieceModel.t -> PieceModel.t) (i : nat)
    (l : list PieceModel.t) :
  (forall p, PieceModel.id (f p) = PieceModel.id p) ->
  map PieceModel.id (updateAt i f l) = map PieceModel.id l.
Proof.
  intros Hf. revert i. induction l as [|a l IH]; intros [|i]; simpl;
    try reflexivity; [now rewrite Hf|now rewrite IH].
Qed.

Lemma movePiece_ids (i : nat) (tx ty : Z) (g : GameModel.t) :
  map PieceModel.id (GameModel.pieces (Game.movePiece i tx ty g))
  = map PieceModel.id (GameModel.pieces g).
Proof.
  assert (Hbegin : map PieceModel.id (GameModel.pieces (Game.movePieceBegin i tx ty g))
                   = map PieceModel.id (GameModel.pieces g)).
  { unfold Game.movePieceBegin. cbv zeta.
    cbn [Game.saveCurrentStateToHistory GameModel.withHistory GameModel.pieces].
    destruct (nth_error _ i) as [mover|]; [|reflexivity].
    destruct (findIndex _ _) as [j|]; [|reflexivity].
    destruct (negb _); [|reflexivity].
    cbn [GameModel.withPieces GameModel.pieces]. now apply map_id_updateAt. }
  unfold Game.movePiece, Game.movePieceEnd. cbv zeta.
  destruct (Rules.checkGameOver _);
    cbn [GameModel.setWinner GameModel.setIsInCheck GameModel.switchTurn
         GameModel.selectPiece GameModel.withPieces GameModel.pieces];
    now rewrite map_id_updateAt.
Qed.

Lemma movePiece_clears_the_selection (i : nat) (tx ty : Z) (g : GameModel.t) :
  GameModel.selectedPieceId (Game.movePiece i tx ty g) = None
  /\ GameModel.validMoves (Game.movePiece i tx ty g) = [].
Proof.
  unfold Game.movePiece, Game.movePieceEnd. cbv zeta.
  destruct (Rules.checkGameOver _); now split.
Qed.

Lemma map_rebuild_positions (l : list Position.t) :
  map (fun pos => Position.mk (Position.x pos) (Position.y pos)) l = l.
Proof. induction l as [|[x y] l IH]; simpl; [reflexivity|now rewrite IH]. Qed.

Lemma selectPiece_found (g : GameModel.t) (p : PieceModel.t) (pid : string) :
  find (fun q => String.eqb (PieceModel.id q) pid) (GameModel.pieces g) = Some p ->
  Game.selectPiece pid g
  = GameModel.setValidMoves (GameModel.selectPiece g (Some pid)) (Rules.getValidMoves p g).
Proof.
  intros Hfind. unfold Game.selectPiece.
  cbn [GameModel.selectPiece GameModel.pieces]. rewrite Hfind.
  rewrite map_rebuild_positions. f_equal.
  now apply getValidMoves_pieces.
Qed.

Lemma select_own_piece (g : GameModel.t) (c : PieceModel.t) (x y : Z) :
  NoDup (map PieceModel.id (GameModel.pieces g)) ->
  GameModel.getPieceAt g x y = Some c ->
  PieceModel.color c = GameModel.currentTurn g ->
  Game.selectPiece (PieceModel.id c) g
  = GameModel.setValidMoves (GameModel.selectPiece g (Some (PieceModel.id c)))
                            (Rules.getValidMoves c g)
  /\ selectionInOrder (Game.selectPiece (PieceModel.id c) g).
Proof.
  intros Hids Hat Hcolor. apply find_some in Hat. destruct Hat as [Hin Hocc].
  unfold GameModel.occupies in Hocc. repeat rewrite andb_true_iff in Hocc.
  destruct Hocc as [[Halive _] _].
  assert (Hfind : find (fun q => String.eqb (PieceModel.id q) (PieceModel.id c))
                       (GameModel.pieces g) = Some c).
  { rewrite find_findIndex.
    destruct (findIndex_of_id _ c Hids Hin) as [i [-> Hi]]. exact Hi. }
  rewrite (selectPiece_found g c _ Hfind). split; [reflexivity|].
  unfold selectionInOrder.
  cbn [GameModel.setValidMoves GameModel.selectPiece GameModel.selectedPieceId
       GameModel.pieces GameModel.currentTurn GameModel.validMoves].
  exists c. repeat split; auto.
  now apply getValidMoves_pieces.
Qed.

(** X23.  Selecting a piece marks its legal moves: after
    [selectPiece] the piece with the given id is the selected one and
    [isValidMove] answers, for every square, what [canMove] answers for
    that piece.  When no piece carries the id nothing is marked. *)
Theorem selectPiece_marks_the_legal_moves (g : GameModel.t) (pieceId : string) :
  GameModel.selectedPieceId (Game.selectPiece pieceId g) = Some pieceId
  /\ (forall p x y,
        find (fun q => String.eqb (PieceModel.id q) pieceId) (GameModel.pieces g)
        = Some p ->
        GameModel.isValidMove (Game.selectPiece pieceId g) x y = Rules.canMove p x y g)
  /\ (find (fun q => String.eqb (PieceModel.id q) pieceId) (GameModel.pieces g) = None ->
      forall x y, GameModel.isValidMove (Game.selectPiece pieceId g) x y = false).
Proof.
  split; [|split].
  - unfold Game.selectPiece. cbv zeta. now destruct (find _ _).
  - intros p x y Hfind. rewrite (selectPiece_found g p pieceId Hfind).
    unfold GameModel.isValidMove. cbn [GameModel.setValidMoves GameModel.validMoves].
    destruct (Rules.canMove p x y g) eqn:Emove.
    + apply existsb_exists. exists (Position.mk x y). split.
      * now apply getValidMoves_In.
      * cbn [Position.x Position.y]. now rewrite !Z.eqb_refl.
    + apply existsb_false_iff. intros [x' y'] Hin.
      apply getValidMoves_In in Hin. cbn [Position.x Position.y].
      destruct (Z.eqb_spec x' x) as [->|]; [|reflexivity].
      destruct (Z.eqb_spec y' y) as [->|]; [|reflexivity].
      congruence.
  - intros Hfind x y. unfold Game.selectPiece.
    cbn [GameModel.selectPiece GameModel.pieces]. now rewrite Hfind.
Qed.

Lemma selectPiece_marks_the_legal_moves_witness :
  GameModel.isValidMove (Game.selectPiece "r13" startingLayout) 4 5
  = Rules.canMove (livePiece SOLDIER RED 4 6 "r13") 4 5 startingLayout.
Proof.
  destruct (selectPiece_marks_the_legal_moves startingLayout "r13") as [_ [Hfound _]].
  apply Hfound. reflexivity.
Defined.

Lemma click_cases (cellSize : Z) (busy : bool) (screenX screenY : Q)
    (g : GameModel.t) :
  NoDup (map PieceModel.id (GameModel.pieces g)) ->
  selectionInOrder g ->
  let boardPos := Board.screenToBoard cellSize screenX screenY in
  let g' := Game.handleMouseClick cellSize busy screenX screenY g in
  NoDup (map PieceModel.id (GameModel.pieces g'))
  /\ selectionInOrder g'
  /\ (g' = g
      \/ (exists sel moves,
             g' = GameModel.setValidMoves (GameModel.selectPiece g sel) moves)
      \/ (exists i p,
             nth_error (GameModel.pieces g) i = Some p
             /\ GameModel.selectedPieceId g = Some (PieceModel.id p)
             /\ legalMove g (mkMove p boardPos)
             /\ g' = Game.movePiece i (Position.x boardPos) (Position.y boardPos) g)).
Proof.
  intros Hids Hsel boardPos g'.
  assert (Hkeep :
            NoDup (map PieceModel.id (GameModel.pieces g))
            /\ selectionInOrder g
            /\ (g = g
                \/ (exists sel moves,
                       g = GameModel.setValidMoves (GameModel.selectPiece g sel) moves)
                \/ (exists i p,
                       nth_error (GameModel.pieces g) i = Some p
                       /\ GameModel.selectedPieceId g = Some (PieceModel.id p)
                       /\ legalMove g (mkMove p boardPos)
                       /\ g = Game.movePiece i (Position.x boardPos)
                                (Position.y boardPos) g))).
  { repeat split; auto. }
  subst g'. unfold Game.handleMouseClick.
  destruct (GameModel.gameState g); try exact Hkeep.
  destruct busy; [exact Hkeep|].
  destruct ((match GameModel.gameMode g with PVE => true | PVP => false end)
            && PieceColor_eqb (GameModel.currentTurn g) (GameModel.aiPlayerColor g));
    [exact Hkeep|].
  cbv zeta. fold boardPos.
  set (x := Position.x boardPos). set (y := Position.y boardPos).
  assert (Hselect : forall c,
             GameModel.getPieceAt g x y = Some c ->
             PieceModel.color c = GameModel.currentTurn g ->
             NoDup (map PieceModel.id
                        (GameModel.pieces (Game.selectPiece (PieceModel.id c) g)))
             /\ selectionInOrder (Game.selectPiece (PieceModel.id c) g)
             /\ exists sel moves,
                  Game.selectPiece (PieceModel.id c) g
                  = GameModel.setValidMoves (GameModel.selectPiece g sel) moves).
  { intros c Hat Hcolor.
    destruct (select_own_piece g c x y Hids Hat Hcolor) as [Heq Hord].
    split; [|split; [exact Hord|]].
    - rewrite Heq. exact Hids.
    - eexists _, _. exact Heq. }
  assert (HselectClicked :
            let r := match GameModel.getPieceAt g x y with
                     | Some clicked =>
                         if PieceColor_eqb (PieceModel.color clicked)
                                           (GameModel.currentTurn g)
                         then Game.selectPiece (PieceModel.id clicked) g
                         else g
                     | None => g
                     end in
            NoDup (map PieceModel.id (GameModel.pieces r))
            /\ selectionInOrder r
            /\ (r = g
                \/ (exists sel moves,
                       r = GameModel.setValidMoves (GameModel.selectPiece g sel) moves)
                \/ (exists i p,
                       nth_error (GameModel.pieces g) i = Some p
                       /\ GameModel.selectedPieceId g = Some (PieceModel.id p)
                       /\ legalMove g (mkMove p boardPos)
                       /\ r = Game.movePiece i x y g))).
  { cbv zeta. destruct (GameModel.getPieceAt g x y) as [c|] eqn:Eat; [|exact Hkeep].
    destruct (PieceColor_eqb (PieceModel.color c) (GameModel.currentTurn g)) eqn:Ec;
      [|exact Hkeep].
    apply PieceColor_eqb_eq in Ec.
    destruct (Hselect c eq_refl Ec) as [H1 [H2 H3]]. repeat split; auto. }
  destruct (GameModel.selectedPieceId g) as [sid|] eqn:Esid; [|exact HselectClicked].
  destruct (String.eqb sid EmptyString); [exact HselectClicked|].
  clear HselectClicked.
  unfold selectionInOrder in Hsel. rewrite Esid in Hsel.
  destruct Hsel as [p [Hfind [Halive [Hcolor Hmoves]]]].
  rewrite find_findIndex in Hfind.
  destruct (findIndex _ (GameModel.pieces g)) as [i|] eqn:Ei; [|discriminate].
  destruct (GameModel.isValidMove g x y) eqn:Evalid.
  - split; [rewrite movePiece_ids; exact Hids|].
    destruct (movePiece_clears_the_selection i x y g) as [Hnone Hnil].
    split; [unfold selectionInOrder; now rewrite Hnone|].
    right. right. exists i, p.
    split; [exact Hfind|].
    apply findIndex_Some in Ei. destruct Ei as [p' [Hp' [Hid _]]].
    rewrite Hfind in Hp'. injection Hp' as <-. apply String.eqb_eq in Hid.
    split; [now rewrite Hid|].
    split; [|reflexivity].
    unfold legalMove. cbn [piece target].
    split; [eapply nth_error_In, Hfind|]. split; [exact Halive|].
    split; [exact Hcolor|].
    unfold GameModel.isValidMove in Evalid. rewrite Hmoves in Evalid.
    apply existsb_exists in Evalid. destruct Evalid as [[x' y'] [Hin Hxy]].
    cbn [Position.x Position.y] in Hxy. apply andb_true_iff in Hxy.
    destruct Hxy as [Hx Hy]. apply Z.eqb_eq in Hx, Hy. subst x' y'.
    now apply getValidMoves_In in Hin.
  - assert (Hdeselect :
              NoDup (map PieceModel.id (GameModel.pieces (GameModel.selectPiece g None)))
              /\ selectionInOrder (GameModel.selectPiece g None)
              /\ (GameModel.selectPiece g None = g
                  \/ (exists sel moves,
                         GameModel.selectPiece g None
                         = GameModel.setValidMoves (GameModel.selectPiece g sel) moves)
                  \/ (exists i p,
                         nth_error (GameModel.pieces g) i = Some p
                         /\ Some sid = Some (PieceModel.id p)
                         /\ legalMove g (mkMove p boardPos)
                         /\ GameModel.selectPiece g None = Game.movePiece i x y g))).
    { split; [exact Hids|]. split; [reflexivity|].
      right. left. exists None, []. reflexivity. }
    destruct (GameModel.getPieceAt g x y) as [c|] eqn:Eat; [|exact Hdeselect].
    destruct (PieceColor_eqb (PieceModel.color c) (GameModel.currentTurn g)) eqn:Ec;
      [|exact Hdeselect].
    apply PieceColor_eqb_eq in Ec.
    destruct (Hselect c eq_refl Ec) as [H1 [H2 H3]]. repeat split; auto.
Qed.

Lemma click_guards (cellSize : Z) (busy : bool) (screenX screenY : Q)
    (g : GameModel.t) :
  Game.handleMouseClick cellSize busy screenX screenY g <> g ->
  GameModel.gameState g = PLAYING /\ busy = false
  /\ ~ (GameModel.gameMode g = PVE
        /\ GameModel.currentTurn g = GameModel.aiPlayerColor g).
Proof.
  unfold Game.handleMouseClick.
  destruct (GameModel.gameState g); try (intros H; now contradiction H).
  destruct busy; [intros H; now contradiction H|].
  destruct ((match GameModel.gameMode g with PVE => true | PVP => false end)
            && PieceColor_eqb (GameModel.currentTurn g) (GameModel.aiPlayerColor g))
    eqn:Eguard; [intros H; now contradiction H|].
  intros _. split; [reflexivity|]. split; [reflexivity|].
  intros [Hmode Hturn]. rewrite Hmode, Hturn, PieceColor_eqb_refl in Eguard.
  discriminate.
Qed.

(** X24.  A click plays legal moves only.  When the selection is in order
    and ids are unique, a click leaves the game as it is, or changes the
    selection alone, or plays a legal move of the side to move: the
    selected piece goes to the intersection clicked, by [movePiece].
    Selection and ids are in order afterwards too, so the same holds for
    the next click.  A click changes nothing unless the game is in play,
    nothing is being animated and, against the machine, it is not the
    machine's turn. *)
Theorem click_plays_only_legal_moves (cellSize : Z) (busy : bool)
    (screenX screenY : Q) (g : GameModel.t) :
  NoDup (map PieceModel.id (GameModel.pieces g)) ->
  selectionInOrder g ->
  let boardPos := Board.screenToBoard cellSize screenX screenY in
  let g' := Game.handleMouseClick cellSize busy screenX screenY g in
  NoDup (map PieceModel.id (GameModel.pieces g'))
  /\ selectionInOrder g'
  /\ (g' = g
      \/ (exists sel moves,
             g' = GameModel.setValidMoves (GameModel.selectPiece g sel) moves)
      \/ (exists i p,
             nth_error (GameModel.pieces g) i = Some p
             /\ GameModel.selectedPieceId g = Some (PieceModel.id p)
             /\ legalMove g (mkMove p boardPos)
             /\ g' = Game.movePiece i (Position.x boardPos) (Position.y boardPos) g))
  /\ (g' <> g ->
      GameModel.gameState g = PLAYING /\ busy = false
      /\ ~ (GameModel.gameMode g = PVE
            /\ GameModel.currentTurn g = GameModel.aiPlayerColor g)).
Proof.
  intros Hids Hsel boardPos g'.
  destruct (click_cases cellSize busy screenX screenY g Hids Hsel) as [H1 [H2 H3]].
  repeat split; auto; now apply (click_guards cellSize busy screenX screenY g).
Qed.

Lemma click_plays_only_legal_moves_witness :
  selectionInOrder
    (Game.handleMouseClick DEFAULT_CELL_SIZE false (inject_Z 30) (inject_Z 405)
       (Game.selectPiece "rs" (redToMoveAgainstBlackAI EASY))).
Proof.
  apply (click_plays_only_legal_moves DEFAULT_CELL_SIZE false (inject_Z 30) (inject_Z 405)
           (Game.selectPiece "rs" (redToMoveAgainstBlackAI EASY))).
  - simpl. repeat (constructor; [simpl; intuition discriminate|]). constructor.
  - exists (livePiece SOLDIER RED 0 6 "rs"). vm_compute. repeat split; reflexivity.
Defined.

(** ** Where a game is stored *)

(** X25.  Games of different kinds are stored apart.  Two games have the
    same storage key exactly when they have the same mode and, against
    the machine, the same difficulty and the same machine colour; so a
    save never replaces the save of another kind of game.  The key under
    which the date of a save is kept is never the storage key of a game,
    and two games share it exactly when they share the storage key. *)
Theorem storage_keys_separate_the_modes (g1 g2 : GameModel.t) :
  (SaveLoad.getStorageKey g1 = SaveLoad.getStorageKey g2
   <-> GameModel.gameMode g1 = GameModel.gameMode g2
       /\ match GameModel.gameMode g1 with
          | PVE => GameModel.aiDifficulty g1 = GameModel.aiDifficulty g2
                   /\ GameModel.aiPlayerColor g1 = GameModel.aiPlayerColor g2
          | PVP => True
          end)
  /\ SaveLoad.dateKey g1 <> SaveLoad.getStorageKey g2
  /\ (SaveLoad.dateKey g1 = SaveLoad.dateKey g2
      <-> SaveLoad.getStorageKey g1 = SaveLoad.getStorageKey g2).
Proof.
  unfold SaveLoad.dateKey, SaveLoad.getStorageKey.
  destruct (GameModel.gameMode g1), (GameModel.aiDifficulty g1),
    (GameModel.aiPlayerColor g1), (GameModel.gameMode g2),
    (GameModel.aiDifficulty g2), (GameModel.aiPlayerColor g2);
    (split; [|split];
     [ split;
       [ intros H; first [discriminate H | repeat split; reflexivity]
       | intros [Hm Hrest]; first [reflexivity | congruence | destruct Hrest; congruence] ]
     | discriminate
     | split; intros H; first [reflexivity | discriminate H] ]).
Qed.

(** ** The search with pruning finds the minimax value *)

Ltac window_cases :=
  unfold soundFor, num_max, num_min, num_leb, num_ltb in *;
  repeat match goal with
         | |- context [if ?a <? ?b then _ else _] => destruct (Z.ltb_spec a b)
         | H : context [if ?a <? ?b then _ else _] |- _ => destruct (Z.ltb_spec a b)
         end;
  rewrite ?Z.leb_le, ?Z.ltb_lt, ?Z.leb_gt in *;
  repeat split; intros; try discriminate; try (f_equal; lia); try lia.

Lemma soundFor_exact (alpha beta : num) (v : Z) : soundFor alpha beta v v.
Proof. unfold soundFor. intuition lia. Qed.

Lemma soundFor_full_window (v x : Z) : soundFor NInf PInf v x -> x = v.
Proof. intros [_ [_ H]]. now apply H. Qed.

(** One more move examined at a node of the maximizing side. *)
Lemma max_step (alpha beta : num) (V mz v x : Z) :
  num_ltb alpha beta = true ->
  num_leb beta (num_max alpha (Fin mz)) = false ->
  soundFor alpha beta V mz ->
  soundFor (num_max alpha (Fin mz)) beta v x ->
  soundFor alpha beta (Z.max V v) (Z.max mz x)
  /\ num_max (Fin mz) (Fin x) = Fin (Z.max mz x)
  /\ num_max (num_max alpha (Fin mz)) (Fin x) = num_max alpha (Fin (Z.max mz x))
  /\ num_ltb (num_max alpha (Fin mz)) beta = true.
Proof.
  intros Hopen Hgo HV Hx.
  destruct alpha as [|a| |], beta as [|b| |]; try discriminate Hopen; window_cases.
Qed.

(** The cut at a node of the maximizing side. *)
Lemma max_cut (alpha beta : num) (V W mz : Z) :
  num_ltb alpha beta = true ->
  num_leb beta (num_max alpha (Fin mz)) = true ->
  soundFor alpha beta V mz -> V <= W ->
  soundFor alpha beta W mz.
Proof.
  intros Hopen Hcut HV HW.
  destruct alpha as [|a| |], beta as [|b| |]; try discriminate Hopen; window_cases.
Qed.

Lemma min_step (alpha beta : num) (V mz v x : Z) :
  num_ltb alpha beta = true ->
  num_leb (num_min beta (Fin mz)) alpha = false ->
  soundFor alpha beta V mz ->
  soundFor alpha (num_min beta (Fin mz)) v x ->
  soundFor alpha beta (Z.min V v) (Z.min mz x)
  /\ num_min (Fin mz) (Fin x) = Fin (Z.min mz x)
  /\ num_min (num_min beta (Fin mz)) (Fin x) = num_min beta (Fin (Z.min mz x))
  /\ num_ltb alpha (num_min beta (Fin mz)) = true.
Proof.
  intros Hopen Hgo HV Hx.
  destruct alpha as [|a| |], beta as [|b| |]; try discriminate Hopen; window_cases.
Qed.

Lemma min_cut (alpha beta : num) (V W mz : Z) :
  num_ltb alpha beta = true ->
  num_leb (num_min beta (Fin mz)) alpha = true ->
  soundFor alpha beta V mz -> W <= V ->
  soundFor alpha beta W mz.
Proof.
  intros Hopen Hcut HV HW.
  destruct alpha as [|a| |], beta as [|b| |]; try discriminate Hopen; window_cases.
Qed.

Lemma fold_max_ge (l : list Z) (v : Z) : v <= fold_left Z.max l v.
Proof.
  revert v. induction l as [|a l IH]; intros v; simpl; [lia|].
  specialize (IH (Z.max v a)). lia.
Qed.

Lemma fold_min_le (l : list Z) (v : Z) : fold_left Z.min l v <= v.
Proof.
  revert v. induction l as [|a l IH]; intros v; simpl; [lia|].
  specialize (IH (Z.min v a)). lia.
Qed.

Lemma fold_max_cons (l : list Z) (a v : Z) :
  fold_left Z.max (a :: l) v = Z.max v (fold_left Z.max l a).
Proof.
  revert a v. induction l as [|b l IH]; intros a v; simpl; [reflexivity|].
  simpl in IH. rewrite (IH b (Z.max v a)), (IH b a). lia.
Qed.

Lemma fold_min_cons (l : list Z) (a v : Z) :
  fold_left Z.min (a :: l) v = Z.min v (fold_left Z.min l a).
Proof.
  revert a v. induction l as [|b l IH]; intros a v; simpl; [reflexivity|].
  simpl in IH. rewrite (IH b (Z.min v a)), (IH b a). lia.
Qed.

(** The best of a list does not depend on the order of the list. *)
Lemma bestOf_permutation (isMax : bool) (l l' : list Z) :
  Permutation l l' ->
  match l, l' with
  | v :: vs, v' :: vs' => bestOf isMax v vs = bestOf isMax v' vs'
  | [], [] => True
  | _, _ => False
  end.
Proof.
  unfold bestOf.
  induction 1 as [|a l l' Hperm IH|a b l|l l' l'' H1 IH1 H2 IH2].
  - exact I.
  - destruct l as [|v vs], l' as [|v' vs']; try contradiction; [reflexivity|].
    destruct isMax.
    + rewrite !fold_max_cons. now rewrite IH.
    + rewrite !fold_min_cons. now rewrite IH.
  - destruct isMax; simpl.
    + rewrite Z.max_comm. reflexivity.
    + rewrite Z.min_comm. reflexivity.
  - destruct l as [|v vs], l' as [|v' vs'], l'' as [|v'' vs'']; try contradiction;
      [exact I|congruence].
Qed.

Lemma max_window (alpha beta : num) (mz : Z) :
  num_ltb alpha beta = true ->
  num_leb beta (num_max alpha (Fin mz)) = false ->
  num_ltb (num_max alpha (Fin mz)) beta = true.
Proof.
  intros Hopen Hgo.
  destruct alpha as [|a| |], beta as [|b| |]; try discriminate Hopen; window_cases.
Qed.

Lemma min_window (alpha beta : num) (mz : Z) :
  num_ltb alpha beta = true ->
  num_leb (num_min beta (Fin mz)) alpha = false ->
  num_ltb alpha (num_min beta (Fin mz)) = true.
Proof.
  intros Hopen Hgo.
  destruct alpha as [|a| |], beta as [|b| |]; try discriminate Hopen; window_cases.
Qed.

Lemma minimax_sound (aiColor : PieceColor) (depth : nat) :
  forall g alpha beta isMaximizingPlayer,
    num_ltb alpha beta = true ->
    Returns (fun r => exists x,
                 r = Fin x
                 /\ soundFor alpha beta
                      (minimaxValue g depth isMaximizingPlayer aiColor) x)
            (AIWorker.minimax g depth alpha beta isMaximizingPlayer aiColor).
Proof.
  induction depth as [|depth IH]; intros g alpha beta isMax Hopen.
  - constructor. eexists. split; [reflexivity|apply soundFor_exact].
  - cbn [AIWorker.minimax minimaxValue].
    destruct (AIWorker.getAllValidMovesForCurrentPlayer g) as [|m0 ms0] eqn:Emoves.
    + constructor. eexists. split; [reflexivity|apply soundFor_exact].
    + cbn [length Nat.eqb].
      destruct isMax; cbn [negb].
      * set (val := fun m => minimaxValue (AIWorker.child g m) depth false aiColor).
        apply Returns_bind with (P := fun l => Permutation (m0 :: ms0) l);
          [apply sortMoves_permutation|].
        intros sorted Hperm.
        pose proof (bestOf_permutation true _ _ (Permutation_map val Hperm)) as Hbest.
        destruct sorted as [|m1 rest]; [contradiction|].
        cbn [map] in Hbest |- *. rewrite Hbest. clear Hbest Hperm Emoves m0 ms0.
        apply Returns_bind
          with (P := fun r => exists x, r = Fin x /\ soundFor alpha beta (val m1) x);
          [now apply IH|].
        intros score [x1 [-> Hx1]]. change (num_max NInf (Fin x1)) with (Fin x1).
        match goal with
        | |- Returns _ (if _ then _ else ?f rest _ _) => set (loop := f)
        end.
        assert (Hcons : forall m ms a best,
                   loop (m :: ms) a best
                   = (score <- AIWorker.minimax (AIWorker.child g m) depth a beta
                                 false aiColor ;;
                      if num_leb beta (num_max a score) then Ret (num_max best score)
                      else loop ms (num_max a score) (num_max best score)))
          by reflexivity.
        assert (Hnil : forall a best, loop [] a best = Ret best) by reflexivity.
        clearbody loop.
        assert (Htail : forall ms mz V,
                   soundFor alpha beta V mz ->
                   Returns (fun r => exists x,
                                r = Fin x
                                /\ soundFor alpha beta (fold_left Z.max (map val ms) V) x)
                           (if num_leb beta (num_max alpha (Fin mz)) then Ret (Fin mz)
                            else loop ms (num_max alpha (Fin mz)) (Fin mz))).
        { induction ms as [|m ms IHms]; intros mz V HV;
            destruct (num_leb beta (num_max alpha (Fin mz))) eqn:Ecut.
          - constructor. exists mz. split; [reflexivity|exact HV].
          - rewrite Hnil. constructor. exists mz. split; [reflexivity|exact HV].
          - constructor. exists mz. split; [reflexivity|].
            apply (max_cut alpha beta V _ mz Hopen Ecut HV), fold_max_ge.
          - rewrite Hcons.
            apply Returns_bind
              with (P := fun r => exists x,
                             r = Fin x
                             /\ soundFor (num_max alpha (Fin mz)) beta (val m) x).
            + apply IH. now apply max_window.
            + intros score [x [-> Hx]].
              destruct (max_step alpha beta V mz (val m) x Hopen Ecut HV Hx)
                as [Hs [E1 [E2 _]]].
              rewrite E1, E2. cbn [map fold_left]. now apply IHms. }
        now apply Htail.
      * set (val := fun m => minimaxValue (AIWorker.child g m) depth true aiColor).
        apply Returns_bind with (P := fun l => Permutation (m0 :: ms0) l);
          [apply sortMoves_permutation|].
        intros sorted Hperm.
        pose proof (bestOf_permutation false _ _ (Permutation_map val Hperm)) as Hbest.
        destruct sorted as [|m1 rest]; [contradiction|].
        cbn [map] in Hbest |- *. rewrite Hbest. clear Hbest Hperm Emoves m0 ms0.
        apply Returns_bind
          with (P := fun r => exists x, r = Fin x /\ soundFor alpha beta (val m1) x);
          [now apply IH|].
        intros score [x1 [-> Hx1]]. change (num_min PInf (Fin x1)) with (Fin x1).
        match goal with
        | |- Returns _ (if _ then _ else ?f rest _ _) => set (loop := f)
        end.
        assert (Hcons : forall m ms b best,
                   loop (m :: ms) b best
                   = (score <- AIWorker.minimax (AIWorker.child g m) depth alpha b
                                 true aiColor ;;
                      if num_leb (num_min b score) alpha then Ret (num_min best score)
                      else loop ms (num_min b score) (num_min best score)))
          by reflexivity.
        assert (Hnil : forall b best, loop [] b best = Ret best) by reflexivity.
        clearbody loop.
        assert (Htail : forall ms mz V,
                   soundFor alpha beta V mz ->
                   Returns (fun r => exists x,
                                r = Fin x
                                /\ soundFor alpha beta (fold_left Z.min (map val ms) V) x)
                           (if num_leb (num_min beta (Fin mz)) alpha then Ret (Fin mz)
                            else loop ms (num_min beta (Fin mz)) (Fin mz))).
        { induction ms as [|m ms IHms]; intros mz V HV;
            destruct (num_leb (num_min beta (Fin mz)) alpha) eqn:Ecut.
          - constructor. exists mz. split; [reflexivity|exact HV].
          - rewrite Hnil. constructor. exists mz. split; [reflexivity|exact HV].
          - constructor. exists mz. split; [reflexivity|].
            apply (min_cut alpha beta V _ mz Hopen Ecut HV), fold_min_le.
          - rewrite Hcons.
            apply Returns_bind
              with (P := fun r => exists x,
                             r = Fin x
                             /\ soundFor alpha (num_min beta (Fin mz)) (val m) x).
            + apply IH. now apply min_window.
            + intros score [x [-> Hx]].
              destruct (min_step alpha beta V mz (val m) x Hopen Ecut HV Hx)
                as [Hs [E1 [E2 _]]].
              rewrite E1, E2. cbn [map fold_left]. now apply IHms. }
        now apply Htail.
Qed.

(** X26.  Pruning and move ordering do not change the value of the
    search.  Called with the full window, as the deepening loop calls it,
    [minimax] answers with the plain minimax value of the position to the
    given depth, whatever is drawn while the moves are ordered; it never
    throws and never answers an infinity. *)
Theorem minimax_with_pruning_finds_the_minimax_value (g : GameModel.t) (depth : nat)
    (isMaximizingPlayer : bool) (aiColor : PieceColor) (w : World) :
  fst (run (AIWorker.minimax g depth NInf PInf isMaximizingPlayer aiColor) w)
  = Some (Fin (minimaxValue g depth isMaximizingPlayer aiColor)).
Proof.
  destruct (Returns_run _ _
              (minimax_sound aiColor depth g NInf PInf isMaximizingPlayer eq_refl) w)
    as [r [Hrun [x [-> Hx]]]].
  rewrite Hrun. now rewrite (soundFor_full_window _ _ Hx).
Qed.

(** ** Sorting by score, and the final selection *)

Lemma compareScores_order (tmp element : ScoredMove) :
  score tmp <> NaN -> score element <> NaN ->
  (orderOf (num_sub (score element) (score tmp)) >? 0)
  = num_ltb (score tmp) (score element).
Proof.
  destruct (score tmp) as [|x| |], (score element) as [|y| |]; simpl;
    try congruence; intros _ _; try reflexivity.
  destruct (Z.ltb_spec x y), (Z.gtb_spec (y - x) 0); try reflexivity; lia.
Qed.

Lemma num_leb_trans (a b c : num) :
  num_leb a b = true -> num_leb b c = true -> num_leb a c = true.
Proof.
  destruct a, b, c; simpl; try congruence. rewrite !Z.leb_le. lia.
Qed.

Lemma num_ltb_leb (a b : num) : num_ltb a b = true -> num_leb a b = true.
Proof. destruct a, b; simpl; try congruence. rewrite Z.ltb_lt, Z.leb_le. lia. Qed.

Lemma num_not_ltb_leb (a b : num) :
  a <> NaN -> b <> NaN -> num_ltb a b = false -> num_leb b a = true.
Proof.
  destruct a, b; simpl; try congruence. rewrite Z.ltb_ge, Z.leb_le. lia.
Qed.

Lemma num_leb_not_ltb (a b : num) : num_leb a b = true -> num_ltb b a = false.
Proof. destruct a, b; simpl; try congruence. rewrite Z.ltb_ge, Z.leb_le. lia. Qed.

Lemma num_leb_refl (a : num) : a <> NaN -> num_leb a a = true.
Proof. destruct a; simpl; try congruence. intros _. apply Z.leb_refl. Qed.

Lemma sink_sorted (element : ScoredMove) (placed : list ScoredMove) :
  score element <> NaN ->
  Forall (fun s => score s <> NaN) placed ->
  StronglySorted scoreAtMost placed ->
  Returns (fun l => StronglySorted scoreAtMost l /\ Permutation (element :: placed) l)
          (sink AIWorker.compareScores element placed).
Proof.
  intros Helement Hplaced Hsorted.
  induction placed as [|tmp before IH]; simpl.
  - constructor. split; [repeat constructor|reflexivity].
  - inversion Hplaced as [|? ? Htmp Hbefore]; subst.
    inversion Hsorted as [|? ? Hsorted' Hleast]; subst.
    rewrite (compareScores_order tmp element Htmp Helement).
    destruct (num_ltb (score tmp) (score element)) eqn:Elt.
    + apply Returns_bind
        with (P := fun l => StronglySorted scoreAtMost l
                            /\ Permutation (element :: before) l);
        [now apply IH|].
      intros below [Hbelow Hperm]. constructor. split.
      * constructor; [exact Hbelow|].
        apply (Permutation_Forall Hperm). constructor; [|exact Hleast].
        now apply num_ltb_leb.
      * rewrite perm_swap. now constructor.
    + constructor. split; [|reflexivity].
      assert (Hle : scoreAtMost element tmp) by now apply num_not_ltb_leb.
      constructor; [exact Hsorted|].
      constructor; [exact Hle|].
      eapply Forall_impl; [|exact Hleast].
      intros s Hs. exact (num_leb_trans _ _ _ Hle Hs).
Qed.

Lemma StronglySorted_snoc {A : Type} (R : A -> A -> Prop) (l : list A) (a : A) :
  StronglySorted R l -> Forall (fun b => R b a) l -> StronglySorted R (l ++ [a]).
Proof.
  induction 1 as [|b l Hsorted IH Hleast]; intros Hall; simpl.
  - repeat constructor.
  - inversion Hall as [|? ? Hb Hl]; subst.
    constructor; [now apply IH|].
    apply Forall_app. split; [exact Hleast|]. now constructor.
Qed.

Lemma StronglySorted_rev {A : Type} (R : A -> A -> Prop) (l : list A) :
  StronglySorted R l -> StronglySorted (fun a b => R b a) (rev l).
Proof.
  induction 1 as [|a l Hsorted IH Hleast]; simpl; [constructor|].
  apply StronglySorted_snoc; [exact IH|].
  apply Forall_forall. intros b Hb. apply in_rev in Hb.
  rewrite Forall_forall in Hleast. now apply Hleast.
Qed.

Lemma sortFrom_sorted (pending : list ScoredMove) :
  forall placed,
    Forall (fun s => score s <> NaN) (placed ++ pending) ->
    StronglySorted scoreAtMost placed ->
    Returns (fun l => StronglySorted (fun a b => scoreAtMost b a) l
                      /\ Permutation (placed ++ pending) l)
            (sortFrom AIWorker.compareScores placed pending).
Proof.
  induction pending as [|element pending IH]; intros placed Hall Hsorted; simpl.
  - constructor. split; [now apply StronglySorted_rev|].
    rewrite app_nil_r. apply Permutation_rev.
  - apply Forall_app in Hall. destruct Hall as [Hplaced Hpending].
    inversion Hpending as [|? ? Helement Hpending']; subst.
    apply Returns_bind
      with (P := fun l => StronglySorted scoreAtMost l
                          /\ Permutation (element :: placed) l);
      [now apply sink_sorted|].
    intros placed' [Hsorted' Hperm].
    eapply Returns_weaken; [|apply IH].
    + intros l [Hl Hpl]. split; [exact Hl|].
      rewrite <- Hpl, <- Permutation_middle.
      now apply (Permutation_app_tail pending) in Hperm.
    + apply Forall_app. split; [|exact Hpending'].
      apply (Permutation_Forall Hperm). now constructor.
    + exact Hsorted'.
Qed.

Lemma sort_by_score_sorted (l : list ScoredMove) :
  Forall (fun s => score s <> NaN) l ->
  Returns (fun l' => StronglySorted (fun a b => scoreAtMost b a) l' /\ Permutation l l')
          (sort AIWorker.compareScores l).
Proof. intros Hall. apply (sortFrom_sorted l []); [exact Hall|constructor]. Qed.

Lemma betterCount_permutation (s : ScoredMove) (l l' : list ScoredMove) :
  Permutation l l' -> betterCount s l = betterCount s l'.
Proof.
  unfold betterCount. induction 1 as [|a l l' _ IH|a b l|l l' l'' _ IH1 _ IH2]; simpl.
  - reflexivity.
  - destruct (num_ltb _ _); simpl; now rewrite IH.
  - destruct (num_ltb (score s) (score a)), (num_ltb (score s) (score b)); reflexivity.
  - congruence.
Qed.

Lemma betterCount_sorted (l : list ScoredMove) :
  StronglySorted (fun a b => scoreAtMost b a) l ->
  forall i s, nth_error l i = Some s -> (betterCount s l <= i)%nat.
Proof.
  unfold betterCount.
  induction 1 as [|a l Hsorted IH Hleast]; intros [|i] s Hs; try discriminate.
  - injection Hs as ->. simpl.
    assert (Hnone : filter (fun s' => num_ltb (score s) (score s')) l = []).
    { clear IH Hsorted. induction Hleast as [|b l Hb _ IHl]; simpl; [reflexivity|].
      now rewrite (num_leb_not_ltb _ _ Hb). }
    rewrite Hnone.
    destruct (num_ltb (score s) (score s)) eqn:E; [|simpl; lia].
    exfalso. assert (H := num_ltb_leb _ _ E). apply num_leb_not_ltb in H. congruence.
  - simpl in Hs. specialize (IH i s Hs). simpl.
    destruct (num_ltb (score s) (score a)); simpl; lia.
Qed.

Lemma nth_error_firstn_Some {A : Type} (n i : nat) (l : list A) (a : A) :
  nth_error (firstn n l) i = Some a -> nth_error l i = Some a /\ (i < n)%nat.
Proof.
  revert i l. induction n as [|n IH]; intros i l H.
  - destruct i; discriminate.
  - destruct l as [|b l]; [destruct i; discriminate|].
    destruct i as [|i]; simpl in *; [split; [exact H|lia]|].
    destruct (IH i l H). split; [assumption|lia].
Qed.

Lemma selection_among_best (pickBelow : Z)
    (scoredMoves : list ScoredMove) (w : World) :
  scoredMoves <> [] ->
  Forall (fun s => score s <> NaN) scoredMoves ->
  exists best,
    fst (run (AIWorker.selectMoveWithRandomness pickBelow scoredMoves) w) = Some best
    /\ In best scoredMoves
    /\ (betterCount best scoredMoves <= 4)%nat
    /\ (pickBelow <= randomDraws w (drawn w) mod two53 ->
        betterCount best scoredMoves = 0%nat).
Proof.
  intros Hne Hall. unfold AIWorker.selectMoveWithRandomness.
  destruct (sort_compareScores_pure scoredMoves) as [sorted Hpure].
  destruct (Returns_run _ _ (sort_by_score_sorted scoredMoves Hall) w)
    as [sorted' [Hrun [Hsorted Hperm]]].
  rewrite Hpure in Hrun. injection Hrun as <-.
  rewrite run_bind, Hpure. cbn [run].
  set (r := randomDraws w (drawn w) mod two53).
  set (candidates := firstn (Nat.min 5 (length sorted)) sorted).
  assert (Hsome : sorted <> []).
  { intros ->. apply Permutation_sym, Permutation_nil in Hperm. congruence. }
  destruct ((r <? pickBelow) && (1 <? Z.of_nat (length candidates))) eqn:Epick.
  - apply andb_true_iff in Epick. destruct Epick as [Hr Hmany].
    apply Z.ltb_lt in Hr, Hmany. cbn [run].
    set (r' := randomDraws _ _ mod two53).
    assert (Hr' : 0 <= r' < two53) by (apply Z.mod_pos_bound; reflexivity).
    pose proof (randomIndex_lt r' (length candidates) Hr' ltac:(lia)) as Hi.
    destruct (nth_error candidates (randomIndex r' (length candidates))) as [s|] eqn:E;
      [|apply nth_error_None in E; lia].
    apply nth_error_firstn_Some in E. destruct E as [E Hfive].
    exists s. split; [reflexivity|].
    split; [apply (Permutation_in _ (Permutation_sym Hperm)); eapply nth_error_In, E|].
    rewrite (betterCount_permutation s _ _ Hperm).
    pose proof (betterCount_sorted sorted Hsorted _ _ E) as Hcount.
    split; lia.
  - destruct sorted as [|top rest]; [congruence|].
    exists top. cbn [run fst]. split; [reflexivity|].
    split; [apply (Permutation_in _ (Permutation_sym Hperm)); now left|].
    rewrite (betterCount_permutation top _ _ Hperm).
    pose proof (betterCount_sorted (top :: rest) Hsorted 0 top eq_refl) as Hcount.
    split; lia.
Qed.

(** X27.  The final selection of the hard tier.  From scores none of
    which is [NaN], [selectMoveWithRandomness] answers with an entry that
    at most four entries outscore; when the first number drawn is not
    below the probability of the random pick (as always when that
    probability is zero), no entry outscores the answer. *)
Theorem selection_is_among_the_five_best (pickBelow : Z)
    (scoredMoves : list ScoredMove) (w : World) :
  scoredMoves <> [] ->
  Forall (fun s => score s <> NaN) scoredMoves ->
  exists best,
    fst (run (AIWorker.selectMoveWithRandomness pickBelow scoredMoves) w) = Some best
    /\ In best scoredMoves
    /\ (betterCount best scoredMoves <= 4)%nat
    /\ (pickBelow <= randomDraws w (drawn w) mod two53 ->
        betterCount best scoredMoves = 0%nat).
Proof. apply selection_among_best. Qed.


Lemma selection_is_among_the_five_best_witness :
  exists best,
    fst (run (AIWorker.selectMoveWithRandomness AIWorker.pickBelowSource
                [mkScored (mkMove (livePiece SOLDIER RED 4 6 "r13") (Position.mk 4 5))
                          (Fin 10);
                 mkScored (mkMove (livePiece CANNON RED 1 7 "r9") (Position.mk 1 0))
                          (Fin 250)])
             lowDraws) = Some best
    /\ (betterCount best
          [mkScored (mkMove (livePiece SOLDIER RED 4 6 "r13") (Position.mk 4 5)) (Fin 10);
           mkScored (mkMove (livePiece CANNON RED 1 7 "r9") (Position.mk 1 0)) (Fin 250)]
        <= 4)%nat.
Proof.
  destruct (selection_is_among_the_five_best AIWorker.pickBelowSource
              [mkScored (mkMove (livePiece SOLDIER RED 4 6 "r13") (Position.mk 4 5))
                        (Fin 10);
               mkScored (mkMove (livePiece CANNON RED 1 7 "r9") (Position.mk 1 0))
                        (Fin 250)]
              lowDraws)
    as [best [Hrun [_ [Hcount _]]]].
  - discriminate.
  - repeat constructor; discriminate.
  - exists best. split; [exact Hrun|exact Hcount].
Defined.

(** ** What the deepening search ends with *)

Lemma Returns_and {A : Type} (P Q : A -> Prop) (m : Prog A) :
  Returns P m -> Returns Q m -> Returns (fun a => P a /\ Q a) m.
Proof.
  intros HP. induction HP as [a Ha|k Hk IH|k Hk IH]; intros HQ;
    inversion HQ; subst; constructor; auto.
Qed.

Lemma searchScore_NInf (g : GameModel.t) (aiColor : PieceColor) (m : Move) :
  searchScore g aiColor (mkScored m NInf).
Proof. now left. Qed.

Lemma scoreAll_scores (g : GameModel.t) (aiColor : PieceColor) (startTime : Z)
    (depth : nat) (scoredMoves : list ScoredMove) :
  (1 <= depth <= AIWorker.maxDepth)%nat ->
  Forall (searchScore g aiColor) scoredMoves ->
  Returns (Forall (searchScore g aiColor))
          (AIWorker.scoreAll g aiColor startTime depth scoredMoves).
Proof.
  intros Hdepth Hall.
  induction Hall as [|sm rest Hsm Hrest IH]; simpl; [now constructor|].
  constructor. intros now. simpl.
  apply Returns_bind with (P := searchScore g aiColor).
  - destruct (now - startTime >? AIWorker.timeLimit); [now constructor|].
    eapply Returns_bind; [apply (minimax_sound aiColor); reflexivity|].
    intros s [x [-> Hx]]. constructor. right. exists (Nat.pred depth).
    split; [lia|]. cbn [score move].
    now rewrite (soundFor_full_window _ _ Hx).
  - intros sm' Hsm'.
    apply Returns_bind with (P := Forall (searchScore g aiColor)); [exact IH|].
    intros rest' Hrest'. constructor. now constructor.
Qed.

Lemma searchScore_not_NaN (g : GameModel.t) (aiColor : PieceColor) (l : list ScoredMove) :
  Forall (searchScore g aiColor) l -> Forall (fun s => score s <> NaN) l.
Proof.
  apply Forall_impl. intros s [H|[d [_ H]]]; rewrite H; discriminate.
Qed.

Lemma deepen_scores (g : GameModel.t) (aiColor : PieceColor) (startTime : Z)
    (depths : list nat) :
  Forall (fun depth => (1 <= depth <= AIWorker.maxDepth)%nat) depths ->
  forall scoredMoves,
    scoredMoves <> [] ->
    Forall (searchScore g aiColor) scoredMoves ->
    Returns (fun l => Forall (searchScore g aiColor) l
                      /\ Permutation (map move scoredMoves) (map move l))
            (AIWorker.deepen g aiColor startTime depths scoredMoves).
Proof.
  induction 1 as [|depth depths Hdepth Hdepths IH]; intros scoredMoves Hne Hall; simpl.
  - now constructor.
  - constructor. intros now. simpl.
    destruct (now - startTime >? AIWorker.timeLimit); [now constructor|].
    apply Returns_bind
      with (P := fun l => Forall (searchScore g aiColor) l
                          /\ map move l = map move scoredMoves);
      [apply Returns_and; [now apply scoreAll_scores|apply scoreAll_returns]|].
    intros scored [Hscored Hmoves].
    apply Returns_bind
      with (P := fun l => Permutation scored l);
      [apply sort_permutation, compareScores_returns|].
    intros sorted Hsorted.
    assert (Hall' : Forall (searchScore g aiColor) sorted)
      by exact (Permutation_Forall Hsorted Hscored).
    assert (Hperm : Permutation (map move scoredMoves) (map move sorted)).
    { rewrite <- Hmoves. now apply Permutation_map. }
    destruct sorted as [|best rest].
    + exfalso. apply Permutation_sym, Permutation_nil in Hperm.
      destruct scoredMoves; [congruence|discriminate].
    + cbv iota.
      match goal with
      | |- Returns _ (if ?stop then _ else _) => destruct stop; [now constructor|]
      end.
      eapply Returns_weaken; [|apply IH; [discriminate|exact Hall']].
      intros l [Hl Hpl]. split; [exact Hl|]. now rewrite Hperm.
Qed.

Lemma searchScores_scores (g : GameModel.t) (validMoves : list Move)
    (aiColor : PieceColor) :
  validMoves <> [] ->
  Returns (fun l => Forall (searchScore g aiColor) l
                    /\ Permutation validMoves (map move l))
          (AIWorker.searchScores g validMoves aiColor).
Proof.
  intros Hne. unfold AIWorker.searchScores.
  apply Returns_bind with (P := fun _ => True);
    [constructor; intros now; now constructor|].
  intros startTime _.
  apply Returns_bind with (P := fun l => Permutation validMoves l);
    [apply sortMoves_permutation|].
  intros sortedMoves Hsorted.
  eapply Returns_weaken; [|apply deepen_scores].
  - intros l [Hl Hpl]. split; [exact Hl|].
    rewrite map_map, map_id in Hpl. now rewrite Hsorted.
  - unfold AIWorker.maxDepth. repeat constructor.
  - intros E. apply map_eq_nil in E. subst.
    apply Permutation_sym, Permutation_nil in Hsorted. congruence.
  - apply Forall_forall. intros s Hs. apply in_map_iff in Hs.
    destruct Hs as [m [<- _]]. now left.
Qed.

(** X28.  What the hard tier of the worker answers with.  The search ends
    with one score for each of the moves given; each score is
    [-Infinity] (the move was never scored) or the plain minimax value,
    to some depth below [maxDepth], of the position after the move.  The
    move answered is that of an entry which at most four entries
    outscore.  This holds whatever the clock reads and whatever is
    drawn. *)
Theorem hard_tier_scores_and_answer (pickBelow : Z) (g : GameModel.t)
    (validMoves : list Move) (aiColor : PieceColor) (w : World) :
  validMoves <> [] ->
  exists scored best,
    fst (run (AIWorker.searchScores g validMoves aiColor) w) = Some scored
    /\ Permutation validMoves (map move scored)
    /\ Forall (searchScore g aiColor) scored
    /\ fst (run (AIWorker.chooseHardMove pickBelow validMoves g aiColor) w)
       = Some (move best)
    /\ In best scored
    /\ (betterCount best scored <= 4)%nat.
Proof.
  intros Hne.
  destruct (Returns_run _ _ (searchScores_scores g validMoves aiColor Hne) w)
    as [scored [Hrun [Hall Hperm]]].
  assert (Hsome : scored <> []).
  { intros ->. apply Permutation_sym, Permutation_nil in Hperm. congruence. }
  destruct (selection_among_best pickBelow scored
              (snd (run (AIWorker.searchScores g validMoves aiColor) w)) Hsome
              (searchScore_not_NaN g aiColor scored Hall))
    as [best [Hbest [Hin [Hcount _]]]].
  exists scored, best. repeat split; auto.
  unfold AIWorker.chooseHardMove, AIWorker.iterativeDeepening.
  rewrite !run_bind.
  destruct (run (AIWorker.searchScores g validMoves aiColor) w) as [o w'] eqn:E.
  cbn [fst snd] in Hrun, Hbest. subst o.
  destruct (run (AIWorker.selectMoveWithRandomness pickBelow scored) w') as [o' w'']
    eqn:E'.
  cbn [fst] in Hbest. subst o'. reflexivity.
Qed.

Lemma hard_tier_scores_and_answer_witness :
  exists scored best,
    fst (run (AIWorker.searchScores chariotsAtTheGeneral
                (AIWorker.getAllValidMoves chariotsAtTheGeneral) RED) lowDraws)
    = Some scored
    /\ fst (run (AIWorker.chooseHardMove AIWorker.pickBelowSource
                   (AIWorker.getAllValidMoves chariotsAtTheGeneral)
                   chariotsAtTheGeneral RED) lowDraws)
       = Some (move best)
    /\ In best scored
    /\ (betterCount best scored <= 4)%nat.
Proof.
  destruct (hard_tier_scores_and_answer AIWorker.pickBelowSource chariotsAtTheGeneral
              (AIWorker.getAllValidMoves chariotsAtTheGeneral) RED lowDraws)
    as [scored [best [H1 [_ [_ [H2 [H3 H4]]]]]]].
  - vm_compute. discriminate.
  - exists scored, best. repeat split; assumption.
Defined.

(** ** What a move of the controller comes to *)

Lemma checkGameOver_pieces (g1 g2 : GameModel.t) :
  GameModel.pieces g1 = GameModel.pieces g2 ->
  GameModel.currentTurn g1 = GameModel.currentTurn g2 ->
  Rules.checkGameOver g1 = Rules.checkGameOver g2.
Proof.
  intros H Hturn.
  unfold Rules.checkGameOver, GameModel.getCurrentTurnPieces, GameModel.getPiecesByColor.
  rewrite (isKingFaceToFace_pieces g1 g2 H), H, Hturn.
  repeat (match goal with
          | |- (if ?b then _ else _) = (if ?b then _ else _) => destruct b; [reflexivity|]
          end).
  rewrite (existsb_pointwise
             (fun piece => 0 <? Z.of_nat (length (Rules.getValidMoves piece g1)))
             (fun piece => 0 <? Z.of_nat (length (Rules.getValidMoves piece g2))));
    [reflexivity|].
  intros q. now rewrite (getValidMoves_pieces g1 g2 q H).
Qed.

Lemma index_of_id (ps : list PieceModel.t) (p : PieceModel.t) (i : nat) :
  NoDup (map PieceModel.id ps) -> nth_error ps i = Some p ->
  findIndex (fun q => String.eqb (PieceModel.id q) (PieceModel.id p)) ps = Some i.
Proof.
  intros Hids Hi.
  destruct (findIndex_of_id ps p Hids (nth_error_In _ _ Hi)) as [i' [Hfind Hi']].
  rewrite Hfind. f_equal.
  apply (proj1 (NoDup_nth_error (map PieceModel.id ps)) Hids).
  - rewrite length_map. apply nth_error_Some. congruence.
  - now rewrite !nth_error_map, Hi, Hi'.
Qed.

Lemma movePiece_as_simulated (g : GameModel.t) (i : nat) (p : PieceModel.t) (x y : Z) :
  NoDup (map PieceModel.id (GameModel.pieces g)) ->
  nth_error (GameModel.pieces g) i = Some p ->
  (forall q, GameModel.getPieceAt g x y = Some q ->
             PieceModel.color q <> PieceModel.color p) ->
  exists after,
    Rules.simulateMove (PieceModel.id p) (Position.mk x y) g = Some after
    /\ GameModel.currentTurn after = GameModel.currentTurn g
    /\ GameModel.pieces (Game.movePieceBegin i x y g)
       = match findIndex (GameModel.occupies x y) (GameModel.pieces g) with
         | Some j => updateAt j PieceModel.kill (GameModel.pieces g)
         | None => GameModel.pieces g
         end
    /\ GameModel.pieces after
       = updateAt i (fun q => PieceModel.moveTo q (Position.mk x y))
           (GameModel.pieces (Game.movePieceBegin i x y g)).
Proof.
  intros Hids Hi Hfree.
  assert (Hbegin : GameModel.pieces (Game.movePieceBegin i x y g)
                   = match findIndex (GameModel.occupies x y) (GameModel.pieces g) with
                     | Some j => updateAt j PieceModel.kill (GameModel.pieces g)
                     | None => GameModel.pieces g
                     end).
  { unfold Game.movePieceBegin. cbv zeta.
    cbn [Game.saveCurrentStateToHistory GameModel.withHistory GameModel.pieces].
    rewrite Hi.
    unfold GameModel.getPieceAt in Hfree. rewrite find_findIndex in Hfree.
    destruct (findIndex (GameModel.occupies x y) (GameModel.pieces g)) as [j|] eqn:Ej;
      [|reflexivity].
    destruct (findIndex_Some _ _ _ Ej) as [q [Hq _]].
    rewrite (nth_error_nth _ _ _ Hq).
    destruct (PieceColor_eqb (PieceModel.color q) (PieceModel.color p)) eqn:E.
    - apply PieceColor_eqb_eq in E. exfalso. now apply (Hfree q).
    - reflexivity. }
  unfold Rules.simulateMove. cbv zeta.
  cbn [GameModel.clone GameModel.pieces Position.x Position.y].
  rewrite clone_pieces, (index_of_id _ p i Hids Hi).
  eexists. split; [reflexivity|].
  split; [reflexivity|]. split; [exact Hbegin|].
  cbn [GameModel.withPieces GameModel.pieces]. now rewrite Hbegin.
Qed.

(** X29.  What a move of the controller comes to.  For a piece of the
    game and a target that holds no piece of its side, [movePiece] plays
    the move as the rules simulate it: the pieces afterwards are those of
    [simulateMove].  The state before is added to the history and the
    selection is cleared.  Whether the game ends is asked of
    [checkGameOver] in the position reached with the mover still to move:
    with a winner the game is over and the turn stays; without one the
    turn passes and the check flag says whether the side now to move is
    in check.  So when both generals are alive and apart and the mover
    could move again, the game goes on, whether or not the side now to
    move has a legal move. *)
Theorem movePiece_plays_the_simulated_move (g : GameModel.t) (i : nat)
    (p : PieceModel.t) (x y : Z) :
  NoDup (map PieceModel.id (GameModel.pieces g)) ->
  nth_error (GameModel.pieces g) i = Some p ->
  (forall q, GameModel.getPieceAt g x y = Some q ->
             PieceModel.color q <> PieceModel.color p) ->
  exists after,
    Rules.simulateMove (PieceModel.id p) (Position.mk x y) g = Some after
    /\ GameModel.pieces (Game.movePiece i x y g) = GameModel.pieces after
    /\ GameModel.history (Game.movePiece i x y g)
       = GameModel.history g ++ [GameModel.clone g]
    /\ GameModel.selectedPieceId (Game.movePiece i x y g) = None
    /\ GameModel.validMoves (Game.movePiece i x y g) = []
    /\ GameModel.isInCheck (Game.movePiece i x y g)
       = Rules.isInCheck (opponentOf (GameModel.currentTurn g)) after
    /\ match Rules.checkGameOver after with
       | Some winner =>
           GameModel.winner (Game.movePiece i x y g) = Some winner
           /\ GameModel.gameState (Game.movePiece i x y g) = OVER
           /\ GameModel.currentTurn (Game.movePiece i x y g) = GameModel.currentTurn g
       | None =>
           GameModel.winner (Game.movePiece i x y g) = GameModel.winner g
           /\ GameModel.gameState (Game.movePiece i x y g) = GameModel.gameState g
           /\ GameModel.currentTurn (Game.movePiece i x y g)
              = opponentOf (GameModel.currentTurn g)
       end
    /\ (hasGeneral after RED -> hasGeneral after BLACK ->
        Rules.isKingFaceToFace after = false -> hasLegalMove after ->
        GameModel.winner (Game.movePiece i x y g) = GameModel.winner g
        /\ GameModel.currentTurn (Game.movePiece i x y g)
           = opponentOf (GameModel.currentTurn g)).
Proof.
  intros Hids Hi Hfree.
  destruct (movePiece_as_simulated g i p x y Hids Hi Hfree)
    as [after [Hsim [Hturn [Hbegin Hafter]]]].
  exists after. split; [exact Hsim|].
  destruct (movePieceBegin_frame i x y g) as [Hh [Hm [Hd [Hc Ht]]]].
  set (gB := Game.movePieceBegin i x y g) in *.
  unfold Game.movePiece. fold gB. unfold Game.movePieceEnd. cbv zeta.
  set (moved := GameModel.withPieces gB
                  (updateAt i (fun q => PieceModel.moveTo q (Position.mk x y))
                            (GameModel.pieces gB))).
  set (g2 := GameModel.selectPiece moved None).
  set (g3 := GameModel.setIsInCheck g2
               (Rules.isInCheck (opponentOf (GameModel.currentTurn g2)) g2)).
  assert (Hp3 : GameModel.pieces g3 = GameModel.pieces after) by (symmetry; exact Hafter).
  assert (Ht3 : GameModel.currentTurn g3 = GameModel.currentTurn after)
    by (rewrite Hturn; exact Ht).
  assert (Ht2 : GameModel.currentTurn g2 = GameModel.currentTurn g) by exact Ht.
  assert (Hchk : Rules.isInCheck (opponentOf (GameModel.currentTurn g2)) g2
                 = Rules.isInCheck (opponentOf (GameModel.currentTurn g)) after).
  { rewrite Ht2. apply isInCheck_pieces. symmetry. exact Hafter. }
  assert (Hover : Rules.checkGameOver g3 = Rules.checkGameOver after)
    by (apply checkGameOver_pieces; assumption).
  rewrite Hover.
  assert (Hmain :
    GameModel.pieces
      (match Rules.checkGameOver after with
       | Some winner => GameModel.setWinner g3 winner
       | None =>
           GameModel.setIsInCheck (GameModel.switchTurn g3)
             (Rules.isInCheck (GameModel.currentTurn (GameModel.switchTurn g3))
                              (GameModel.switchTurn g3))
       end) = GameModel.pieces after
    /\ GameModel.history
         (match Rules.checkGameOver after with
          | Some winner => GameModel.setWinner g3 winner
          | None =>
              GameModel.setIsInCheck (GameModel.switchTurn g3)
                (Rules.isInCheck (GameModel.currentTurn (GameModel.switchTurn g3))
                                 (GameModel.switchTurn g3))
          end) = GameModel.history g ++ [GameModel.clone g]
    /\ GameModel.selectedPieceId
         (match Rules.checkGameOver after with
          | Some winner => GameModel.setWinner g3 winner
          | None =>
              GameModel.setIsInCheck (GameModel.switchTurn g3)
                (Rules.isInCheck (GameModel.currentTurn (GameModel.switchTurn g3))
                                 (GameModel.switchTurn g3))
          end) = None
    /\ GameModel.validMoves
         (match Rules.checkGameOver after with
          | Some winner => GameModel.setWinner g3 winner
          | None =>
              GameModel.setIsInCheck (GameModel.switchTurn g3)
                (Rules.isInCheck (GameModel.currentTurn (GameModel.switchTurn g3))
                                 (GameModel.switchTurn g3))
          end) = []
    /\ GameModel.isInCheck
         (match Rules.checkGameOver after with
          | Some winner => GameModel.setWinner g3 winner
          | None =>
              GameModel.setIsInCheck (GameModel.switchTurn g3)
                (Rules.isInCheck (GameModel.currentTurn (GameModel.switchTurn g3))
                                 (GameModel.switchTurn g3))
          end) = Rules.isInCheck (opponentOf (GameModel.currentTurn g)) after
    /\ match Rules.checkGameOver after with
       | Some winner =>
           GameModel.winner (GameModel.setWinner g3 winner) = Some winner
           /\ GameModel.gameState (GameModel.setWinner g3 winner) = OVER
           /\ GameModel.currentTurn (GameModel.setWinner g3 winner)
              = GameModel.currentTurn g
       | None =>
           GameModel.winner (GameModel.switchTurn g3) = GameModel.winner g
           /\ GameModel.gameState (GameModel.switchTurn g3) = GameModel.gameState g
           /\ GameModel.currentTurn (GameModel.switchTurn g3)
              = opponentOf (GameModel.currentTurn g)
       end).
  { assert (HwB : GameModel.winner gB = GameModel.winner g
                  /\ GameModel.gameState gB = GameModel.gameState g).
    { unfold gB, Game.movePieceBegin. cbv zeta.
      destruct (nth_error _ i); [|now split].
      destruct (findIndex _ _); [|now split].
      now destruct (negb _). }
    destruct HwB as [HwB HsB].
    destruct (Rules.checkGameOver after) as [winner|].
    - split; [exact Hp3|]. split; [exact Hh|]. split; [reflexivity|].
      split; [reflexivity|]. split; [exact Hchk|].
      split; [reflexivity|]. split; [reflexivity|exact Ht].
    - split; [exact Hp3|]. split; [exact Hh|]. split; [reflexivity|].
      split; [reflexivity|]. split.
      + change (Rules.isInCheck (opponentOf (GameModel.currentTurn gB))
                                (GameModel.switchTurn g3)
                = Rules.isInCheck (opponentOf (GameModel.currentTurn g)) after).
        rewrite Ht. apply isInCheck_pieces. exact Hp3.
      + split; [exact HwB|]. split; [exact HsB|].
        change (opponentOf (GameModel.currentTurn gB)
                = opponentOf (GameModel.currentTurn g)).
        now rewrite Ht. }
  destruct Hmain as [H1 [H2 [H3 [H4 [H5 H6]]]]].
  repeat (split; [assumption|]).
  split.
  - destruct (Rules.checkGameOver after); exact H6.
  - intros Hred Hblack Hface Hlegal.
    assert (Hgo : Rules.checkGameOver after = None).
    { unfold Rules.checkGameOver. cbv zeta.
      apply existsb_hasGeneral_iff in Hred, Hblack. rewrite Hred, Hblack, Hface.
      apply hasValidMove_spec in Hlegal. rewrite Hlegal. reflexivity. }
    rewrite Hgo in *. now destruct H6 as [Hw [_ Htn]].
Qed.

Lemma movePiece_plays_the_simulated_move_witness :
  exists after,
    Rules.simulateMove "r13" (Position.mk 4 5) startingLayout = Some after
    /\ GameModel.pieces (Game.movePiece 13 4 5 startingLayout) = GameModel.pieces after
    /\ GameModel.currentTurn (Game.movePiece 13 4 5 startingLayout) = BLACK.
Proof.
  destruct (movePiece_plays_the_simulated_move startingLayout 13
              (livePiece SOLDIER RED 4 6 "r13") 4 5)
    as [after [Hsim [Hpieces _]]].
  - simpl. repeat (constructor; [simpl; intuition discriminate|]). constructor.
  - reflexivity.
  - intros q Hq. vm_compute in Hq. discriminate Hq.
  - exists after. split; [exact Hsim|]. split; [exact Hpieces|].
    vm_compute. reflexivity.
Defined.

(** ** The evaluation is zero-sum *)

Lemma opponentOf_involutive (c : PieceColor) : opponentOf (opponentOf c) = c.
Proof. now destruct c. Qed.

Lemma fold_left_sub {A : Type} (f h : A -> Z) (l : list A) (a : Z) :
  fold_left (fun s p => s - f p - h p) l a
  = a - fold_left (fun s p => s + f p + h p) l 0.
Proof.
  assert (H : forall a b,
             fold_left (fun s p => s - f p - h p) l a
             + fold_left (fun s p => s + f p + h p) l b = a + b).
  { induction l as [|p l IH]; intros a' b; simpl; [reflexivity|].
    rewrite IH. lia. }
  specialize (H a 0). lia.
Qed.

(** X30.  The static evaluation is zero-sum: what a position is worth to
    one side is the negative of what it is worth to the other.  So is
    the value of the search: the minimax value for one side, maximizing,
    is the negative of the value for the other side, minimizing. *)
Theorem evaluation_is_zero_sum (g : GameModel.t) (aiColor : PieceColor) (depth : nat)
    (isMaximizingPlayer : bool) :
  AIWorker.evaluatePosition g (opponentOf aiColor)
  = - AIWorker.evaluatePosition g aiColor
  /\ minimaxValue g depth isMaximizingPlayer (opponentOf aiColor)
     = - minimaxValue g depth (negb isMaximizingPlayer) aiColor.
Proof.
  assert (Heval : forall g', AIWorker.evaluatePosition g' (opponentOf aiColor)
                             = - AIWorker.evaluatePosition g' aiColor).
  { intros g'. unfold AIWorker.evaluatePosition. cbv zeta.
    rewrite opponentOf_involutive.
    rewrite !(fold_left_sub (fun p => AIWorker.getPieceValue p + AIWorker.getPositionValue p)
                            (fun p => AIWorker.getSafetyValue p g')).
    destruct (Rules.isInCheck aiColor g'), (Rules.isInCheck (opponentOf aiColor) g');
      lia. }
  split; [apply Heval|].
  revert g isMaximizingPlayer.
  induction depth as [|depth IH]; intros g isMax; [apply Heval|].
  cbn [minimaxValue]. rewrite negb_involutive.
  destruct (AIWorker.getAllValidMovesForCurrentPlayer g) as [|m ms]; [apply Heval|].
  cbn [map]. rewrite (IH (AIWorker.child g m) (negb isMax)).
  rewrite negb_involutive.
  generalize (minimaxValue (AIWorker.child g m) depth isMax aiColor) as v.
  unfold bestOf.
  induction ms as [|m' ms IHms]; intros v; [reflexivity|].
  cbn [map fold_left]. rewrite (IH (AIWorker.child g m') (negb isMax)).
  rewrite negb_involutive.
  destruct isMax; cbn [negb].
  - rewrite <- Z.opp_min_distr. apply IHms.
  - rewrite <- Z.opp_max_distr. apply IHms.
Qed.
